(** * secrets-vault: the encrypted vault engine

    A shallow embedding of [src/utils/crypto.js] (class [Crypto]),
    [src/storage/vault.js] (class [SecretsVault]) and the command-line
    program, the properties of the vault's specification that concern them,
    and further properties of the code.

    Layout:
    - [Bytes], [Base64], [Hex]: Node's [Buffer] as [list byte] with its
      [base64] and [hex] text encodings;
    - the data model: the records of [vault.js] as records, a secret's
      [metadata] object as a finite map;
    - [Runtime]: the primitives the two classes call but do not define (the
      AES block cipher and UTF-8 codec of aes-js, PBKDF2 and SHA-256 of Node's
      [crypto], [String.prototype.toLowerCase], [Date], [JSON]);
    - [World]: what the process sees from outside (entropy, wall clock, files);
    - [Ctr], [Crypto]: counter mode, and [deriveKey], [encrypt], [decrypt],
      [hash], [generateSecret];
    - [Vault]: the state-and-exception monad the methods run in, and one
      definition per method of [SecretsVault];
    - [Cli]: the actions of the command-line program, one process per
      command;
    - the notions the properties are stated with, a small runtime and sample
      vaults to compute examples with, and [AesJs], the text codec of aes-js;
    - the properties.

    Values are typed as the vault's own calls type them: text is a [string],
    an optional text is an [option string] ([None] for [null] or [undefined]),
    a time stamp is the text [toISOString] gives. What JavaScript would do
    with a value of another type in their place is outside the model, as are
    failures of the file system. Three throws of the code have the same
    standing, and a property that hangs on one says so in its conditions:
    - [this.data] of another shape than the vault's, which [load] and
      [importVault] assign when they are given valid JSON of another shape
      (the methods then throw a TypeError where they reach for a missing
      part);
    - a key that is not 16, 24 or 32 bytes long, which aes-js refuses;
    - a plaintext with an unpaired surrogate, on which the encoder of
      aes-js throws. *)

From Stdlib Require Import ZArith NArith Bool List Ascii String DecimalString Lia.
From Stdlib.Strings Require Import Byte.
From stdpp Require Import base option list gmap strings.
Import ListNotations.

Open Scope string_scope.

(* ------------------------------------------------------------------------- *)
(** ** Bytes *)

Module Bytes.

(** Bitwise exclusive or of two octets, as [a ^ b] on a [Uint8Array]. *)
Definition xor (a b : byte) : byte :=
  let '(a0, (a1, (a2, (a3, (a4, (a5, (a6, a7))))))) := Byte.to_bits a in
  let '(b0, (b1, (b2, (b3, (b4, (b5, (b6, b7))))))) := Byte.to_bits b in
  Byte.of_bits (xorb a0 b0, (xorb a1 b1, (xorb a2 b2, (xorb a3 b3,
               (xorb a4 b4, (xorb a5 b5, (xorb a6 b6, xorb a7 b7))))))).

(** [b + 1] modulo 256. *)
Definition succ (b : byte) : byte :=
  match Byte.of_N ((Byte.to_N b + 1) mod 256) with
  | Some b' => b'
  | None => x00
  end.

(** [Buffer.prototype.slice(0, n)] and [slice(n)]. *)
Definition slice_to (n : nat) (b : list byte) : list byte := firstn n b.
Definition slice_from (n : nat) (b : list byte) : list byte := skipn n b.

End Bytes.

(* ------------------------------------------------------------------------- *)
(** ** Base64, as [buf.toString('base64')] and [Buffer.from(s, 'base64')] *)

Module Base64.

(** Six bits, most significant first. *)
Definition sextet : Type := bool * bool * bool * bool * bool * bool.

Definition bit (b : bool) (w : N) : N := if b then w else 0%N.

Definition index (s : sextet) : N :=
  let '(b5, b4, b3, b2, b1, b0) := s in
  (bit b5 32 + bit b4 16 + bit b3 8 + bit b2 4 + bit b1 2 + bit b0 1)%N.

Definition of_index (n : N) : sextet :=
  (N.testbit n 5, N.testbit n 4, N.testbit n 3,
   N.testbit n 2, N.testbit n 1, N.testbit n 0).

(** The standard alphabet: A-Z, a-z, 0-9, +, /. *)
Definition char (s : sextet) : ascii :=
  let i := index s in
  if (i <? 26)%N then ascii_of_N (65 + i)
  else if (i <? 52)%N then ascii_of_N (97 + (i - 26))
  else if (i <? 62)%N then ascii_of_N (48 + (i - 52))
  else if (i =? 62)%N then "+"%char
  else "/"%char.

(** The decoder reads the standard and the URL-safe alphabet alike. *)
Definition value (c : ascii) : option sextet :=
  let n := N_of_ascii c in
  if ((65 <=? n) && (n <=? 90))%N then Some (of_index (n - 65))
  else if ((97 <=? n) && (n <=? 122))%N then Some (of_index (n - 97 + 26))
  else if ((48 <=? n) && (n <=? 57))%N then Some (of_index (n - 48 + 52))
  else if ((n =? 43) || (n =? 45))%N then Some (of_index 62)
  else if ((n =? 47) || (n =? 95))%N then Some (of_index 63)
  else None.

Definition pad : ascii := "="%char.

(** Three octets are four sextets. *)
Definition split3 (a b c : byte) : sextet * sextet * sextet * sextet :=
  let '(a0, (a1, (a2, (a3, (a4, (a5, (a6, a7))))))) := Byte.to_bits a in
  let '(b0, (b1, (b2, (b3, (b4, (b5, (b6, b7))))))) := Byte.to_bits b in
  let '(c0, (c1, (c2, (c3, (c4, (c5, (c6, c7))))))) := Byte.to_bits c in
  ((a7, a6, a5, a4, a3, a2), (a1, a0, b7, b6, b5, b4),
   (b3, b2, b1, b0, c7, c6), (c5, c4, c3, c2, c1, c0)).

Definition join1 (s1 s2 : sextet) : byte :=
  let '(a7, a6, a5, a4, a3, a2) := s1 in
  let '(a1, a0, _, _, _, _) := s2 in
  Byte.of_bits (a0, (a1, (a2, (a3, (a4, (a5, (a6, a7))))))).

Definition join2 (s2 s3 : sextet) : byte :=
  let '(_, _, b7, b6, b5, b4) := s2 in
  let '(b3, b2, b1, b0, _, _) := s3 in
  Byte.of_bits (b0, (b1, (b2, (b3, (b4, (b5, (b6, b7))))))).

Definition join3 (s3 s4 : sextet) : byte :=
  let '(_, _, _, _, c7, c6) := s3 in
  let '(c5, c4, c3, c2, c1, c0) := s4 in
  Byte.of_bits (c0, (c1, (c2, (c3, (c4, (c5, (c6, c7))))))).

(** [buf.toString('base64')]: groups of three octets, the last one padded. *)
Fixpoint encode (bs : list byte) : string :=
  match bs with
  | [] => ""
  | [a] =>
      let '(s1, s2, _, _) := split3 a x00 x00 in
      String (char s1) (String (char s2) (String pad (String pad "")))
  | [a; b] =>
      let '(s1, s2, s3, _) := split3 a b x00 in
      String (char s1) (String (char s2) (String (char s3) (String pad "")))
  | a :: b :: c :: rest =>
      let '(s1, s2, s3, s4) := split3 a b c in
      String (char s1) (String (char s2) (String (char s3) (String (char s4)
        (encode rest))))
  end.

(** The decoder's reading of the text: characters outside the alphabets are
    skipped, and the first padding character ends the input. *)
Fixpoint sextets (s : string) : list sextet :=
  match s with
  | EmptyString => []
  | String c r =>
      if Ascii.eqb c pad then []
      else match value c with
           | Some v => v :: sextets r
           | None => sextets r
           end
  end.

(** Four sextets give three octets; a last group of three gives two, of two
    gives one, and a lone sextet gives none. *)
Fixpoint octets (l : list sextet) : list byte :=
  match l with
  | s1 :: s2 :: s3 :: s4 :: rest =>
      join1 s1 s2 :: join2 s2 s3 :: join3 s3 s4 :: octets rest
  | [s1; s2; s3] => [join1 s1 s2; join2 s2 s3]
  | [s1; s2] => [join1 s1 s2]
  | _ => []
  end.

(** [Buffer.from(s, 'base64')]. *)
Definition decode (s : string) : list byte := octets (sextets s).

End Base64.

(* ------------------------------------------------------------------------- *)
(** ** Hexadecimal text, as [buf.toString('hex')] and [Buffer.from(s, 'hex')] *)

Module Hex.

Definition digit (n : N) : ascii :=
  if (n <? 10)%N then ascii_of_N (48 + n) else ascii_of_N (97 + (n - 10)).

Definition digit_value (c : ascii) : option N :=
  let n := N_of_ascii c in
  if ((48 <=? n) && (n <=? 57))%N then Some (n - 48)%N
  else if ((97 <=? n) && (n <=? 102))%N then Some (n - 97 + 10)%N
  else if ((65 <=? n) && (n <=? 70))%N then Some (n - 65 + 10)%N
  else None.

Fixpoint encode (bs : list byte) : string :=
  match bs with
  | [] => ""
  | b :: rest =>
      let n := Byte.to_N b in
      String (digit (n / 16)) (String (digit (n mod 16)) (encode rest))
  end.

(** Decoding stops at the first pair that is not two hex digits; a trailing
    single character is dropped. *)
Fixpoint decode (s : string) : list byte :=
  match s with
  | String c1 (String c2 r) =>
      match digit_value c1, digit_value c2 with
      | Some h, Some l =>
          match Byte.of_N (16 * h + l) with
          | Some b => b :: decode r
          | None => []
          end
      | _, _ => []
      end
  | _ => []
  end.

End Hex.

(* ------------------------------------------------------------------------- *)
(** ** Data model ([vault.js], the constructor and [addSecret]) *)

(** A caller-defined value held under a key of a secret's [metadata]: a
    primitive value, among them the two that JSON has no text for, [undefined]
    and [NaN]. (Nested objects and arrays, and objects such as a [Date], are
    not modelled.) *)
Inductive JsValue : Type :=
  | JsUndefined
  | JsNull
  | JsBool (b : bool)
  | JsNumber (z : Z)
  | JsNaN
  | JsString (s : string).

(** JavaScript's truthiness of a string that may be [undefined] or [null]:
    only a non-empty string is truthy. *)
Definition truthy (o : option string) : bool :=
  match o with
  | Some s => negb (String.eqb s "")
  | None => false
  end.

(** [o || d] for such a string. *)
Definition or_default (o : option string) (d : string) : string :=
  if truthy o then default d o else d.

(** [o || null]. *)
Definition or_null (o : option string) : option string :=
  if truthy o then o else None.

(** One stored record, with the fields [addSecret] gives it. [value] holds the
    ciphertext; [expiresAt = None] is [null]. *)
Module Secret.
Record t : Type := mk {
  id : string;
  name : string;
  type : string;
  value : string;
  valueHash : string;
  createdAt : string;
  updatedAt : string;
  expiresAt : option string;
  metadata : gmap string JsValue;
  tags : list string;
  notes : string
}.

Definition set_name (v : string) (s : t) : t :=
  mk (id s) v (type s) (value s) (valueHash s) (createdAt s) (updatedAt s)
     (expiresAt s) (metadata s) (tags s) (notes s).
Definition set_type (v : string) (s : t) : t :=
  mk (id s) (name s) v (value s) (valueHash s) (createdAt s) (updatedAt s)
     (expiresAt s) (metadata s) (tags s) (notes s).
Definition set_value (v : string) (s : t) : t :=
  mk (id s) (name s) (type s) v (valueHash s) (createdAt s) (updatedAt s)
     (expiresAt s) (metadata s) (tags s) (notes s).
Definition set_valueHash (v : string) (s : t) : t :=
  mk (id s) (name s) (type s) (value s) v (createdAt s) (updatedAt s)
     (expiresAt s) (metadata s) (tags s) (notes s).
Definition set_updatedAt (v : string) (s : t) : t :=
  mk (id s) (name s) (type s) (value s) (valueHash s) (createdAt s) v
     (expiresAt s) (metadata s) (tags s) (notes s).
Definition set_expiresAt (v : option string) (s : t) : t :=
  mk (id s) (name s) (type s) (value s) (valueHash s) (createdAt s) (updatedAt s)
     v (metadata s) (tags s) (notes s).
Definition set_metadata (v : gmap string JsValue) (s : t) : t :=
  mk (id s) (name s) (type s) (value s) (valueHash s) (createdAt s) (updatedAt s)
     (expiresAt s) v (tags s) (notes s).
Definition set_tags (v : list string) (s : t) : t :=
  mk (id s) (name s) (type s) (value s) (valueHash s) (createdAt s) (updatedAt s)
     (expiresAt s) (metadata s) v (notes s).
Definition set_notes (v : string) (s : t) : t :=
  mk (id s) (name s) (type s) (value s) (valueHash s) (createdAt s) (updatedAt s)
     (expiresAt s) (metadata s) (tags s) v.
End Secret.

(** A record without its [value]: [const { value, ...meta } = secret]. *)
Module SecretMeta.
Record t : Type := mk {
  id : string;
  name : string;
  type : string;
  valueHash : string;
  createdAt : string;
  updatedAt : string;
  expiresAt : option string;
  metadata : gmap string JsValue;
  tags : list string;
  notes : string
}.
End SecretMeta.

Definition strip_value (s : Secret.t) : SecretMeta.t :=
  SecretMeta.mk (Secret.id s) (Secret.name s) (Secret.type s)
    (Secret.valueHash s) (Secret.createdAt s) (Secret.updatedAt s)
    (Secret.expiresAt s) (Secret.metadata s) (Secret.tags s) (Secret.notes s).

(** [this.data.metadata]; the constructor sets the three fields to [null]. *)
Module Metadata.
Record t : Type := mk {
  createdAt : option string;
  updatedAt : option string;
  salt : option string
}.
Definition set_createdAt (v : option string) (m : t) : t :=
  mk v (updatedAt m) (salt m).
Definition set_updatedAt (v : option string) (m : t) : t :=
  mk (createdAt m) v (salt m).
Definition set_salt (v : option string) (m : t) : t :=
  mk (createdAt m) (updatedAt m) v.
End Metadata.

(** [this.data]. *)
Module VaultData.
Record t : Type := mk {
  version : Z;
  secrets : list Secret.t;
  metadata : Metadata.t
}.
Definition set_secrets (v : list Secret.t) (d : t) : t :=
  mk (version d) v (metadata d).
Definition set_metadata (v : Metadata.t) (d : t) : t :=
  mk (version d) (secrets d) v.
(** The constructor's value. *)
Definition initial : t := mk 1 [] (Metadata.mk None None None).
End VaultData.

(** The argument of [addSecret]; an absent property is [None]. *)
Module SecretData.
Record t : Type := mk {
  name : string;
  type : option string;
  value : string;
  expiresAt : option string;
  metadata : option (gmap string JsValue);
  tags : option (list string);
  notes : option string
}.
End SecretData.

(** The second argument of [updateSecret]; an absent (or [undefined]) property
    is [None]. [expiresAt = Some None] is an explicit [null]. *)
Module Updates.
Record t : Type := mk {
  name : option string;
  type : option string;
  value : option string;
  expiresAt : option (option string);
  metadata : option (gmap string JsValue);
  tags : option (list string);
  notes : option string
}.
(** [{}]. *)
Definition empty : t := mk None None None None None None None.
End Updates.

(* ------------------------------------------------------------------------- *)
(** ** What the two classes call and do not define *)

Class Runtime : Type := {
  (** aes-js: [AES.prototype.encrypt], one block under a key. (aes-js refuses
      a key that is not 16, 24 or 32 bytes long; the keys of a vault come from
      [pbkdf2Sync] with [keylen] 32, and the refusal is not modelled.) *)
  aes_encrypt_block : list byte -> list byte -> list byte;
  (** aes-js: [utils.utf8.toBytes] and [utils.utf8.fromBytes]. ([toBytes]
      goes through [encodeURI], which throws on a text with an unpaired
      surrogate; that throw is not modelled. [fromBytes] need not undo
      [toBytes]: see [AesJs] below.) *)
  utf8_toBytes : string -> list byte;
  utf8_fromBytes : list byte -> string;
  (** Node: [crypto.pbkdf2Sync(passphrase, salt, iterations, keylen, 'sha256')]. *)
  pbkdf2Sync : string -> list byte -> N -> nat -> list byte;
  (** Node: [crypto.createHash('sha256').update(value).digest('hex')]. *)
  sha256_hex : string -> string;
  (** [String.prototype.toLowerCase]. *)
  toLowerCase : string -> string;
  (** [new Date(s)] as milliseconds since the epoch; [None] is an invalid date. *)
  Date_parse : string -> option Z;
  (** [Date.prototype.toISOString]. *)
  toISOString : Z -> string;
  (** [JSON.stringify(data, null, 2)] and [JSON.parse] on the vault's data.
      [JSON_parse text = Some d] is a text that [JSON.parse] reads as a value
      of the shape of the vault's data, [d]; [None] is a text that
      [JSON.parse] rejects. A text of valid JSON of another shape (['{}'],
      ['null']) is neither: the code assigns what it reads to [this.data]
      whatever it is, and what it does with such data is outside the model. *)
  JSON_stringify : VaultData.t -> string;
  JSON_parse : string -> option VaultData.t
}.

(** What the process reads from outside: the bytes [crypto.randomBytes] will
    hand out, the readings [new Date()] will give, and the files by path. *)
Record World : Type := mkWorld {
  entropy : nat -> byte;
  clock : nat -> Z;
  files : gmap string string
}.

(** [crypto.randomBytes(n)]: the next [n] bytes of the entropy. *)
Definition randomBytes (n : nat) (w : World) : list byte * World :=
  (map (entropy w) (seq 0 n),
   mkWorld (fun i => entropy w (n + i)) (clock w) (files w)).

(** [new Date()]: the next reading of the clock. *)
Definition Date_now (w : World) : Z * World :=
  (clock w 0, mkWorld (entropy w) (fun i => clock w (S i)) (files w)).

(* ------------------------------------------------------------------------- *)
(** ** Counter mode, as [aesjs.ModeOfOperation.ctr] with [aesjs.Counter] *)

Module Ctr.
Section WithRuntime.
Context {R : Runtime}.

(** The counter as a big-endian number, one step up; [incr_le] works on the
    reversed bytes. *)
Fixpoint incr_le (c : list byte) : list byte :=
  match c with
  | [] => []
  | b :: r => if Byte.eqb b xff then x00 :: incr_le r else Bytes.succ b :: r
  end.

Definition increment (c : list byte) : list byte := rev (incr_le (rev c)).

(** The mode's loop over the data: [ks] is the current key-stream block and
    [i] the index of its next unused byte; at 16 the next block is produced
    from the counter, which then steps. *)
Fixpoint run (key counter ks : list byte) (i : nat) (data : list byte)
  : list byte :=
  match data with
  | [] => []
  | d :: rest =>
      if Nat.eqb i 16 then
        let ks' := aes_encrypt_block key counter in
        Bytes.xor d (nth 0 ks' x00) :: run key (increment counter) ks' 1 rest
      else
        Bytes.xor d (nth i ks x00) :: run key counter ks (S i) rest
  end.

(** A fresh mode object has no key stream left. *)
Definition encrypt (key iv data : list byte) : list byte :=
  run key iv [] 16 data.

(** [ModeOfOperationCTR.prototype.decrypt] is [encrypt]. *)
Definition decrypt (key iv data : list byte) : list byte :=
  encrypt key iv data.

End WithRuntime.
End Ctr.

(* ------------------------------------------------------------------------- *)
(** ** [class Crypto] ([src/utils/crypto.js]) *)

Module Crypto.
Section WithRuntime.
Context {R : Runtime}.

Definition keyLength : nat := 32.
Definition ivLength : nat := 16.
Definition pbkdf2Iterations : N := 100000.

(** [deriveKey(passphrase, salt = null)]. *)
Definition deriveKey (passphrase : string) (salt : option string) (w : World)
  : (list byte * string) * World :=
  let '(salt, w) :=
    if truthy salt then (default "" salt, w)
    else let '(bytes, w) := randomBytes 16 w in (Hex.encode bytes, w) in
  let saltBuffer := Hex.decode salt in
  let key := pbkdf2Sync passphrase saltBuffer pbkdf2Iterations keyLength in
  ((key, salt), w).

(** [encrypt(plaintext, key)]. (The cipher object of aes-js refuses a key
    that is not 16, 24 or 32 bytes long, and its encoder a plaintext with an
    unpaired surrogate: neither throw is modelled.) *)
Definition encrypt (plaintext : string) (key : list byte) (w : World)
  : string * World :=
  let '(iv, w) := randomBytes ivLength w in
  let encryptedBytes := Ctr.encrypt key iv (utf8_toBytes plaintext) in
  let combined := (iv ++ encryptedBytes)%list in
  (Base64.encode combined, w).

(** [decrypt(ciphertext, key)]. [new aesjs.Counter(iv)] throws unless [iv] has
    16 bytes, which is [None] here. (The refusal of a key that is not 16, 24
    or 32 bytes long is not modelled: see [legal_key].) *)
Definition decrypt (ciphertext : string) (key : list byte) : option string :=
  let combined := Base64.decode ciphertext in
  let iv := Bytes.slice_to ivLength combined in
  let encryptedBytes := Bytes.slice_from ivLength combined in
  if Nat.eqb (length iv) 16 then
    let decryptedBytes := Ctr.decrypt key iv encryptedBytes in
    Some (utf8_fromBytes decryptedBytes)
  else None.

(** [hash(value)]. *)
Definition hash (value : string) : string := sha256_hex value.

(** [s.replace(/c/g, r)] for a single character [c]. *)
Fixpoint replace_char (c : ascii) (r : string) (s : string) : string :=
  match s with
  | EmptyString => EmptyString
  | String x rest =>
      if Ascii.eqb x c then r ++ replace_char c r rest
      else String x (replace_char c r rest)
  end.

(** [generateSecret(length = 32)]. *)
Definition generateSecret (length : nat) (w : World) : string * World :=
  let '(bytes, w) := randomBytes length w in
  (replace_char "="%char ""
     (replace_char "/"%char "_"
        (replace_char "+"%char "-" (Base64.encode bytes))), w).

End WithRuntime.
End Crypto.

(* ------------------------------------------------------------------------- *)
(** ** The methods' effects: one vault object, the world, and exceptions *)

(** The conditions a method can fail with. *)
Inductive Error : Type :=
  | VaultLocked      (** 'Vault is locked. Run "secrets unlock" first.' *)
  | VaultMissing     (** 'Vault does not exist. Run "secrets init" first.' *)
  | SecretNotFound   (** 'Secret not found' *)
  | FileNotFound     (** [fs.readFileSync] on a path with no file *)
  | JsonSyntaxError  (** [JSON.parse] on a text it rejects *)
  | CipherError.     (** aes-js given no key, or a counter that is not 16 bytes *)

Inductive Outcome (A : Type) : Type :=
  | Return (a : A)
  | Throw (e : Error).
Arguments Return {A} a.
Arguments Throw {A} e.

(** The fields of a [SecretsVault] object. *)
Record SecretsVault : Type := mkVault {
  vaultPath : string;
  data : VaultData.t;
  encryptionKey : option (list byte);
  isUnlocked : bool
}.

(** [new SecretsVault(vaultPath)]. *)
Definition constructor (path : string) : SecretsVault :=
  mkVault path VaultData.initial None false.

Record State : Type := mkState {
  this : SecretsVault;
  world : World
}.

(** A method body: it runs from a state and ends, by [return] or [throw], in
    the state it has reached (an exception undoes nothing). *)
Definition M (A : Type) : Type := State -> Outcome A * State.

Definition ret {A} (a : A) : M A := fun st => (Return a, st).
Definition throw {A} (e : Error) : M A := fun st => (Throw e, st).
Definition bind {A B} (c : M A) (k : A -> M B) : M B :=
  fun st =>
    match c st with
    | (Return a, st') => k a st'
    | (Throw e, st') => (Throw e, st')
    end.

Declare Scope vault_scope.
Delimit Scope vault_scope with vault.
Notation "x <- c ;; k" := (bind c (fun x => k))
  (at level 100, c at next level, right associativity) : vault_scope.
Notation "c ;; k" := (bind c (fun _ => k))
  (at level 100, right associativity) : vault_scope.

(** Reading a field of [this]. *)
Definition read {A} (f : SecretsVault -> A) : M A :=
  fun st => (Return (f (this st)), st).

(** [this.data = d], [this.encryptionKey = k], [this.isUnlocked = b]. *)
Definition assign_data (d : VaultData.t) : M unit :=
  fun st =>
    let v := this st in
    (Return tt,
     mkState (mkVault (vaultPath v) d (encryptionKey v) (isUnlocked v)) (world st)).
Definition assign_encryptionKey (k : option (list byte)) : M unit :=
  fun st =>
    let v := this st in
    (Return tt,
     mkState (mkVault (vaultPath v) (data v) k (isUnlocked v)) (world st)).
Definition assign_isUnlocked (b : bool) : M unit :=
  fun st =>
    let v := this st in
    (Return tt,
     mkState (mkVault (vaultPath v) (data v) (encryptionKey v) b) (world st)).

(** A write through [this.data]: [this.data.x = ...] changes the object that
    [this.data] refers to. *)
Definition modify_data (f : VaultData.t -> VaultData.t) : M unit :=
  (d <- read data ;; assign_data (f d))%vault.

(** [this.data.metadata.x = v]. *)
Definition modify_metadata (f : Metadata.t -> Metadata.t) : M unit :=
  modify_data (fun d => VaultData.set_metadata (f (VaultData.metadata d)) d).

(** A write through [secret = this.data.secrets[index]]: the record is changed
    where it stands in the array. *)
Definition modify_secret (index : nat) (f : Secret.t -> Secret.t) : M unit :=
  modify_data (fun d => VaultData.set_secrets (alter f index (VaultData.secrets d)) d).

(** A call that reads the entropy or the clock. *)
Definition outside {A} (f : World -> A * World) : M A :=
  fun st => (Return (fst (f (world st))), mkState (this st) (snd (f (world st)))).

(** [fs.existsSync], [fs.readFileSync(path, 'utf8')], [fs.writeFileSync]. The
    directory of the path is made beforehand when it is missing, so a write
    does not fail for want of it; directories are not modelled further. *)
Definition existsSync (path : string) : M bool :=
  fun st => (Return (bool_decide (is_Some (files (world st) !! path))), st).
Definition readFileSync (path : string) : M string :=
  fun st =>
    match files (world st) !! path with
    | Some raw => (Return raw, st)
    | None => (Throw FileNotFound, st)
    end.
Definition writeFileSync (path content : string) : M unit :=
  fun st =>
    let w := world st in
    (Return tt,
     mkState (this st) (mkWorld (entropy w) (clock w) (<[path := content]> (files w)))).

(** [if (c) body]. *)
Definition when (c : bool) (body : M unit) : M unit :=
  if c then body else ret tt.

(** [Array.prototype.findIndex]; [None] is [-1]. *)
Fixpoint findIndex {A} (f : A -> bool) (l : list A) : option nat :=
  match l with
  | [] => None
  | x :: r => if f x then Some 0 else S <$> findIndex f r
  end.

(** [String.prototype.includes]: [q] occurs in [s]. *)
Fixpoint includes (s q : string) : bool :=
  String.prefix q s ||
  match s with
  | EmptyString => false
  | String _ r => includes r q
  end.

(** What [addSecret] returns. *)
Module Added.
Record t : Type := mk {
  id : string;
  name : string;
  type : string;
  value : string;
  expiresAt : option string
}.
End Added.

(* ------------------------------------------------------------------------- *)
(** ** [class SecretsVault] ([src/storage/vault.js])

    A method that returns [{ success: true, message }] returns its message.
    [this.data] has the shape of the vault's data: the constructor gives it
    that shape and every method but [load] and [importVault] keeps it; those
    two keep it when the text they read is the text of a vault's data (see
    [JSON_parse]). A method here fails where the code fails on such data,
    with a file system that does what it is asked. *)

Module Vault.
Section WithRuntime.
Context {R : Runtime}.
Local Open Scope vault_scope.

(** [new Date().toISOString()]. *)
Definition now_iso : M string :=
  t <- outside Date_now ;; ret (toISOString t).

(** [crypto.encrypt(plaintext, this.encryptionKey)]: the IV is drawn before
    the cipher object is made, which is where a missing key is refused.
    (With a key, the call throws only on a plaintext with an unpaired
    surrogate, which is not modelled: see [reads_back].) *)
Definition encrypt_value (plaintext : string) : M string :=
  k <- read encryptionKey ;;
  match k with
  | Some key => outside (Crypto.encrypt plaintext key)
  | None => outside (randomBytes Crypto.ivLength) ;; throw CipherError
  end.

(** [crypto.decrypt(ciphertext, this.encryptionKey)]. *)
Definition decrypt_value (ciphertext : string) : M string :=
  k <- read encryptionKey ;;
  match k with
  | Some key =>
      match Crypto.decrypt ciphertext key with
      | Some plaintext => ret plaintext
      | None => throw CipherError
      end
  | None => throw CipherError
  end.

Definition save : M unit :=
  path <- read vaultPath ;;
  d <- read data ;;
  writeFileSync path (JSON_stringify d).

Definition load : M VaultData.t :=
  path <- read vaultPath ;;
  raw <- readFileSync path ;;
  match JSON_parse raw with
  | Some d => assign_data d ;; ret d
  | None => throw JsonSyntaxError
  end.

Definition init (passphrase : string) : M string :=
  ks <- outside (Crypto.deriveKey passphrase None) ;;
  let '(key, salt) := ks in
  assign_encryptionKey (Some key) ;;
  created <- now_iso ;;
  modify_metadata (Metadata.set_createdAt (Some created)) ;;
  updated <- now_iso ;;
  modify_metadata (Metadata.set_updatedAt (Some updated)) ;;
  modify_metadata (Metadata.set_salt (Some salt)) ;;
  save ;;
  assign_isUnlocked true ;;
  ret "Secrets vault initialized successfully".

Definition unlock (passphrase : string) : M string :=
  path <- read vaultPath ;;
  present <- existsSync path ;;
  if negb present then throw VaultMissing
  else
    load ;;
    d <- read data ;;
    ks <- outside (Crypto.deriveKey passphrase (Metadata.salt (VaultData.metadata d))) ;;
    assign_encryptionKey (Some (fst ks)) ;;
    assign_isUnlocked true ;;
    ret "Vault unlocked successfully".

Definition lock : M string :=
  assign_encryptionKey None ;;
  assign_isUnlocked false ;;
  ret "Vault locked".

Definition exists_ : M bool :=
  path <- read vaultPath ;; existsSync path.

Definition isVaultUnlocked : M bool := read isUnlocked.

Definition _ensureUnlocked : M unit :=
  unlocked <- read isUnlocked ;;
  if negb unlocked then throw VaultLocked else ret tt.

Definition addSecret (secretData : SecretData.t) : M Added.t :=
  _ensureUnlocked ;;
  token <- outside (Crypto.generateSecret 16) ;;
  let id :=
    String.substring 0 16
      (Crypto.replace_char "_"%char "" (Crypto.replace_char "-"%char "" token)) in
  ciphertext <- encrypt_value (SecretData.value secretData) ;;
  created <- now_iso ;;
  updated <- now_iso ;;
  let secret :=
    Secret.mk id
      (SecretData.name secretData)
      (or_default (SecretData.type secretData) "generic")
      ciphertext
      (Crypto.hash (SecretData.value secretData))
      created
      updated
      (or_null (SecretData.expiresAt secretData))
      (default ∅ (SecretData.metadata secretData))
      (default [] (SecretData.tags secretData))
      (or_default (SecretData.notes secretData) "") in
  modify_data (fun d => VaultData.set_secrets (VaultData.secrets d ++ [secret]) d) ;;
  stamp <- now_iso ;;
  modify_metadata (Metadata.set_updatedAt (Some stamp)) ;;
  save ;;
  ret (Added.mk (Secret.id secret) (Secret.name secret) (Secret.type secret)
         (SecretData.value secretData) (Secret.expiresAt secret)).

(** [s => s.id === id]. *)
Definition has_id (id : string) (s : Secret.t) : bool :=
  String.eqb (Secret.id s) id.

(** The record [getSecret] returns has the fields of a stored one, with the
    plaintext as its [value]. *)
Definition getSecret (id : string) : M Secret.t :=
  _ensureUnlocked ;;
  d <- read data ;;
  match List.find (has_id id) (VaultData.secrets d) with
  | None => throw SecretNotFound
  | Some secret =>
      plaintext <- decrypt_value (Secret.value secret) ;;
      ret (Secret.set_value plaintext secret)
  end.

Definition getSecretMeta (id : string) : M SecretMeta.t :=
  _ensureUnlocked ;;
  d <- read data ;;
  match List.find (has_id id) (VaultData.secrets d) with
  | None => throw SecretNotFound
  | Some secret => ret (strip_value secret)
  end.

Definition listSecrets : M (list SecretMeta.t) :=
  _ensureUnlocked ;;
  d <- read data ;;
  ret (map strip_value (VaultData.secrets d)).

Definition updateSecret (id : string) (updates : Updates.t) : M string :=
  _ensureUnlocked ;;
  d <- read data ;;
  match findIndex (has_id id) (VaultData.secrets d) with
  | None => throw SecretNotFound
  | Some index =>
      when (truthy (Updates.name updates))
        (modify_secret index (Secret.set_name (default "" (Updates.name updates)))) ;;
      when (truthy (Updates.type updates))
        (modify_secret index (Secret.set_type (default "" (Updates.type updates)))) ;;
      when (truthy (Updates.value updates))
        (let value := default "" (Updates.value updates) in
         ciphertext <- encrypt_value value ;;
         modify_secret index (Secret.set_value ciphertext) ;;
         modify_secret index (Secret.set_valueHash (Crypto.hash value))) ;;
      match Updates.expiresAt updates with
      | Some e => modify_secret index (Secret.set_expiresAt e)
      | None => ret tt
      end ;;
      match Updates.metadata updates with
      | Some m =>
          modify_secret index (fun s => Secret.set_metadata (m ∪ Secret.metadata s) s)
      | None => ret tt
      end ;;
      match Updates.tags updates with
      | Some t => modify_secret index (Secret.set_tags t)
      | None => ret tt
      end ;;
      match Updates.notes updates with
      | Some n => modify_secret index (Secret.set_notes n)
      | None => ret tt
      end ;;
      stamp <- now_iso ;;
      modify_secret index (Secret.set_updatedAt stamp) ;;
      stamp' <- now_iso ;;
      modify_metadata (Metadata.set_updatedAt (Some stamp')) ;;
      save ;;
      ret "Secret updated successfully"
  end.

Definition deleteSecret (id : string) : M string :=
  _ensureUnlocked ;;
  d <- read data ;;
  match findIndex (has_id id) (VaultData.secrets d) with
  | None => throw SecretNotFound
  | Some index =>
      modify_data (fun d => VaultData.set_secrets (delete index (VaultData.secrets d)) d) ;;
      stamp <- now_iso ;;
      modify_metadata (Metadata.set_updatedAt (Some stamp)) ;;
      save ;;
      ret "Secret deleted successfully"
  end.

(** The filter of [searchSecrets], for the lowered query [q]. *)
Definition matches (q : string) (secret : Secret.t) : bool :=
  let meta := strip_value secret in
  includes (toLowerCase (SecretMeta.name meta)) q
  || includes (toLowerCase (SecretMeta.type meta)) q
  || existsb (fun tag => includes (toLowerCase tag) q) (SecretMeta.tags meta).

Definition searchSecrets (query : string) : M (list SecretMeta.t) :=
  _ensureUnlocked ;;
  let q := toLowerCase query in
  d <- read data ;;
  ret (map strip_value (List.filter (matches q) (VaultData.secrets d))).

Definition getSecretsByType (type : string) : M (list SecretMeta.t) :=
  _ensureUnlocked ;;
  d <- read data ;;
  ret (map strip_value
         (List.filter (fun s => String.eqb (Secret.type s) type) (VaultData.secrets d))).

(** The filter of [getExpiredSecrets]; a comparison with an invalid date is
    false. *)
Definition expired (now : Z) (secret : Secret.t) : bool :=
  if negb (truthy (Secret.expiresAt secret)) then false
  else
    match Date_parse (default "" (Secret.expiresAt secret)) with
    | Some t => (t <=? now)%Z
    | None => false
    end.

Definition getExpiredSecrets : M (list SecretMeta.t) :=
  _ensureUnlocked ;;
  now <- outside Date_now ;;
  d <- read data ;;
  ret (map strip_value (List.filter (expired now) (VaultData.secrets d))).

Definition exportVault : M string :=
  _ensureUnlocked ;;
  d <- read data ;;
  ret (JSON_stringify d).

Definition importVault (blob : string) : M string :=
  _ensureUnlocked ;;
  match JSON_parse blob with
  | None => throw JsonSyntaxError
  | Some imported =>
      assign_data imported ;;
      save ;;
      ret "Secrets imported successfully"
  end.

End WithRuntime.
End Vault.

(* ------------------------------------------------------------------------- *)
(** ** Notions the properties are stated with *)

(** The parts of a state the properties speak of. *)
Definition secrets_of (st : State) : list Secret.t :=
  VaultData.secrets (data (this st)).
Definition metadata_of (st : State) : Metadata.t :=
  VaultData.metadata (data (this st)).
Definition salt_of (st : State) : option string :=
  Metadata.salt (metadata_of st).
(** The salt of a vault's data. *)
Definition salt (d : VaultData.t) : option string :=
  Metadata.salt (VaultData.metadata d).
(** The contents of the backing file, if there is one. *)
Definition persisted (st : State) : option string :=
  files (world st) !! vaultPath (this st).

(** [s] is the first record with id [id], and it stands at index [i]: the
    record that [find] and [findIndex] select. *)
Definition first_with_id (id : string) (l : list Secret.t) (i : nat)
    (s : Secret.t) : Prop :=
  l !! i = Some s /\ Secret.id s = id /\
  forall j s', j < i -> l !! j = Some s' -> Secret.id s' <> id.

(** A computation leaves an observation of the vault's data as it was,
    however it ends. *)
Definition preserves {X A : Type} (obs : VaultData.t -> X) (c : M A) : Prop :=
  forall st : State, obs (data (this (snd (c st)))) = obs (data (this st)).

Section Notions.
Context {R : Runtime}.

(** [q] occurs in [s] when case is ignored: the lowered [q] is a substring of
    the lowered [s]. *)
Definition contains_ci (q s : string) : Prop :=
  exists pre post : string, toLowerCase s = pre ++ toLowerCase q ++ post.

(** The record's name, type or some tag contains the query. *)
Definition Matches (query : string) (s : Secret.t) : Prop :=
  contains_ci query (Secret.name s) \/
  contains_ci query (Secret.type s) \/
  Exists (contains_ci query) (Secret.tags s).

(** The record's [expiresAt] is set, and is a time not after [now]. *)
Definition Expired (now : Z) (s : Secret.t) : Prop :=
  exists (e : string) (t : Z),
    Secret.expiresAt s = Some e /\ Date_parse e = Some t /\ (t <= now)%Z.

End Notions.

(* ------------------------------------------------------------------------- *)
(** ** A small runtime to compute examples with

    It stands in for Node and aes-js where an example needs concrete values.
    It is not their behaviour: the block cipher is not AES, the digest is not
    SHA-256 and the key derivation is not PBKDF2; text is ASCII, a time is
    written as its number of milliseconds, and [JSON_parse] reads just the
    texts that [JSON_stringify] writes for the data listed in [known]. On
    those it gives what [JSON.parse] gives: [JSON.stringify] leaves out a
    property whose value is [undefined] and writes [NaN] as [null], so that
    is how they are read back. *)

Module Sample.

Definition bytes_of_string (s : string) : list byte :=
  map byte_of_ascii (list_ascii_of_string s).
Definition string_of_bytes (b : list byte) : string :=
  string_of_list_ascii (map ascii_of_byte b).

Definition block (key blk : list byte) : list byte :=
  map (fun i => Bytes.xor (nth i key x00) (nth i blk x00)) (seq 0 16).

Definition stretch (passphrase : string) (salt : list byte) (_ : N) (keylen : nat)
  : list byte :=
  let material := (bytes_of_string passphrase ++ salt)%list in
  map (fun i => nth i material x00) (seq 0 keylen).

Definition digest (value : string) : string :=
  Hex.encode (bytes_of_string value).

Definition lower_char (c : ascii) : ascii :=
  let n := N_of_ascii c in
  if ((65 <=? n) && (n <=? 90))%N then ascii_of_N (n + 32) else c.

Fixpoint lower (s : string) : string :=
  match s with
  | EmptyString => EmptyString
  | String c r => String (lower_char c) (lower r)
  end.

Definition millis (s : string) : option Z :=
  if String.eqb s "" then None
  else Z.of_int <$> DecimalString.NilZero.int_of_string s.

Definition iso (t : Z) : string :=
  DecimalString.NilZero.string_of_int (Z.to_int t).

(** A rendering of the vault's data in the shape of the backing file. *)
Definition quote : string := String "034"%char "".
Definition quoted (s : string) : string := quote ++ s ++ quote.
Definition nullable (o : option string) : string :=
  match o with
  | Some s => quoted s
  | None => "null"
  end.
Definition object (fields : list (string * string)) : string :=
  "{" ++ String.concat "," (map (fun kv => quoted (fst kv) ++ ":" ++ snd kv) fields)
      ++ "}".
Definition array (items : list string) : string :=
  "[" ++ String.concat "," items ++ "]".
(** The text of a property's value; a property whose value is [undefined]
    has none and is left out of its object. *)
Definition js_value (v : JsValue) : option string :=
  match v with
  | JsUndefined => None
  | JsNull => Some "null"
  | JsNaN => Some "null"
  | JsBool true => Some "true"
  | JsBool false => Some "false"
  | JsNumber z => Some (iso z)
  | JsString s => Some (quoted s)
  end.
Definition secret (s : Secret.t) : string :=
  object
    [("id", quoted (Secret.id s));
     ("name", quoted (Secret.name s));
     ("type", quoted (Secret.type s));
     ("value", quoted (Secret.value s));
     ("valueHash", quoted (Secret.valueHash s));
     ("createdAt", quoted (Secret.createdAt s));
     ("updatedAt", quoted (Secret.updatedAt s));
     ("expiresAt", nullable (Secret.expiresAt s));
     ("metadata",
      object (omap (fun kv => pair (fst kv) <$> js_value (snd kv))
                (map_to_list (Secret.metadata s))));
     ("tags", array (map quoted (Secret.tags s)));
     ("notes", quoted (Secret.notes s))].
Definition stringify (d : VaultData.t) : string :=
  object
    [("version", iso (VaultData.version d));
     ("secrets", array (map secret (VaultData.secrets d)));
     ("metadata",
      object
        [("createdAt", nullable (Metadata.createdAt (VaultData.metadata d)));
         ("updatedAt", nullable (Metadata.updatedAt (VaultData.metadata d)));
         ("salt", nullable (Metadata.salt (VaultData.metadata d)))])].

(** What [JSON.parse] reads from the text of a data: the data, with the
    metadata values as their text gives them. *)
Definition read_value (v : JsValue) : option JsValue :=
  match v with
  | JsUndefined => None
  | JsNaN => Some JsNull
  | _ => Some v
  end.
Definition read_back (d : VaultData.t) : VaultData.t :=
  VaultData.set_secrets
    (map (fun s => Secret.set_metadata (omap read_value (Secret.metadata s)) s)
       (VaultData.secrets d))
    d.

Definition parse (known : list VaultData.t) (text : string) : option VaultData.t :=
  read_back <$> List.find (fun d => String.eqb (stringify d) text) known.

Definition runtime (known : list VaultData.t) : Runtime :=
  {| aes_encrypt_block := block;
     utf8_toBytes := bytes_of_string;
     utf8_fromBytes := string_of_bytes;
     pbkdf2Sync := stretch;
     sha256_hex := digest;
     toLowerCase := lower;
     Date_parse := millis;
     toISOString := iso;
     JSON_stringify := stringify;
     JSON_parse := parse known |}.

(** Entropy that counts up from [start], a clock that starts at [t0] and
    moves a millisecond per reading, and no files. *)
Definition counting (start : nat) (i : nat) : byte :=
  default x00 (Byte.of_N (N.of_nat (start + i) mod 256)).
Definition world (start : nat) (t0 : Z) : World :=
  mkWorld (counting start) (fun i => (t0 + Z.of_nat i)%Z) ∅.

(** Entropy that repeats with period 16: two successive draws of 16 bytes are
    the same bytes. *)
Definition repeating (i : nat) : byte :=
  default x00 (Byte.of_N (N.of_nat (i mod 16))).

Definition path : string := ".secrets/vault.json".

(** A fresh vault object in such a world. *)
Definition fresh (start : nat) (t0 : Z) : State :=
  mkState (constructor path) (world start t0).

End Sample.

(* ------------------------------------------------------------------------- *)
(** ** The text codec of aes-js

    [aesjs.utils.utf8] is code of the aes-js package, not of this
    repository, and a parameter of [Runtime]. This is what its two functions
    do (aes-js 3.1, [index.js], [convertUtf8]), for the property that hangs
    on it. A text is held as the bytes of its UTF-8 form, as a string
    literal of this file holds it. *)

Module AesJs.

(** [toBytes(text)]: [encodeURI(text)] writes the UTF-8 bytes of the text,
    each as itself or as [%] and two hexadecimal digits, and the loop reads
    them back one by one. For a well-formed text that is its UTF-8 bytes. *)
Definition toBytes (text : string) : list byte :=
  map byte_of_ascii (list_ascii_of_string text).

(** [((c & 0x1f) << 6) | (b1 & 0x3f)]. *)
Definition two (c b1 : N) : N :=
  N.lor (N.shiftl (N.land c 31) 6) (N.land b1 63).

(** [((c & 0x0f) << 12) | ((b1 & 0x3f) << 6) | (b2 & 0x3f)]. *)
Definition three (c b1 b2 : N) : N :=
  N.lor (N.lor (N.shiftl (N.land c 15) 12) (N.shiftl (N.land b1 63) 6))
    (N.land b2 63).

(** The code units that the loop of [fromBytes] pushes: one for a byte below
    128, one for the two bytes at a byte from 192 to 223, and one for the
    three bytes at any other byte; there is no case for the lead byte of a
    four-byte sequence. A byte past the end is [undefined], and
    [undefined & 0x3f] is 0. *)
Fixpoint units (bytes : list byte) : list N :=
  match bytes with
  | [] => []
  | b0 :: rest =>
      let c := Byte.to_N b0 in
      if (c <? 128)%N then c :: units rest
      else if ((191 <? c) && (c <? 224))%N then
        match rest with
        | [] => [two c 0]
        | b1 :: rest => two c (Byte.to_N b1) :: units rest
        end
      else
        match rest with
        | [] => [three c 0 0]
        | [b1] => [three c (Byte.to_N b1) 0]
        | b1 :: b2 :: rest =>
            three c (Byte.to_N b1) (Byte.to_N b2) :: units rest
        end
  end.

(** [String.fromCharCode(u)] for a code unit, as text. *)
Definition fromCharCode (u : N) : string :=
  if (u <? 128)%N then String (ascii_of_N u) ""
  else if (u <? 2048)%N then
    String (ascii_of_N (192 + u / 64)) (String (ascii_of_N (128 + u mod 64)) "")
  else
    String (ascii_of_N (224 + u / 4096))
      (String (ascii_of_N (128 + (u / 64) mod 64))
         (String (ascii_of_N (128 + u mod 64)) "")).

(** [fromBytes(bytes)]. *)
Definition fromBytes (bytes : list byte) : string :=
  String.concat "" (map fromCharCode (units bytes)).

(** The sample runtime, with this codec. *)
Definition runtime : Runtime :=
  {| aes_encrypt_block := Sample.block;
     utf8_toBytes := toBytes;
     utf8_fromBytes := fromBytes;
     pbkdf2Sync := Sample.stretch;
     sha256_hex := Sample.digest;
     toLowerCase := Sample.lower;
     Date_parse := Sample.millis;
     toISOString := Sample.iso;
     JSON_stringify := Sample.stringify;
     JSON_parse := Sample.parse [] |}.

End AesJs.

(** U+1F600, a character outside the basic plane: the four bytes of its
    UTF-8 form. *)
Definition grinning_face : string :=
  String "240" (String "159" (String "152" (String "128" ""))).

(** U+07D8 and U+0000: two bytes and one. *)
Definition garbled_face : string :=
  String "223" (String "152" (String "000" "")).

(* ------------------------------------------------------------------------- *)
(** ** The effect of [updateSecret], in one piece *)

Section UpdateEffect.
Context {R : Runtime}.

(** The record after the assignments of [updateSecret], given the ciphertext
    of the new value (used when there is one) and the time stamp. *)
Definition assigned (u : Updates.t) (ciphertext stamp : string) (s : Secret.t)
  : Secret.t :=
  Secret.set_updatedAt stamp
    ((match Updates.notes u with Some n => Secret.set_notes n | None => fun s => s end)
    ((match Updates.tags u with Some t => Secret.set_tags t | None => fun s => s end)
    ((match Updates.metadata u with
      | Some m => fun s => Secret.set_metadata (m ∪ Secret.metadata s) s
      | None => fun s => s
      end)
    ((match Updates.expiresAt u with
      | Some e => Secret.set_expiresAt e
      | None => fun s => s
      end)
    ((if truthy (Updates.value u)
      then fun s =>
        Secret.set_valueHash (Crypto.hash (default "" (Updates.value u)))
          (Secret.set_value ciphertext s)
      else fun s => s)
    ((if truthy (Updates.type u)
      then Secret.set_type (default "" (Updates.type u)) else fun s => s)
    ((if truthy (Updates.name u)
      then Secret.set_name (default "" (Updates.name u)) else fun s => s)
     s))))))).

(** The state [updateSecret] ends in when the id is found: the record at the
    index is rewritten, the vault's [updatedAt] is set, the file is written;
    the entropy has lost an IV if a value was encrypted, and the clock two
    readings. *)
Definition after_update (u : Updates.t) (i : nat) (st : State) : State :=
  let v := this st in
  let w := world st in
  let key := default [] (encryptionKey v) in
  let enc := Crypto.encrypt (default "" (Updates.value u)) key w in
  let d :=
    VaultData.mk (VaultData.version (data v))
      (alter (assigned u (fst enc) (toISOString (clock w 0))) i
         (VaultData.secrets (data v)))
      (Metadata.set_updatedAt (Some (toISOString (clock w 1)))
         (VaultData.metadata (data v))) in
  mkState (mkVault (vaultPath v) d (encryptionKey v) (isUnlocked v))
    (mkWorld
       (if truthy (Updates.value u) then entropy (snd enc) else entropy w)
       (fun n => clock w (S (S n)))
       (<[vaultPath v := JSON_stringify d]> (files w))).

End UpdateEffect.

(* ------------------------------------------------------------------------- *)
(** ** Sample vaults, computed with the sample runtime *)

(** A vault that was initialised, given a secret, and then locked. *)
Definition sample_secret : SecretData.t :=
  SecretData.mk "db" (Some "password") "s3cr3t" None None (Some ["Prod"]) None.

Definition sample_unlocked : State :=
  snd (@Vault.addSecret (Sample.runtime []) sample_secret
         (snd (@Vault.init (Sample.runtime []) "pw1" (Sample.fresh 0 1000)))).

Definition sample_locked : State :=
  snd (@Vault.lock sample_unlocked).

(** The sample vault's one record. *)
Definition sample_id : string := "EBESExQVFhcYGRob".

Definition sample_record : Secret.t :=
  {| Secret.id := sample_id;
     Secret.name := "db";
     Secret.type := "password";
     Secret.value := "ICEiIyQlJicoKSorLC0uLyNlcFEWUw==";
     Secret.valueHash := "733363723374";
     Secret.createdAt := "1002";
     Secret.updatedAt := "1003";
     Secret.expiresAt := None;
     Secret.metadata := ∅;
     Secret.tags := ["Prod"];
     Secret.notes := "" |}.

(** The sample vault with a second record, which expired at time 500. *)
Definition old_secret : SecretData.t :=
  SecretData.mk "old" None "x" (Some "500") None None None.

Definition sample_with_expired : State :=
  snd (@Vault.addSecret (Sample.runtime []) old_secret sample_unlocked).


(** [{ name: 'database', value: 'newval', notes: '' }]. *)
Definition sample_updates : Updates.t :=
  Updates.mk (Some "database") None (Some "newval") None None None (Some "").

(** [{ name: 'database', expiresAt: null, tags: [] }]. *)
Definition sample_rename : Updates.t :=
  Updates.mk (Some "database") None None (Some None) None (Some []) None.

(** Data of another vault, with another salt, and the text of its file. *)
Definition foreign_data : VaultData.t :=
  VaultData.mk 1 []
    (Metadata.mk (Some "2000") (Some "2000")
       (Some "ffffffffffffffffffffffffffffffff")).

Definition foreign_blob : string := Sample.stringify foreign_data.



(** A world whose entropy hands out the same 16 bytes twice in a row. *)
Definition repeating_world : World :=
  mkWorld Sample.repeating (fun _ => 0%Z) ∅.

Definition sample_key : list byte :=
  Sample.stretch "pw1" (Hex.decode "00ff") Crypto.pbkdf2Iterations Crypto.keyLength.

(* ------------------------------------------------------------------------- *)
(** ** Notions for the further properties *)

(** A letter or a digit; a character of the URL-safe alphabet. *)
Definition is_alnum (c : ascii) : bool :=
  let n := N_of_ascii c in
  ((48 <=? n) && (n <=? 57) || (65 <=? n) && (n <=? 90)
   || (97 <=? n) && (n <=? 122))%N.
Definition is_url_safe (c : ascii) : bool :=
  is_alnum c || Ascii.eqb c "-" || Ascii.eqb c "_".

(** Every character of the text passes the test. *)
Fixpoint every (p : ascii -> bool) (s : string) : bool :=
  match s with
  | EmptyString => true
  | String c r => p c && every p r
  end.

(** The three replacements of [generateSecret], and the id that [addSecret]
    cuts from a token. *)
Definition url_unpadded (s : string) : string :=
  Crypto.replace_char "="%char ""
    (Crypto.replace_char "/"%char "_" (Crypto.replace_char "+"%char "-" s)).
Definition id_of_token (token : string) : string :=
  String.substring 0 16
    (Crypto.replace_char "_"%char "" (Crypto.replace_char "-"%char "" token)).

(** The token with its [-] and [_] removed, as [addSecret] does before it
    cuts the id. *)
Definition strip_dashes (token : string) : string :=
  Crypto.replace_char "_"%char "" (Crypto.replace_char "-"%char "" token).


Section MethodEffects.
Context {R : Runtime}.

(** The record [addSecret] builds: the id is cut from a token of 16 random
    bytes, the value is encrypted with the IV drawn next, and the two time
    stamps are the first two readings of the clock. *)
Definition new_secret (sd : SecretData.t) (st : State) : Secret.t :=
  let w := world st in
  let token := Crypto.generateSecret 16 w in
  let key := default [] (encryptionKey (this st)) in
  let enc := Crypto.encrypt (SecretData.value sd) key (snd token) in
  {| Secret.id := id_of_token (fst token);
     Secret.name := SecretData.name sd;
     Secret.type := or_default (SecretData.type sd) "generic";
     Secret.value := fst enc;
     Secret.valueHash := Crypto.hash (SecretData.value sd);
     Secret.createdAt := toISOString (clock w 0);
     Secret.updatedAt := toISOString (clock w 1);
     Secret.expiresAt := or_null (SecretData.expiresAt sd);
     Secret.metadata := default ∅ (SecretData.metadata sd);
     Secret.tags := default [] (SecretData.tags sd);
     Secret.notes := or_default (SecretData.notes sd) "" |}.

(** The state [addSecret] ends in on an unlocked vault that holds a key. *)
Definition after_add (sd : SecretData.t) (st : State) : State :=
  let v := this st in
  let w := world st in
  let key := default [] (encryptionKey v) in
  let enc :=
    Crypto.encrypt (SecretData.value sd) key (snd (Crypto.generateSecret 16 w)) in
  let d :=
    VaultData.mk (VaultData.version (data v))
      (VaultData.secrets (data v) ++ [new_secret sd st])
      (Metadata.set_updatedAt (Some (toISOString (clock w 2)))
         (VaultData.metadata (data v))) in
  mkState (mkVault (vaultPath v) d (encryptionKey v) (isUnlocked v))
    (mkWorld (entropy (snd enc)) (fun n => clock w (S (S (S n))))
       (<[vaultPath v := JSON_stringify d]> (files w))).

(** The state [deleteSecret] ends in when the id is found at [index]. *)
Definition after_delete (index : nat) (st : State) : State :=
  let v := this st in
  let w := world st in
  let d :=
    VaultData.mk (VaultData.version (data v))
      (delete index (VaultData.secrets (data v)))
      (Metadata.set_updatedAt (Some (toISOString (clock w 0)))
         (VaultData.metadata (data v))) in
  mkState (mkVault (vaultPath v) d (encryptionKey v) (isUnlocked v))
    (mkWorld (entropy w) (fun n => clock w (S n))
       (<[vaultPath v := JSON_stringify d]> (files w))).

(** The state [init] ends in. *)
Definition after_init (passphrase : string) (st : State) : State :=
  let v := this st in
  let w := world st in
  let derived := Crypto.deriveKey passphrase None w in
  let d :=
    VaultData.mk (VaultData.version (data v)) (VaultData.secrets (data v))
      (Metadata.mk (Some (toISOString (clock w 0)))
         (Some (toISOString (clock w 1)))
         (Some (snd (fst derived)))) in
  mkState (mkVault (vaultPath v) d (Some (fst (fst derived))) true)
    (mkWorld (entropy (snd derived)) (fun n => clock w (S (S n)))
       (<[vaultPath v := JSON_stringify d]> (files w))).

(** The state a successful [unlock] ends in, for the data read from the
    file. *)
Definition after_unlock (passphrase : string) (stored : VaultData.t) (st : State)
  : State :=
  let derived := Crypto.deriveKey passphrase (salt stored) (world st) in
  mkState (mkVault (vaultPath (this st)) stored (Some (fst (fst derived))) true)
    (snd derived).

End MethodEffects.

(* ------------------------------------------------------------------------- *)
(** ** What a session keeps true *)

Section Invariants.
Context {R : Runtime}.

(** A key of a size that aes-js accepts: 16, 24 or 32 bytes. *)
Definition legal_key (key : list byte) : Prop :=
  length key = 16 \/ length key = 24 \/ length key = 32.

(** The backing file holds the text of the data that the object holds. *)
Definition saved (st : State) : Prop :=
  persisted st = Some (JSON_stringify (data (this st))).

(** The key that [deriveKey] gives for a passphrase and a stored salt. *)
Definition key_of (passphrase salt : string) : list byte :=
  pbkdf2Sync passphrase (Hex.decode salt) Crypto.pbkdf2Iterations Crypto.keyLength.

(** The vault is unlocked and saved, and its key is the one that the
    passphrase gives with the salt it stores. *)
Definition opened (passphrase : string) (st : State) : Prop :=
  isUnlocked (this st) = true /\ saved st /\
  exists s : string,
    salt_of st = Some s /\ s <> "" /\
    encryptionKey (this st) = Some (key_of passphrase s).

(** The stored hash of a record is the hash of the text that its stored value
    decrypts to under the key. *)
Definition consistent (key : list byte) (s : Secret.t) : Prop :=
  exists plaintext : string,
    Crypto.decrypt (Secret.value s) key = Some plaintext /\
    Secret.valueHash s = Crypto.hash plaintext.

(** The vault is unlocked with the key, and every record is consistent. *)
Definition sound_with (key : list byte) (st : State) : Prop :=
  isUnlocked (this st) = true /\ encryptionKey (this st) = Some key /\
  Forall (consistent key) (secrets_of st).

(** The calls of a session on the data, import apart. *)
Inductive DataCall : Type :=
  | AddSecret (secretData : SecretData.t)
  | GetSecret (id : string)
  | GetSecretMeta (id : string)
  | ListSecrets
  | UpdateSecret (id : string) (updates : Updates.t)
  | DeleteSecret (id : string)
  | SearchSecrets (query : string)
  | GetSecretsByType (type : string)
  | GetExpiredSecrets
  | ExportVault.

(** The state a call ends in, whether it returns or throws. *)
Definition perform (c : DataCall) (st : State) : State :=
  match c with
  | AddSecret secretData => snd (Vault.addSecret secretData st)
  | GetSecret id => snd (Vault.getSecret id st)
  | GetSecretMeta id => snd (Vault.getSecretMeta id st)
  | ListSecrets => snd (Vault.listSecrets st)
  | UpdateSecret id updates => snd (Vault.updateSecret id updates st)
  | DeleteSecret id => snd (Vault.deleteSecret id st)
  | SearchSecrets query => snd (Vault.searchSecrets query st)
  | GetSecretsByType type => snd (Vault.getSecretsByType type st)
  | GetExpiredSecrets => snd (Vault.getExpiredSecrets st)
  | ExportVault => snd (Vault.exportVault st)
  end.

(** A session: the calls, one after the other. *)
Definition session (calls : list DataCall) (st : State) : State :=
  fold_left (fun st c => perform c st) calls st.

(** The plaintext that a call gives to [encrypt], if it gives one. *)
Definition written_value (c : DataCall) : option string :=
  match c with
  | AddSecret secretData => Some (SecretData.value secretData)
  | UpdateSecret _ updates =>
      if truthy (Updates.value updates) then Updates.value updates else None
  | _ => None
  end.

(** The codec reads back, as it was written, the plaintext that the call
    gives to [encrypt]. (For such a text [toBytes] has bytes to give: it
    does not throw.) *)
Definition reads_back (c : DataCall) : Prop :=
  forall v : string,
    written_value c = Some v -> utf8_fromBytes (utf8_toBytes v) = v.

End Invariants.


(* ------------------------------------------------------------------------- *)
(** ** The command line ([src/unnamed/part_000])

    One run of the program is one process: it makes its vault object,
    [const vault = new SecretsVault()], and commander calls the action of
    the one command on the command line, with the options it parsed. The
    actions are modelled, commander's parsing is not; the [generate]
    command, which reads a number with [parseInt], is left out. An answer
    typed at a prompt is an argument of the action that asks for it. *)

Module Cli.

(** What an action prints: [console.log(text)], [console.error(text)], and
    [console.error('Error:', error.message)] for an error it caught. *)
Inductive Line : Type :=
  | Out (text : string)
  | Err (text : string)
  | Caught (e : Error).

(** The end of a process: what it printed and its exit status. *)
Record Ended : Type := mkEnded {
  printed : list Line;
  status : nat
}.

Definition dq : string := String "034"%char "".
Definition newline : string := String "010"%char "".

Definition locked_message : string :=
  "Vault is locked. Run " ++ dq ++ "secrets unlock" ++ dq ++ " first.".
Definition exists_message : string :=
  "Vault already exists. Use " ++ dq ++ "secrets unlock" ++ dq ++ " first.".
Definition missing_message : string :=
  "Vault does not exist. Run " ++ dq ++ "secrets init" ++ dq ++ " first.".

(** [${n}] for a length. *)
Definition decimal (n : nat) : string :=
  DecimalString.NilZero.string_of_uint (Nat.to_uint n).

(** [s.split(c)] for a single character [c]. *)
Fixpoint split (c : ascii) (s : string) : list string :=
  match s with
  | EmptyString => [EmptyString]
  | String x rest =>
      if Ascii.eqb x c then EmptyString :: split c rest
      else match split c rest with
           | head :: tail => String x head :: tail
           | [] => [String x EmptyString]
           end
  end.

(** [if (c) console.log(text)]. *)
Definition line_if (c : bool) (text : string) : list Line :=
  if c then [Out text] else [].

(** The commands, with their parsed arguments and options. [name] and
    [value] of [add] are required options, its [type] has a default; the
    other options are [undefined] when they are not given. *)
Inductive Command : Type :=
  | Init (passphrase confirm : string)
  | Unlock (passphrase : string)
  | Lock
  | Add (name value type : string) (expires notes tags : option string)
  | Get (id : string)
  | List (type : option string)
  | Search (query : string)
  | Update (id : string) (name value type expires notes : option string)
  | Delete (id : string) (force : bool) (answer : string)
  | Expired.

Section WithRuntime.
Context {R : Runtime}.
(** [String.prototype.trim]. *)
Variable trim : string -> string.
(** [path.join(process.cwd(), '.secrets', 'vault.json')], the path of a
    vault object made without an argument. *)
Variable default_path : string.
Local Open Scope vault_scope.

(** The process ends here: an action that returns ends it with status 0,
    [process.exit(code)] with the code. *)
Definition exit (code : nat) (lines : list Line) : M Ended :=
  ret (mkEnded lines code).

(** The check that opens the action of every command on the data. *)
Definition unlocked_or_exit (body : M Ended) : M Ended :=
  unlocked <- Vault.isVaultUnlocked ;;
  if negb unlocked then exit 1 [Err locked_message] else body.

Definition cmd_init (passphrase confirm : string) : M Ended :=
  if negb (String.eqb passphrase confirm)
  then exit 1 [Err "Passphrases do not match"]
  else
    present <- Vault.exists_ ;;
    if present then exit 1 [Err exists_message]
    else
      message <- Vault.init passphrase ;;
      exit 0 [Out message].

Definition cmd_unlock (passphrase : string) : M Ended :=
  present <- Vault.exists_ ;;
  if negb present then exit 1 [Err missing_message]
  else
    Vault.unlock passphrase ;;
    exit 0 [Out "Vault unlocked successfully"].

Definition cmd_lock : M Ended :=
  Vault.lock ;;
  exit 0 [Out "Vault locked"].

Definition cmd_add (name value type : string) (expires notes tags : option string)
  : M Ended :=
  unlocked_or_exit
    (result <- Vault.addSecret
                 (SecretData.mk name (Some type) value (or_null expires) None
                    (Some (if truthy tags
                           then map trim (split ","%char (default "" tags))
                           else []))
                    (Some (or_default notes ""))) ;;
     exit 0
       ([Out "Secret added successfully:";
         Out ("  ID: " ++ Added.id result);
         Out ("  Name: " ++ Added.name result);
         Out ("  Type: " ++ Added.type result);
         Out ("  Value: " ++ Added.value result ++ " (shown once)")]
        ++ line_if (truthy (Added.expiresAt result))
             ("  Expires: " ++ default "" (Added.expiresAt result)))%list).

Definition cmd_get (id : string) : M Ended :=
  unlocked_or_exit
    (secret <- Vault.getSecret id ;;
     exit 0
       ([Out "Secret:";
         Out ("  ID: " ++ Secret.id secret);
         Out ("  Name: " ++ Secret.name secret);
         Out ("  Type: " ++ Secret.type secret);
         Out ("  Value: " ++ Secret.value secret);
         Out ("  Created: " ++ Secret.createdAt secret);
         Out ("  Updated: " ++ Secret.updatedAt secret)]
        ++ line_if (truthy (Secret.expiresAt secret))
             ("  Expires: " ++ default "" (Secret.expiresAt secret))
        ++ line_if (negb (Nat.eqb (length (Secret.tags secret)) 0))
             ("  Tags: " ++ String.concat ", " (Secret.tags secret))
        ++ line_if (negb (String.eqb (Secret.notes secret) ""))
             ("  Notes: " ++ Secret.notes secret))%list).

Definition list_entry (s : SecretMeta.t) : list Line :=
  ([Out ("ID: " ++ SecretMeta.id s);
    Out ("  Name: " ++ SecretMeta.name s);
    Out ("  Type: " ++ SecretMeta.type s);
    Out ("  Updated: " ++ SecretMeta.updatedAt s)]
   ++ line_if (truthy (SecretMeta.expiresAt s))
        ("  Expires: " ++ default "" (SecretMeta.expiresAt s))
   ++ [Out ""])%list.

Definition cmd_list (type : option string) : M Ended :=
  unlocked_or_exit
    (secrets <- (if truthy type then Vault.getSecretsByType (default "" type)
                 else Vault.listSecrets) ;;
     exit 0
       (Out ("Found " ++ decimal (length secrets) ++ " secret(s):" ++ newline)
        :: concat (map list_entry secrets))).

Definition search_entry (s : SecretMeta.t) : list Line :=
  [Out ("ID: " ++ SecretMeta.id s);
   Out ("  Name: " ++ SecretMeta.name s);
   Out ("  Type: " ++ SecretMeta.type s);
   Out ""].

Definition cmd_search (query : string) : M Ended :=
  unlocked_or_exit
    (results <- Vault.searchSecrets query ;;
     exit 0
       (Out ("Found " ++ decimal (length results) ++ " matching secret(s):"
             ++ newline)
        :: concat (map search_entry results))).

(** [updates] holds the options that were given and are not empty. *)
Definition cmd_update (id : string) (name value type expires notes : option string)
  : M Ended :=
  unlocked_or_exit
    (let updates :=
       Updates.mk (or_null name) (or_null type) (or_null value)
         (if truthy expires then Some expires else None)
         None None (or_null notes) in
     message <- Vault.updateSecret id updates ;;
     exit 0 [Out message]).

Definition cmd_delete (id : string) (force : bool) (answer : string) : M Ended :=
  unlocked_or_exit
    (if negb force && negb (String.eqb (toLowerCase answer) "yes")
     then exit 0 [Out "Cancelled"]
     else
       message <- Vault.deleteSecret id ;;
       exit 0 [Out message]).

Definition expired_entry (s : SecretMeta.t) : list Line :=
  [Out ("ID: " ++ SecretMeta.id s);
   Out ("  Name: " ++ SecretMeta.name s);
   Out ("  Expired: " ++ default "null" (SecretMeta.expiresAt s));
   Out ""].

Definition cmd_expired : M Ended :=
  unlocked_or_exit
    (secrets <- Vault.getExpiredSecrets ;;
     exit 0
       (Out ("Found " ++ decimal (length secrets) ++ " expired secret(s):"
             ++ newline)
        :: concat (map expired_entry secrets))).

Definition action (c : Command) : M Ended :=
  match c with
  | Init passphrase confirm => cmd_init passphrase confirm
  | Unlock passphrase => cmd_unlock passphrase
  | Lock => cmd_lock
  | Add name value type expires notes tags =>
      cmd_add name value type expires notes tags
  | Get id => cmd_get id
  | List type => cmd_list type
  | Search query => cmd_search query
  | Update id name value type expires notes =>
      cmd_update id name value type expires notes
  | Delete id force answer => cmd_delete id force answer
  | Expired => cmd_expired
  end.

(** [try { ... } catch (error) { console.error('Error:', error.message);
    process.exit(1); }] around the body of every action. *)
Definition caught (body : M Ended) (st : State) : Ended * State :=
  match body st with
  | (Return ended, st') => (ended, st')
  | (Throw e, st') => (mkEnded [Caught e] 1, st')
  end.

(** One process: the program is run with a command, in a world; its vault
    object is a new one, and what is left at its end is the world. *)
Definition main (c : Command) (w : World) : Ended * World :=
  let '(ended, st) := caught (action c) (mkState (constructor default_path) w) in
  (ended, world st).

(** Processes run one after the other, each in the world the one before
    left. *)
Definition mains (cs : list Command) (w : World) : World :=
  fold_left (fun w c => snd (main c w)) cs w.

(** The commands on the data: all but [init], [unlock] and [lock]. *)
Definition on_data (c : Command) : bool :=
  match c with
  | Init _ _ | Unlock _ | Lock => false
  | _ => true
  end.

End WithRuntime.
End Cli.

Section AnyCalls.
Context {R : Runtime}.

(** A call on a vault object, [importVault] apart (it takes any JSON as the
    vault's data). *)
Inductive Call : Type :=
  | InitCall (passphrase : string)
  | UnlockCall (passphrase : string)
  | LockCall
  | Data (c : DataCall).

Definition perform_call (c : Call) (st : State) : State :=
  match c with
  | InitCall passphrase => snd (Vault.init passphrase st)
  | UnlockCall passphrase => snd (Vault.unlock passphrase st)
  | LockCall => snd (Vault.lock st)
  | Data c => perform c st
  end.

(** The codec reads back what the call gives to [encrypt]. *)
Definition call_reads_back (c : Call) : Prop :=
  match c with
  | Data c => reads_back c
  | _ => True
  end.

(** The life of a vault object: it is made, and called any number of times. *)
Definition life (path : string) (calls : list Call) (w : World) : State :=
  fold_left (fun st c => perform_call c st) calls (mkState (constructor path) w).

(** An unlocked vault holds a key. *)
Definition keyed (st : State) : Prop :=
  isUnlocked (this st) = true -> is_Some (encryptionKey (this st)).

End AnyCalls.

(* ========================================================================= *)
(** * Properties *)

(* ------------------------------------------------------------------------- *)
(** ** Bytes, Base64 and counter mode *)

Lemma xor_involutive (a k : byte) : Bytes.xor (Bytes.xor a k) k = a.
Proof.
  unfold Bytes.xor.
  destruct (Byte.to_bits a) as [a0 [a1 [a2 [a3 [a4 [a5 [a6 a7]]]]]]] eqn:Ha.
  destruct (Byte.to_bits k) as [k0 [k1 [k2 [k3 [k4 [k5 [k6 k7]]]]]]] eqn:Hk.
  rewrite Byte.to_bits_of_bits.
  rewrite !xorb_assoc_reverse, !xorb_nilpotent, !xorb_false_r.
  rewrite <- Ha. apply Byte.of_bits_to_bits.
Qed.

Lemma base64_value_char (s : Base64.sextet) :
  Base64.value (Base64.char s) = Some s.
Proof.
  destruct s as [[[[[b5 b4] b3] b2] b1] b0].
  destruct b5, b4, b3, b2, b1, b0; reflexivity.
Qed.

Lemma base64_char_not_pad (s : Base64.sextet) :
  Ascii.eqb (Base64.char s) Base64.pad = false.
Proof.
  destruct s as [[[[[b5 b4] b3] b2] b1] b0].
  destruct b5, b4, b3, b2, b1, b0; reflexivity.
Qed.

Lemma base64_join_split3 (a b c : byte) :
  let '(s1, s2, s3, s4) := Base64.split3 a b c in
  Base64.join1 s1 s2 = a /\ Base64.join2 s2 s3 = b /\ Base64.join3 s3 s4 = c.
Proof.
  unfold Base64.split3.
  destruct (Byte.to_bits a) as [a0 [a1 [a2 [a3 [a4 [a5 [a6 a7]]]]]]] eqn:Ha.
  destruct (Byte.to_bits b) as [b0 [b1 [b2 [b3 [b4 [b5 [b6 b7]]]]]]] eqn:Hb.
  destruct (Byte.to_bits c) as [c0 [c1 [c2 [c3 [c4 [c5 [c6 c7]]]]]]] eqn:Hc.
  unfold Base64.join1, Base64.join2, Base64.join3.
  rewrite <- Ha, <- Hb, <- Hc, !Byte.of_bits_to_bits. auto.
Qed.

Lemma base64_sextets_char (s : Base64.sextet) (r : string) :
  Base64.sextets (String (Base64.char s) r) = s :: Base64.sextets r.
Proof.
  cbn [Base64.sextets]. rewrite base64_char_not_pad, base64_value_char.
  reflexivity.
Qed.

Lemma base64_sextets_pad (r : string) :
  Base64.sextets (String Base64.pad r) = [].
Proof. reflexivity. Qed.

(** Lists three elements at a time, as the encoder walks them. *)
Lemma list_ind3 {A : Type} (P : list A -> Prop) :
  P [] -> (forall a, P [a]) -> (forall a b, P [a; b]) ->
  (forall a b c r, P r -> P (a :: b :: c :: r)) -> forall l, P l.
Proof.
  intros H0 H1 H2 H3.
  fix IH 1. intros [|a [|b [|c r]]];
    [exact H0 | apply H1 | apply H2 | apply H3, IH].
Qed.

(** Decoding what [toString('base64')] wrote gives the bytes back. *)
Lemma base64_decode_encode (bs : list byte) :
  Base64.decode (Base64.encode bs) = bs.
Proof.
  induction bs as [|a|a b|a b c rest IH] using list_ind3.
  - reflexivity.
  - cbn [Base64.encode]. pose proof (base64_join_split3 a x00 x00) as H.
    destruct (Base64.split3 a x00 x00) as [[[s1 s2] s3] s4].
    unfold Base64.decode. rewrite !base64_sextets_char, base64_sextets_pad.
    cbn [Base64.octets]. destruct H as (-> & _). reflexivity.
  - cbn [Base64.encode]. pose proof (base64_join_split3 a b x00) as H.
    destruct (Base64.split3 a b x00) as [[[s1 s2] s3] s4].
    unfold Base64.decode. rewrite !base64_sextets_char, base64_sextets_pad.
    cbn [Base64.octets]. destruct H as (-> & -> & _). reflexivity.
  - cbn [Base64.encode]. pose proof (base64_join_split3 a b c) as H.
    destruct (Base64.split3 a b c) as [[[s1 s2] s3] s4].
    unfold Base64.decode in *. rewrite !base64_sextets_char.
    cbn [Base64.octets]. destruct H as (-> & -> & ->). rewrite IH. reflexivity.
Qed.

Lemma base64_encode_injective (x y : list byte) :
  Base64.encode x = Base64.encode y -> x = y.
Proof.
  intros H.
  rewrite <- (base64_decode_encode x), <- (base64_decode_encode y), H.
  reflexivity.
Qed.

Lemma randomBytes_fst (n : nat) (w : World) :
  fst (randomBytes n w) = map (entropy w) (seq 0 n).
Proof. reflexivity. Qed.

Lemma randomBytes_length (n : nat) (w : World) :
  length (fst (randomBytes n w)) = n.
Proof. rewrite randomBytes_fst, length_map, length_seq. reflexivity. Qed.

Section CryptoFacts.
Context {R : Runtime}.

(** The mode's loop undoes itself from the same starting state: the key stream
    depends on the key and the counter alone. *)
Lemma ctr_run_involutive (key data : list byte) :
  forall (counter ks : list byte) (i : nat),
    Ctr.run key counter ks i (Ctr.run key counter ks i data) = data.
Proof.
  induction data as [|d rest IH]; intros counter ks i; simpl; [reflexivity|].
  destruct (Nat.eqb i 16) eqn:E; simpl;
    rewrite E, xor_involutive, IH; reflexivity.
Qed.

Lemma ctr_decrypt_encrypt (key iv data : list byte) :
  Ctr.decrypt key iv (Ctr.encrypt key iv data) = data.
Proof. apply ctr_run_involutive. Qed.

(** What [encrypt] returns and what it leaves of the world. *)
Lemma encrypt_unfold (plaintext : string) (key : list byte) (w : World) :
  Crypto.encrypt plaintext key w =
  (Base64.encode
     (fst (randomBytes Crypto.ivLength w)
      ++ Ctr.encrypt key (fst (randomBytes Crypto.ivLength w))
           (utf8_toBytes plaintext))%list,
   snd (randomBytes Crypto.ivLength w)).
Proof. reflexivity. Qed.

Lemma encrypt_clock (plaintext : string) (key : list byte) (w : World) :
  clock (snd (Crypto.encrypt plaintext key w)) = clock w.
Proof. reflexivity. Qed.

Lemma encrypt_files (plaintext : string) (key : list byte) (w : World) :
  files (snd (Crypto.encrypt plaintext key w)) = files w.
Proof. reflexivity. Qed.

(** Decryption gives, under any key, what the codec reads from the bytes
    that it wrote for the plaintext. *)
Lemma decrypt_encrypt_codec (plaintext : string) (key : list byte) (w : World) :
  Crypto.decrypt (fst (Crypto.encrypt plaintext key w)) key
  = Some (utf8_fromBytes (utf8_toBytes plaintext)).
Proof.
  rewrite encrypt_unfold. cbn [fst]. unfold Crypto.decrypt.
  pose proof (randomBytes_length Crypto.ivLength w) as Hlen.
  set (iv := fst (randomBytes Crypto.ivLength w)) in *.
  rewrite base64_decode_encode. unfold Bytes.slice_to, Bytes.slice_from.
  rewrite take_app_length', drop_app_length' by (symmetry; exact Hlen).
  rewrite Hlen. cbn [Nat.eqb Crypto.ivLength].
  rewrite ctr_decrypt_encrypt. reflexivity.
Qed.

(** Decryption undoes encryption under any key, for a plaintext that the
    UTF-8 codec reads back as it wrote it. *)
Lemma decrypt_encrypt_any_key (plaintext : string) (key : list byte) (w : World) :
  utf8_fromBytes (utf8_toBytes plaintext) = plaintext ->
  Crypto.decrypt (fst (Crypto.encrypt plaintext key w)) key = Some plaintext.
Proof.
  intros Hutf. rewrite encrypt_unfold. cbn [fst]. unfold Crypto.decrypt.
  pose proof (randomBytes_length Crypto.ivLength w) as Hlen.
  set (iv := fst (randomBytes Crypto.ivLength w)) in *.
  rewrite base64_decode_encode. unfold Bytes.slice_to, Bytes.slice_from.
  rewrite take_app_length', drop_app_length' by (symmetry; exact Hlen).
  rewrite Hlen. cbn [Nat.eqb Crypto.ivLength].
  rewrite ctr_decrypt_encrypt, Hutf. reflexivity.
Qed.

End CryptoFacts.

(** The sample codec reads back every text it writes. *)
Lemma sample_utf8_roundtrip (s : string) :
  Sample.string_of_bytes (Sample.bytes_of_string s) = s.
Proof.
  unfold Sample.string_of_bytes, Sample.bytes_of_string.
  rewrite map_map.
  rewrite (map_ext _ (fun c => c)) by (intros c; apply ascii_of_byte_of_ascii).
  rewrite map_id. apply string_of_list_ascii_of_string.
Qed.

(** The round trip, for a plaintext that the codec reads back as it wrote
    it: decrypting what [encrypt] returned for the plaintext under the key
    that [deriveKey] derives from a passphrase and a salt, with that same
    key, gives the plaintext back (whatever the entropy was when the key was
    derived and when the IV was drawn). *)
Lemma decrypt_encrypt_roundtrip {R : Runtime}
    (passphrase : string) (salt : option string) (plaintext : string)
    (w w' : World) :
  utf8_fromBytes (utf8_toBytes plaintext) = plaintext ->
  let key := fst (fst (Crypto.deriveKey passphrase salt w)) in
  Crypto.decrypt (fst (Crypto.encrypt plaintext key w')) key = Some plaintext.
Proof. intros Hutf key. apply decrypt_encrypt_any_key, Hutf. Qed.

Example decrypt_encrypt_roundtrip_sample :
  let R := Sample.runtime [] in
  utf8_fromBytes (utf8_toBytes "s3cr3t") = "s3cr3t" /\
  Crypto.decrypt
    (fst (Crypto.encrypt "s3cr3t"
            (fst (fst (Crypto.deriveKey "pw1" (Some "00ff") (Sample.world 0 0))))
            (Sample.world 16 0)))
    (fst (fst (Crypto.deriveKey "pw1" (Some "00ff") (Sample.world 0 0))))
  = Some "s3cr3t".
Proof.
  split; [reflexivity|].
  apply (@decrypt_encrypt_roundtrip (Sample.runtime []) "pw1" (Some "00ff")
           "s3cr3t" (Sample.world 0 0) (Sample.world 16 0)).
  reflexivity.
Qed.

(** The codec reads back a text of one-, two- and three-byte characters:
    here [a], U+00E9 and U+20AC. *)
Example aesjs_reads_back_basic_plane :
  AesJs.fromBytes
    (AesJs.toBytes
       (String "a" (String "195" (String "169"
          (String "226" (String "130" (String "172" "")))))))
  = String "a" (String "195" (String "169"
      (String "226" (String "130" (String "172" ""))))).
Proof. reflexivity. Qed.

(** C1 does not hold of the code. [decrypt] returns what the codec reads
    from the bytes that the codec wrote, and the codec of aes-js does not
    read back all it writes: [fromBytes] has no case for a four-byte
    sequence. For the plaintext U+1F600, with the codec doing on it what
    that of aes-js does, under the key that [deriveKey] derives from any
    passphrase and salt and with any IV, [encrypt] then [decrypt] gives the
    two characters U+07D8 and U+0000, not the plaintext. *)
Theorem decrypt_encrypt_garbles_astral {R : Runtime}
    (passphrase : string) (salt : option string) (w w' : World) :
  utf8_toBytes grinning_face = AesJs.toBytes grinning_face ->
  utf8_fromBytes (AesJs.toBytes grinning_face)
  = AesJs.fromBytes (AesJs.toBytes grinning_face) ->
  let key := fst (fst (Crypto.deriveKey passphrase salt w)) in
  Crypto.decrypt (fst (Crypto.encrypt grinning_face key w')) key
  = Some garbled_face /\
  garbled_face <> grinning_face.
Proof.
  intros Hto Hfrom key. split; [|discriminate].
  rewrite decrypt_encrypt_codec, Hto, Hfrom. reflexivity.
Qed.

Lemma decrypt_encrypt_garbles_astral_witness :
  @Crypto.decrypt AesJs.runtime
    (fst (@Crypto.encrypt AesJs.runtime grinning_face
            (fst (fst (@Crypto.deriveKey AesJs.runtime "pw1" (Some "00ff")
                         (Sample.world 0 0))))
            (Sample.world 16 0)))
    (fst (fst (@Crypto.deriveKey AesJs.runtime "pw1" (Some "00ff")
                 (Sample.world 0 0))))
  = Some garbled_face /\
  String.eqb garbled_face grinning_face = false.
Proof.
  destruct (@decrypt_encrypt_garbles_astral AesJs.runtime "pw1" (Some "00ff")
              (Sample.world 0 0) (Sample.world 16 0) eq_refl eq_refl)
    as [Hdecrypt _].
  split; [exact Hdecrypt | reflexivity].
Defined.

(* ------------------------------------------------------------------------- *)
(** ** The IV of successive encryptions *)

(** C5, as stated, fails: when the random source returns the same 16 bytes
    to two successive calls, the two calls of [encrypt] with the same key and
    plaintext return the same text. Nothing in [encrypt] compares an IV with
    an earlier one. *)
Lemma encrypt_twice_same_output :
  @Crypto.encrypt (Sample.runtime []) "s3cr3t" sample_key repeating_world
  = ("AAECAwQFBgcICQoLDA0ODwNFUHHIcQ==",
     mkWorld (fun i => Sample.repeating (16 + i)) (fun _ => 0%Z) ∅)
  /\ fst (@Crypto.encrypt (Sample.runtime []) "s3cr3t" sample_key
            (snd (@Crypto.encrypt (Sample.runtime []) "s3cr3t" sample_key
                    repeating_world)))
     = "AAECAwQFBgcICQoLDA0ODwNFUHHIcQ==".
Proof. split; reflexivity. Qed.

(** C5, amended. Every call of [encrypt] draws its own 16 bytes from the
    random source (the second call the 16 that follow those of the first) and
    writes them in front of the cipher bytes; two calls with the same key and
    plaintext return the same text exactly when the two IVs drawn are equal,
    so the outputs differ whenever the IVs do. *)
Theorem encrypt_twice_same_iff_same_iv {R : Runtime}
    (plaintext : string) (key : list byte) (w : World) :
  let iv1 := map (entropy w) (seq 0 16) in
  let iv2 := map (entropy w) (seq 16 16) in
  let first := Crypto.encrypt plaintext key w in
  let second := Crypto.encrypt plaintext key (snd first) in
  Base64.decode (fst first)
    = (iv1 ++ Ctr.encrypt key iv1 (utf8_toBytes plaintext))%list /\
  Base64.decode (fst second)
    = (iv2 ++ Ctr.encrypt key iv2 (utf8_toBytes plaintext))%list /\
  (fst first = fst second <-> iv1 = iv2).
Proof.
  intros iv1 iv2 first second.
  assert (H1 : fst (randomBytes Crypto.ivLength w) = iv1) by reflexivity.
  assert (H2 : fst (randomBytes Crypto.ivLength (snd first)) = iv2).
  { subst first. rewrite encrypt_unfold. reflexivity. }
  assert (E1 : fst first = Base64.encode
            (iv1 ++ Ctr.encrypt key iv1 (utf8_toBytes plaintext))%list).
  { subst first. rewrite encrypt_unfold, H1. reflexivity. }
  assert (E2 : fst second = Base64.encode
            (iv2 ++ Ctr.encrypt key iv2 (utf8_toBytes plaintext))%list).
  { subst second. rewrite encrypt_unfold, H2. reflexivity. }
  rewrite E1, E2, !base64_decode_encode.
  split; [reflexivity|]. split; [reflexivity|]. split.
  - intros H. apply base64_encode_injective in H.
    apply app_inj_1 in H; [tauto|].
    unfold iv1, iv2. rewrite !length_map, !length_seq. reflexivity.
  - intros ->. reflexivity.
Qed.

(* ------------------------------------------------------------------------- *)
(** ** Running a method *)

Lemma bind_throw {A B} (c : M A) (k : A -> M B) (e : Error) (st st' : State) :
  c st = (Throw e, st') -> bind c k st = (Throw e, st').
Proof. intros H. unfold bind. rewrite H. reflexivity. Qed.

Lemma bind_return {A B} (c : M A) (k : A -> M B) (a : A) (st st' : State) :
  c st = (Return a, st') -> bind c k st = k a st'.
Proof. intros H. unfold bind. rewrite H. reflexivity. Qed.

(** Unfolds the plumbing of a method body (the monad, the field accesses and
    the assignments), and leaves the cipher, the runtime and the list
    operations as they are. *)
Ltac run_vault :=
  cbv beta iota zeta delta
    [Vault.updateSecret Vault.deleteSecret Vault.importVault Vault.exportVault
     Vault.getExpiredSecrets Vault.searchSecrets Vault.getSecretsByType
     Vault.listSecrets Vault.unlock Vault.load Vault.lock
     Vault._ensureUnlocked Vault.now_iso Vault.save Vault.encrypt_value
     bind ret throw read when outside Date_now
     modify_secret modify_metadata modify_data
     assign_data assign_encryptionKey assign_isUnlocked
     writeFileSync readFileSync existsSync
     secrets_of metadata_of salt_of persisted
     VaultData.set_secrets VaultData.set_metadata
     Metadata.set_updatedAt Metadata.set_createdAt Metadata.set_salt
     VaultData.version VaultData.secrets VaultData.metadata
     Metadata.createdAt Metadata.updatedAt Metadata.salt
     Updates.name Updates.type Updates.value Updates.expiresAt
     Updates.metadata Updates.tags Updates.notes
     this world vaultPath data encryptionKey isUnlocked entropy clock files
     fst snd negb].

Section VaultFacts.
Context {R : Runtime}.

Lemma ensureUnlocked_locked (st : State) :
  isUnlocked (this st) = false ->
  Vault._ensureUnlocked st = (Throw VaultLocked, st).
Proof.
  intros H. unfold Vault._ensureUnlocked, bind, read. rewrite H. reflexivity.
Qed.

Lemma ensureUnlocked_unlocked (st : State) :
  isUnlocked (this st) = true ->
  Vault._ensureUnlocked st = (Return tt, st).
Proof.
  intros H. unfold Vault._ensureUnlocked, bind, read. rewrite H. reflexivity.
Qed.

(** [findIndex] finds the first element that passes the test. *)
Lemma findIndex_Some {A} (f : A -> bool) (l : list A) (i : nat) :
  findIndex f l = Some i <->
  exists x, l !! i = Some x /\ f x = true /\
            forall j y, j < i -> l !! j = Some y -> f y = false.
Proof.
  revert i. induction l as [|a l IH]; intros i; cbn [findIndex].
  - split; [discriminate|]. intros (x & Hx & _). discriminate.
  - destruct (f a) eqn:Fa.
    + split.
      * intros [= <-]. exists a. repeat split; [exact Fa|]. intros j y Hj. lia.
      * intros (x & Hx & Fx & Hlt). destruct i as [|i]; [reflexivity|].
        specialize (Hlt 0 a ltac:(lia) eq_refl). congruence.
    + destruct (findIndex f l) as [k|] eqn:E; cbn [fmap option_fmap option_map].
      * split.
        -- intros [= <-]. destruct (proj1 (IH k) eq_refl) as (x & Hx & Fx & Hlt).
           exists x. repeat split; [exact Hx | exact Fx |].
           intros [|j] y Hj Hy; [cbn in Hy; congruence|].
           apply (Hlt j y); [lia | exact Hy].
        -- intros (x & Hx & Fx & Hlt). destruct i as [|i].
           ++ cbn in Hx. congruence.
           ++ f_equal. enough (Some k = Some i) by congruence.
              apply IH. exists x. repeat split; [exact Hx | exact Fx |].
              intros j y Hj Hy. apply (Hlt (S j) y); [lia | exact Hy].
      * split; [discriminate|]. intros (x & Hx & Fx & Hlt).
        destruct i as [|i]; [cbn in Hx; congruence|].
        exfalso. enough (None = Some i) by discriminate. apply IH.
        exists x. repeat split; [exact Hx | exact Fx |].
        intros j y Hj Hy. apply (Hlt (S j) y); [lia | exact Hy].
Qed.

Lemma has_id_true (id : string) (s : Secret.t) :
  Vault.has_id id s = true <-> Secret.id s = id.
Proof. unfold Vault.has_id. apply String.eqb_eq. Qed.

Lemma has_id_false (id : string) (s : Secret.t) :
  Vault.has_id id s = false <-> Secret.id s <> id.
Proof. unfold Vault.has_id. apply String.eqb_neq. Qed.

Lemma findIndex_first_with_id (id : string) (l : list Secret.t) (i : nat)
    (s : Secret.t) :
  first_with_id id l i s -> findIndex (Vault.has_id id) l = Some i.
Proof.
  intros (Hi & Hid & Hlt). apply findIndex_Some. exists s.
  repeat split; [exact Hi | apply has_id_true, Hid |].
  intros j y Hj Hy. apply has_id_false. eauto.
Qed.

End VaultFacts.

(* ------------------------------------------------------------------------- *)
(** ** The lock *)

(** C2. In a state that is not unlocked (a locked vault, or one never
    initialised), each of the eleven data operations throws the vault-locked
    error and ends in the state it started from: the vault object, the
    entropy, the clock and every file are as they were. *)
Theorem locked_operations_fail {R : Runtime} (st : State) :
  isUnlocked (this st) = false ->
  (forall secretData, Vault.addSecret secretData st = (Throw VaultLocked, st)) /\
  (forall id, Vault.getSecret id st = (Throw VaultLocked, st)) /\
  (forall id, Vault.getSecretMeta id st = (Throw VaultLocked, st)) /\
  Vault.listSecrets st = (Throw VaultLocked, st) /\
  (forall id updates, Vault.updateSecret id updates st = (Throw VaultLocked, st)) /\
  (forall id, Vault.deleteSecret id st = (Throw VaultLocked, st)) /\
  (forall query, Vault.searchSecrets query st = (Throw VaultLocked, st)) /\
  (forall type, Vault.getSecretsByType type st = (Throw VaultLocked, st)) /\
  Vault.getExpiredSecrets st = (Throw VaultLocked, st) /\
  Vault.exportVault st = (Throw VaultLocked, st) /\
  (forall blob, Vault.importVault blob st = (Throw VaultLocked, st)).
Proof.
  intros H. pose proof (ensureUnlocked_locked st H) as E.
  repeat split; intros; apply bind_throw, E.
Qed.

Lemma locked_operations_fail_witness :
  isUnlocked (this sample_locked) = false /\
  @Vault.getSecret (Sample.runtime []) "EBESExQVFhcYGRob" sample_locked
    = (Throw VaultLocked, sample_locked) /\
  @Vault.importVault (Sample.runtime []) "{}" sample_locked
    = (Throw VaultLocked, sample_locked).
Proof.
  pose proof (@locked_operations_fail (Sample.runtime []) sample_locked eq_refl)
    as (_ & Hget & _ & _ & _ & _ & _ & _ & _ & _ & Himport).
  split; [reflexivity|]. split; [apply Hget | apply Himport].
Defined.

(* ------------------------------------------------------------------------- *)
(** ** [updateSecret] on a record that exists *)

Lemma truthy_true (o : option string) :
  truthy o = true <-> exists v, o = Some v /\ v <> "".
Proof.
  destruct o as [v|]; cbn [truthy].
  - rewrite negb_true_iff, String.eqb_neq. split.
    + intros H. exists v. split; [reflexivity | exact H].
    + intros (v' & [= <-] & H). exact H.
  - split; [discriminate|]. intros (v & H & _). discriminate.
Qed.


Section UpdateFacts.
Context {R : Runtime}.

Lemma alter_twice {A} (f g : A -> A) (i : nat) (l : list A) :
  alter f i (alter g i l) = alter (fun x => f (g x)) i l.
Proof. apply list_alter_alter_eq. Qed.

Lemma updateSecret_found (id : string) (u : Updates.t) (st : State) (i : nat) :
  isUnlocked (this st) = true ->
  (truthy (Updates.value u) = true -> is_Some (encryptionKey (this st))) ->
  findIndex (Vault.has_id id) (secrets_of st) = Some i ->
  Vault.updateSecret id u st
  = (Return "Secret updated successfully", after_update u i st).
Proof.
  intros Hu Hk Hi.
  destruct st as [[path [ver secs meta] k unl] [ent clk fl]].
  destruct u as [n t v e m tg nt].
  cbn in Hu, Hk, Hi. subst unl.
  unfold after_update, assigned. run_vault. rewrite Hi.
  destruct (truthy v) eqn:Hv.
  - destruct (Hk eq_refl) as [key ->].
    destruct (truthy n), (truthy t), e, m, tg, nt; run_vault;
      rewrite ?alter_twice; reflexivity.
  - destruct (truthy n), (truthy t), e, m, tg, nt; run_vault;
      rewrite ?alter_twice; reflexivity.
Qed.

(** Field by field. *)
Lemma assigned_fields (u : Updates.t) (ciphertext stamp : string) (s : Secret.t) :
  let s' := assigned u ciphertext stamp s in
  Secret.id s' = Secret.id s /\
  Secret.name s' =
    (if truthy (Updates.name u) then default "" (Updates.name u)
     else Secret.name s) /\
  Secret.type s' =
    (if truthy (Updates.type u) then default "" (Updates.type u)
     else Secret.type s) /\
  Secret.value s' =
    (if truthy (Updates.value u) then ciphertext else Secret.value s) /\
  Secret.valueHash s' =
    (if truthy (Updates.value u)
     then Crypto.hash (default "" (Updates.value u))
     else Secret.valueHash s) /\
  Secret.createdAt s' = Secret.createdAt s /\
  Secret.updatedAt s' = stamp /\
  Secret.expiresAt s' = default (Secret.expiresAt s) (Updates.expiresAt u) /\
  Secret.metadata s' =
    match Updates.metadata u with
    | Some m => m ∪ Secret.metadata s
    | None => Secret.metadata s
    end /\
  Secret.tags s' = default (Secret.tags s) (Updates.tags u) /\
  Secret.notes s' = default (Secret.notes s) (Updates.notes u).
Proof.
  destruct u as [n t v e m tg nt]. unfold assigned.
  cbn [Updates.name Updates.type Updates.value Updates.expiresAt
       Updates.metadata Updates.tags Updates.notes].
  destruct (truthy n), (truthy t), (truthy v), e, m, tg, nt;
    repeat split; reflexivity.
Qed.

Lemma after_update_secrets (u : Updates.t) (i : nat) (st : State) (s : Secret.t) :
  secrets_of st !! i = Some s ->
  secrets_of (after_update u i st)
  = <[i := assigned u
             (fst (Crypto.encrypt (default "" (Updates.value u))
                     (default [] (encryptionKey (this st))) (world st)))
             (toISOString (clock (world st) 0)) s]> (secrets_of st).
Proof.
  intros Hs. unfold after_update, secrets_of in *. cbn [this data VaultData.secrets].
  rewrite list_insert_alter. apply list_alter_ext; [|reflexivity].
  intros x Hx. congruence.
Qed.

(** Writing at an index a record that agrees with the one there on some field
    leaves the list of that field's values as it was. *)
Lemma fmap_insert_same {A B} (f : A -> B) (l : list A) (i : nat) (x y : A) :
  l !! i = Some x -> f y = f x -> f <$> <[i := y]> l = f <$> l.
Proof.
  intros Hx Hf. rewrite list_fmap_insert, Hf. apply list_insert_id.
  rewrite list_lookup_fmap, Hx. reflexivity.
Qed.

End UpdateFacts.

Lemma sample_unlocked_secrets : secrets_of sample_unlocked = [sample_record].
Proof. reflexivity. Qed.

Lemma sample_first : first_with_id sample_id (secrets_of sample_unlocked) 0 sample_record.
Proof.
  split; [reflexivity|]. split; [reflexivity|]. intros j s' Hj. lia.
Qed.




(* ------------------------------------------------------------------------- *)
(** ** The hash of a record whose value is not updated *)

(** C8. On an unlocked vault, for the first record with the given id, a call
    of [updateSecret] whose [updates] has no [value] succeeds and leaves the
    record's [value] (the ciphertext) and [valueHash] as they were, whatever
    else [updates] holds; so it does for every other record of the vault. *)
Theorem updateSecret_without_value_keeps_hash {R : Runtime}
    (id : string) (u : Updates.t) (st : State) (i : nat) (s : Secret.t) :
  isUnlocked (this st) = true ->
  first_with_id id (secrets_of st) i s ->
  Updates.value u = None ->
  exists (st' : State) (s' : Secret.t),
    Vault.updateSecret id u st = (Return "Secret updated successfully", st') /\
    secrets_of st' !! i = Some s' /\
    Secret.value s' = Secret.value s /\
    Secret.valueHash s' = Secret.valueHash s /\
    Secret.value <$> secrets_of st' = Secret.value <$> secrets_of st /\
    Secret.valueHash <$> secrets_of st' = Secret.valueHash <$> secrets_of st.
Proof.
  intros Hu Hfirst Hv.
  pose proof (findIndex_first_with_id _ _ _ _ Hfirst) as Hi.
  destruct Hfirst as (Hs & _ & _).
  pose proof (after_update_secrets u i st s Hs) as Hsecs.
  match type of Hsecs with context [assigned u ?c ?t s] =>
    pose proof (assigned_fields u c t s) as F; cbv zeta in F;
    exists (after_update u i st), (assigned u c t s);
    generalize dependent (assigned u c t s) end.
  intros s' Hsecs (_ & _ & _ & Fvalue & Fhash & _).
  rewrite Hv in Fvalue, Fhash. cbn in Fvalue, Fhash.
  split.
  { apply updateSecret_found; [exact Hu | | exact Hi].
    rewrite Hv. discriminate. }
  rewrite Hsecs.
  split; [apply list_lookup_insert_eq, (lookup_lt_Some _ _ _ Hs)|].
  split; [exact Fvalue|]. split; [exact Fhash|].
  split; apply (fmap_insert_same _ _ _ s); assumption.
Qed.

Lemma updateSecret_without_value_keeps_hash_witness :
  isUnlocked (this sample_unlocked) = true /\
  first_with_id sample_id (secrets_of sample_unlocked) 0 sample_record /\
  Updates.value sample_rename = None /\
  exists (st' : State) (s' : Secret.t),
    @Vault.updateSecret (Sample.runtime []) sample_id sample_rename sample_unlocked
      = (Return "Secret updated successfully", st') /\
    secrets_of st' !! 0 = Some s' /\
    Secret.value s' = "ICEiIyQlJicoKSorLC0uLyNlcFEWUw==" /\
    Secret.valueHash s' = "733363723374".
Proof.
  split; [reflexivity|]. split; [exact sample_first|]. split; [reflexivity|].
  destruct (@updateSecret_without_value_keeps_hash (Sample.runtime []) sample_id
              sample_rename sample_unlocked 0 sample_record
              eq_refl sample_first eq_refl)
    as (st' & s' & Hrun & Hat & Hvalue & Hhash & _).
  exists st', s'. repeat split; assumption.
Defined.

(* ------------------------------------------------------------------------- *)
(** ** An update with nothing in it *)

(** C10. On an unlocked vault, for the first record with the given id,
    [updateSecret(id, {})] succeeds; the record keeps every field but
    [updatedAt], which becomes the time of the call; no other record changes;
    the vault's [metadata.updatedAt] becomes the time read next, the rest of
    the vault's data staying as it was; and the backing file is rewritten
    with the data so changed. *)
Theorem updateSecret_empty_bumps_timestamps {R : Runtime}
    (id : string) (st : State) (i : nat) (s : Secret.t) :
  isUnlocked (this st) = true ->
  first_with_id id (secrets_of st) i s ->
  exists (st' : State) (s' : Secret.t),
    Vault.updateSecret id Updates.empty st
      = (Return "Secret updated successfully", st') /\
    secrets_of st' = <[i := s']> (secrets_of st) /\
    s' = Secret.set_updatedAt (toISOString (clock (world st) 0)) s /\
    (Secret.id s' = Secret.id s /\ Secret.name s' = Secret.name s /\
     Secret.type s' = Secret.type s /\ Secret.value s' = Secret.value s /\
     Secret.valueHash s' = Secret.valueHash s /\
     Secret.createdAt s' = Secret.createdAt s /\
     Secret.expiresAt s' = Secret.expiresAt s /\
     Secret.metadata s' = Secret.metadata s /\
     Secret.tags s' = Secret.tags s /\ Secret.notes s' = Secret.notes s) /\
    Secret.updatedAt s' = toISOString (clock (world st) 0) /\
    metadata_of st'
      = Metadata.set_updatedAt (Some (toISOString (clock (world st) 1)))
          (metadata_of st) /\
    VaultData.version (data (this st')) = VaultData.version (data (this st)) /\
    persisted st' = Some (JSON_stringify (data (this st'))) /\
    encryptionKey (this st') = encryptionKey (this st) /\
    isUnlocked (this st') = true.
Proof.
  intros Hu Hfirst.
  pose proof (findIndex_first_with_id _ _ _ _ Hfirst) as Hi.
  destruct Hfirst as (Hs & _ & _).
  eexists. eexists. split.
  { apply updateSecret_found; [exact Hu | discriminate | exact Hi]. }
  split; [apply after_update_secrets, Hs|].
  split; [reflexivity|]. split; [repeat split|]. split; [reflexivity|].
  split; [reflexivity|]. split; [reflexivity|].
  split; [|split; [reflexivity | exact Hu]].
  unfold persisted, after_update. cbn [this world vaultPath files data].
  apply lookup_insert_eq.
Qed.

Lemma updateSecret_empty_bumps_timestamps_witness :
  isUnlocked (this sample_unlocked) = true /\
  first_with_id sample_id (secrets_of sample_unlocked) 0 sample_record /\
  exists (st' : State) (s' : Secret.t),
    @Vault.updateSecret (Sample.runtime []) sample_id Updates.empty sample_unlocked
      = (Return "Secret updated successfully", st') /\
    secrets_of st' = [s'] /\
    s' = Secret.set_updatedAt "1005" sample_record /\
    Metadata.updatedAt (metadata_of st') = Some "1006".
Proof.
  split; [reflexivity|]. split; [exact sample_first|].
  destruct (@updateSecret_empty_bumps_timestamps (Sample.runtime []) sample_id
              sample_unlocked 0 sample_record eq_refl sample_first)
    as (st' & s' & Hrun & Hsecs & Hs' & _ & _ & Hmeta & _).
  exists st', s'. split; [exact Hrun|]. split; [exact Hsecs|].
  split; [exact Hs'|]. rewrite Hmeta. reflexivity.
Defined.

(* ------------------------------------------------------------------------- *)
(** ** What a method leaves untouched *)

Section Preservation.
Context {X : Type} (obs : VaultData.t -> X).

Lemma preserves_ret {A} (a : A) : preserves obs (ret a).
Proof. intros st. reflexivity. Qed.

Lemma preserves_throw {A} (e : Error) : preserves obs (@throw A e).
Proof. intros st. reflexivity. Qed.

Lemma preserves_bind {A B} (c : M A) (k : A -> M B) :
  preserves obs c -> (forall a, preserves obs (k a)) -> preserves obs (bind c k).
Proof.
  intros Hc Hk st. unfold bind. specialize (Hc st).
  destruct (c st) as [[a|e] st'] eqn:E; cbn [snd] in *.
  - rewrite (Hk a st'). exact Hc.
  - exact Hc.
Qed.

Lemma preserves_read {A} (f : SecretsVault -> A) : preserves obs (read f).
Proof. intros st. reflexivity. Qed.

Lemma preserves_outside {A} (f : World -> A * World) : preserves obs (outside f).
Proof. intros st. reflexivity. Qed.

Lemma preserves_existsSync (path : string) : preserves obs (existsSync path).
Proof. intros st. reflexivity. Qed.

Lemma preserves_readFileSync (path : string) : preserves obs (readFileSync path).
Proof.
  intros st. unfold readFileSync. destruct (files (world st) !! path); reflexivity.
Qed.

Lemma preserves_writeFileSync (path content : string) :
  preserves obs (writeFileSync path content).
Proof. intros st. reflexivity. Qed.

Lemma preserves_assign_encryptionKey (k : option (list byte)) :
  preserves obs (assign_encryptionKey k).
Proof. intros st. reflexivity. Qed.

Lemma preserves_assign_isUnlocked (b : bool) : preserves obs (assign_isUnlocked b).
Proof. intros st. reflexivity. Qed.

Lemma preserves_modify_data (f : VaultData.t -> VaultData.t) :
  (forall d, obs (f d) = obs d) -> preserves obs (modify_data f).
Proof. intros Hf st. cbn. apply Hf. Qed.

Lemma preserves_when (b : bool) (c : M unit) :
  preserves obs c -> preserves obs (when b c).
Proof. intros Hc. destruct b; [exact Hc | apply preserves_ret]. Qed.

End Preservation.

(** Walks a method body, one statement at a time; an assignment through
    [this.data] is admitted when the observation is blind to it by
    computation. *)
Ltac preserves_walk :=
  repeat first
    [ apply preserves_modify_data; intros ?; reflexivity
    | apply preserves_bind; [|intros ?]
    | apply preserves_ret
    | apply preserves_throw
    | apply preserves_read
    | apply preserves_outside
    | apply preserves_existsSync
    | apply preserves_readFileSync
    | apply preserves_writeFileSync
    | apply preserves_assign_encryptionKey
    | apply preserves_assign_isUnlocked
    | apply preserves_when
    | match goal with
      | |- preserves _ (match ?x with _ => _ end) => destruct x
      end ].

Section SaltFacts.
Context {R : Runtime}.

Lemma init_salt (passphrase : string) (st : State) :
  salt_of (snd (Vault.init passphrase st))
  = Some (Hex.encode (fst (randomBytes 16 (world st)))).
Proof. reflexivity. Qed.

Lemma addSecret_salt (secretData : SecretData.t) :
  preserves salt (Vault.addSecret secretData).
Proof.
  unfold Vault.addSecret, Vault._ensureUnlocked, Vault.encrypt_value,
    Vault.now_iso, Vault.save, modify_metadata.
  preserves_walk.
Qed.

Lemma getSecret_salt (id : string) : preserves salt (Vault.getSecret id).
Proof.
  unfold Vault.getSecret, Vault._ensureUnlocked, Vault.decrypt_value.
  preserves_walk.
Qed.

Lemma getSecretMeta_salt (id : string) : preserves salt (Vault.getSecretMeta id).
Proof. unfold Vault.getSecretMeta, Vault._ensureUnlocked. preserves_walk. Qed.

Lemma listSecrets_salt : preserves salt Vault.listSecrets.
Proof. unfold Vault.listSecrets, Vault._ensureUnlocked. preserves_walk. Qed.

Lemma updateSecret_salt (id : string) (u : Updates.t) :
  preserves salt (Vault.updateSecret id u).
Proof.
  unfold Vault.updateSecret, Vault._ensureUnlocked, Vault.encrypt_value,
    Vault.now_iso, Vault.save, modify_metadata, modify_secret.
  preserves_walk.
Qed.

Lemma deleteSecret_salt (id : string) : preserves salt (Vault.deleteSecret id).
Proof.
  unfold Vault.deleteSecret, Vault._ensureUnlocked, Vault.now_iso, Vault.save,
    modify_metadata.
  preserves_walk.
Qed.

Lemma searchSecrets_salt (query : string) :
  preserves salt (Vault.searchSecrets query).
Proof. unfold Vault.searchSecrets, Vault._ensureUnlocked. preserves_walk. Qed.

Lemma getSecretsByType_salt (type : string) :
  preserves salt (Vault.getSecretsByType type).
Proof. unfold Vault.getSecretsByType, Vault._ensureUnlocked. preserves_walk. Qed.

Lemma getExpiredSecrets_salt : preserves salt Vault.getExpiredSecrets.
Proof. unfold Vault.getExpiredSecrets, Vault._ensureUnlocked. preserves_walk. Qed.

Lemma exportVault_salt : preserves salt Vault.exportVault.
Proof. unfold Vault.exportVault, Vault._ensureUnlocked. preserves_walk. Qed.

Lemma lock_salt : preserves salt Vault.lock.
Proof. unfold Vault.lock. preserves_walk. Qed.

(** [importVault] ends in one of three ways. *)
Lemma importVault_cases (blob : string) (st : State) :
  (isUnlocked (this st) = false /\
   Vault.importVault blob st = (Throw VaultLocked, st)) \/
  (isUnlocked (this st) = true /\ JSON_parse blob = None /\
   Vault.importVault blob st = (Throw JsonSyntaxError, st)) \/
  (exists imported,
     isUnlocked (this st) = true /\ JSON_parse blob = Some imported /\
     Vault.importVault blob st
     = (Return "Secrets imported successfully",
        mkState
          (mkVault (vaultPath (this st)) imported (encryptionKey (this st)) true)
          (mkWorld (entropy (world st)) (clock (world st))
             (<[vaultPath (this st) := JSON_stringify imported]>
                (files (world st)))))).
Proof.
  destruct st as [[path d k unl] [ent clk fl]].
  destruct unl; [right | left; split; reflexivity].
  destruct (JSON_parse blob) as [imported|] eqn:E.
  - right. exists imported. repeat split. run_vault. rewrite E. reflexivity.
  - left. repeat split. run_vault. rewrite E. reflexivity.
Qed.

(** A successful [unlock] has read the data from the backing file. *)
Lemma unlock_loads (passphrase : string) (st st' : State) (msg : string) :
  Vault.unlock passphrase st = (Return msg, st') ->
  exists raw stored,
    persisted st = Some raw /\ JSON_parse raw = Some stored /\
    data (this st') = stored.
Proof.
  destruct st as [[path d k unl] [ent clk fl]]. run_vault.
  destruct (fl !! path) as [raw|] eqn:Hraw.
  - rewrite bool_decide_eq_true_2 by (eexists; reflexivity).
    run_vault. rewrite Hraw.
    destruct (JSON_parse raw) as [stored|] eqn:Hparse; [|discriminate].
    intros [= _ <-]. exists raw, stored. repeat split. exact Hparse.
  - rewrite bool_decide_eq_false_2 by (intros [? ?]; discriminate).
    discriminate.
Qed.

End SaltFacts.

(* ------------------------------------------------------------------------- *)
(** ** The salt *)

(** C3, as stated, fails: the sample vault got its salt from [init], and a
    later [importVault] of another vault's export succeeds and leaves the
    vault with the other salt. [importVault] assigns the parsed text to
    [this.data] whole. *)
Lemma importVault_replaces_salt :
  salt_of (snd (@Vault.init (Sample.runtime []) "pw1" (Sample.fresh 0 1000)))
    = Some "000102030405060708090a0b0c0d0e0f" /\
  salt_of sample_unlocked = Some "000102030405060708090a0b0c0d0e0f" /\
  fst (@Vault.importVault (Sample.runtime [foreign_data]) foreign_blob
         sample_unlocked)
    = Return "Secrets imported successfully" /\
  salt_of (snd (@Vault.importVault (Sample.runtime [foreign_data]) foreign_blob
                  sample_unlocked))
    = Some "ffffffffffffffffffffffffffffffff".
Proof. repeat split; reflexivity. Qed.

(** C3, amended. [init] sets the vault's [metadata.salt] to the salt it has
    just generated (16 random bytes in hexadecimal). None of [addSecret],
    [getSecret], [getSecretMeta], [listSecrets], [updateSecret],
    [deleteSecret], [searchSecrets], [getSecretsByType], [getExpiredSecrets],
    [exportVault] and [lock] changes it, however the call ends. An
    [importVault] that fails leaves the whole state as it was; one that
    succeeds replaces the vault's data, the salt included, with the data
    parsed from the imported text. A successful [unlock] leaves the vault with
    the data, and so the salt, parsed from the backing file. *)
Theorem salt_fixed_except_by_import {R : Runtime} :
  (forall passphrase st,
     salt_of (snd (Vault.init passphrase st))
     = Some (Hex.encode (fst (randomBytes 16 (world st))))) /\
  (forall secretData, preserves salt (Vault.addSecret secretData)) /\
  (forall id, preserves salt (Vault.getSecret id)) /\
  (forall id, preserves salt (Vault.getSecretMeta id)) /\
  preserves salt Vault.listSecrets /\
  (forall id updates, preserves salt (Vault.updateSecret id updates)) /\
  (forall id, preserves salt (Vault.deleteSecret id)) /\
  (forall query, preserves salt (Vault.searchSecrets query)) /\
  (forall type, preserves salt (Vault.getSecretsByType type)) /\
  preserves salt Vault.getExpiredSecrets /\
  preserves salt Vault.exportVault /\
  preserves salt Vault.lock /\
  (forall blob st e st',
     Vault.importVault blob st = (Throw e, st') -> st' = st) /\
  (forall blob st msg st',
     Vault.importVault blob st = (Return msg, st') ->
     exists imported,
       JSON_parse blob = Some imported /\ data (this st') = imported /\
       salt_of st' = salt imported) /\
  (forall passphrase st msg st',
     Vault.unlock passphrase st = (Return msg, st') ->
     exists raw stored,
       persisted st = Some raw /\ JSON_parse raw = Some stored /\
       data (this st') = stored /\ salt_of st' = salt stored).
Proof.
  split; [exact init_salt|].
  split; [exact addSecret_salt|].
  split; [exact getSecret_salt|].
  split; [exact getSecretMeta_salt|].
  split; [exact listSecrets_salt|].
  split; [exact updateSecret_salt|].
  split; [exact deleteSecret_salt|].
  split; [exact searchSecrets_salt|].
  split; [exact getSecretsByType_salt|].
  split; [exact getExpiredSecrets_salt|].
  split; [exact exportVault_salt|].
  split; [exact lock_salt|].
  split; [|split].
  - intros blob st e st' H.
    destruct (importVault_cases blob st)
      as [(_ & E) | [(_ & _ & E) | (imported & _ & _ & E)]];
      rewrite E in H; congruence.
  - intros blob st msg st' H.
    destruct (importVault_cases blob st)
      as [(_ & E) | [(_ & _ & E) | (imported & _ & Hparse & E)]];
      rewrite E in H; try discriminate.
    injection H as _ <-. exists imported. repeat split. exact Hparse.
  - intros passphrase st msg st' H.
    destruct (unlock_loads passphrase st st' msg H)
      as (raw & stored & Hraw & Hparse & Hdata).
    exists raw, stored. repeat split; try assumption.
    unfold salt_of, metadata_of. rewrite Hdata. reflexivity.
Qed.

(* ------------------------------------------------------------------------- *)
(** ** Export, then import *)




(* ------------------------------------------------------------------------- *)
(** ** Queries *)

Lemma prefix_spec (q s : string) :
  String.prefix q s = true <-> exists post, s = q ++ post.
Proof.
  revert s. induction q as [|a q IH]; intros s.
  - destruct s; cbn; split; eauto.
  - destruct s as [|b s]; cbn.
    + split; [discriminate|]. intros (post & H). discriminate.
    + destruct (ascii_dec a b) as [->|Hne].
      * rewrite IH. split.
        -- intros (post & ->). exists post. reflexivity.
        -- intros (post & [= ->]). exists post. reflexivity.
      * split; [discriminate|]. intros (post & [= H _]). congruence.
Qed.

(** [includes] is the substring test. *)
Lemma includes_spec (s q : string) :
  includes s q = true <-> exists pre post, s = pre ++ q ++ post.
Proof.
  induction s as [|c r IH]; cbn [includes]; rewrite orb_true_iff.
  - split.
    + intros [H|H]; [|discriminate].
      apply prefix_spec in H as (post & ->). exists "", post. reflexivity.
    + intros (pre & post & H). left. apply prefix_spec.
      destruct pre; [exists post; exact H | discriminate].
  - rewrite IH, prefix_spec. split.
    + intros [(post & ->) | (pre & post & ->)].
      * exists "", post. reflexivity.
      * exists (String c pre), post. reflexivity.
    + intros ([|c' pre] & post & H).
      * left. exists post. exact H.
      * right. injection H as _ ->. exists pre, post. reflexivity.
Qed.

(** Filtering by a test is filtering by the property the test decides. *)
Lemma filter_by_test {A} (f : A -> bool) (P : A -> Prop)
    `{forall x, Decision (P x)} (l : list A) :
  (forall x, f x = true <-> P x) -> List.filter f l = filter P l.
Proof.
  intros Hf. induction l as [|a l IH]; [reflexivity|].
  cbn [List.filter]. rewrite filter_cons, IH.
  destruct (decide (P a)) as [Ha|Ha], (f a) eqn:Fa; try reflexivity.
  - apply Hf in Ha. congruence.
  - apply Hf in Fa. contradiction.
Qed.

Section QueryFacts.
Context {R : Runtime}.

Lemma contains_ci_test (q s : string) :
  includes (toLowerCase s) (toLowerCase q) = true <-> contains_ci q s.
Proof. apply includes_spec. Qed.

#[global] Instance contains_ci_dec (q s : string) : Decision (contains_ci q s).
Proof.
  destruct (includes (toLowerCase s) (toLowerCase q)) eqn:E.
  - left. apply contains_ci_test, E.
  - right. intros H. apply contains_ci_test in H. congruence.
Defined.

#[global] Instance Matches_dec (query : string) (s : Secret.t) :
  Decision (Matches query s).
Proof. unfold Matches. apply _. Defined.

#[global] Instance Expired_dec (now : Z) (s : Secret.t) : Decision (Expired now s).
Proof.
  unfold Expired. destruct (Secret.expiresAt s) as [e|].
  - destruct (Date_parse e) as [t|] eqn:E.
    + destruct (decide (t <= now)%Z) as [Hle|Hgt].
      * left. exists e, t. repeat split; assumption.
      * right. intros (e' & t' & [= <-] & Ht & Hle).
        rewrite E in Ht. injection Ht as <-. contradiction.
    + right. intros (e' & t' & [= <-] & Ht & _). congruence.
  - right. intros (e' & t' & He & _). discriminate.
Defined.

Lemma matches_test (query : string) (s : Secret.t) :
  Vault.matches (toLowerCase query) s = true <-> Matches query s.
Proof.
  unfold Vault.matches, Matches, strip_value.
  cbn [SecretMeta.name SecretMeta.type SecretMeta.tags].
  rewrite !orb_true_iff, !contains_ci_test, existsb_exists, Exists_exists.
  split.
  - intros [[H|H]|(tag & Hin & H)]; [left | right; left | right; right]; auto.
    exists tag. split; [apply list_elem_of_In, Hin | apply contains_ci_test, H].
  - intros [H|[H|(tag & Hin & H)]]; [left; left | left; right | right]; auto.
    exists tag. split; [apply list_elem_of_In, Hin | apply contains_ci_test, H].
Qed.

Lemma expired_test (now : Z) (s : Secret.t) :
  Date_parse "" = None ->
  Vault.expired now s = true <-> Expired now s.
Proof.
  intros Hempty. unfold Vault.expired, Expired.
  destruct (Secret.expiresAt s) as [e|]; cbn [truthy negb default from_option id].
  - destruct (String.eqb_spec e "") as [->|Hne]; cbn [negb].
    + split; [discriminate|].
      intros (e' & t & [= <-] & Ht & _). congruence.
    + destruct (Date_parse e) as [t|] eqn:E.
      * rewrite Z.leb_le. split.
        -- intros Hle. exists e, t. repeat split; assumption.
        -- intros (e' & t' & [= <-] & Ht & Hle).
           rewrite E in Ht. injection Ht as <-. exact Hle.
      * split; [discriminate|].
        intros (e' & t' & [= <-] & Ht & _). congruence.
  - split; [discriminate|]. intros (e' & t' & He & _). discriminate.
Qed.

End QueryFacts.

(** C7. On an unlocked vault, for every query, [searchSecrets] returns, in
    the vault's order, exactly the records whose name, type or some tag
    contains the query when case is ignored, each without its [value], and
    changes nothing. *)
Theorem searchSecrets_exact {R : Runtime} (query : string) (st : State) :
  isUnlocked (this st) = true ->
  Vault.searchSecrets query st
  = (Return (strip_value <$> filter (Matches query) (secrets_of st)), st).
Proof.
  intros Hu. unfold Vault.searchSecrets.
  rewrite (bind_return _ _ tt st st (ensureUnlocked_unlocked st Hu)).
  unfold bind, read, ret. cbn [fst snd].
  rewrite (filter_by_test _ (Matches query)) by apply matches_test.
  reflexivity.
Qed.

Lemma searchSecrets_exact_witness :
  isUnlocked (this sample_unlocked) = true /\
  @Vault.searchSecrets (Sample.runtime []) "PROD" sample_unlocked
  = (Return (strip_value <$>
               filter (@Matches (Sample.runtime []) "PROD")
                 (secrets_of sample_unlocked)),
     sample_unlocked) /\
  fst (@Vault.searchSecrets (Sample.runtime []) "PROD" sample_unlocked)
  = Return [strip_value sample_record].
Proof.
  split; [reflexivity|]. split; [|reflexivity].
  apply (@searchSecrets_exact (Sample.runtime []) "PROD" sample_unlocked).
  reflexivity.
Defined.

(** C6. On an unlocked vault, whatever time the clock shows at the call,
    [getExpiredSecrets] returns, in the vault's order, exactly the records
    whose [expiresAt] is set and is a time not after that time, each without
    its [value]; it reads the clock once and changes nothing else. So no
    returned record is without [expiresAt], and a record whose [expiresAt] is
    a time before the call is returned. ([new Date('')] is an invalid
    date.) *)
Theorem getExpiredSecrets_exact {R : Runtime} (st : State) :
  isUnlocked (this st) = true ->
  Date_parse "" = None ->
  let now := clock (world st) 0 in
  let found := strip_value <$> filter (Expired now) (secrets_of st) in
  Vault.getExpiredSecrets st
  = (Return found, mkState (this st) (snd (Date_now (world st)))) /\
  (forall m, m ∈ found -> SecretMeta.expiresAt m <> None) /\
  (forall s e t,
     s ∈ secrets_of st -> Secret.expiresAt s = Some e ->
     Date_parse e = Some t -> (t < now)%Z -> strip_value s ∈ found).
Proof.
  intros Hu Hempty now found. split; [|split].
  - unfold Vault.getExpiredSecrets.
    rewrite (bind_return _ _ tt st st (ensureUnlocked_unlocked st Hu)).
    unfold bind, read, ret, outside. cbn [fst snd this Date_now].
    rewrite (filter_by_test _ (Expired now))
      by (intros x; apply expired_test, Hempty).
    reflexivity.
  - intros m Hm. apply list_elem_of_fmap in Hm as (s & -> & Hs).
    apply list_elem_of_filter in Hs as ((e & t & He & _) & _).
    cbn. rewrite He. discriminate.
  - intros s e t Hs He Ht Hlt. apply list_elem_of_fmap. exists s.
    split; [reflexivity|]. apply list_elem_of_filter. split; [|exact Hs].
    exists e, t. repeat split; [exact He | exact Ht | lia].
Qed.

Lemma getExpiredSecrets_exact_witness :
  isUnlocked (this sample_with_expired) = true /\
  @Date_parse (Sample.runtime []) "" = None /\
  @Vault.getExpiredSecrets (Sample.runtime []) sample_with_expired
  = (Return (strip_value <$>
               filter (@Expired (Sample.runtime []) 1008)
                 (secrets_of sample_with_expired)),
     mkState (this sample_with_expired)
       (snd (Date_now (world sample_with_expired)))) /\
  SecretMeta.name <$>
    (strip_value <$>
       filter (@Expired (Sample.runtime []) 1008) (secrets_of sample_with_expired))
  = ["old"] /\
  SecretMeta.name <$> (strip_value <$> secrets_of sample_with_expired)
  = ["db"; "old"].
Proof.
  split; [reflexivity|]. split; [reflexivity|].
  split; [|split; reflexivity].
  apply (@getExpiredSecrets_exact (Sample.runtime []) sample_with_expired
           eq_refl eq_refl).
Defined.

(* ------------------------------------------------------------------------- *)
(** ** The scenarios of the specification, run on the sample vault *)

(** [init], then [addSecret]: the call returns the plaintext and an id, and
    [getSecret] of that id returns the record with the plaintext. *)
Example scenario_add_then_get :
  fst (@Vault.addSecret (Sample.runtime []) sample_secret
         (snd (@Vault.init (Sample.runtime []) "pw1" (Sample.fresh 0 1000))))
  = Return (Added.mk sample_id "db" "password" "s3cr3t" None) /\
  fst (@Vault.getSecret (Sample.runtime []) sample_id sample_unlocked)
  = Return (Secret.set_value "s3cr3t" sample_record).
Proof. split; vm_compute; reflexivity. Qed.

(** [lock], then [getSecret] fails; [unlock] with the passphrase, then
    [getSecret] returns the same plaintext. *)
Example scenario_lock_then_unlock :
  fst (@Vault.getSecret (Sample.runtime []) sample_id sample_locked)
  = Throw VaultLocked /\
  fst (@Vault.getSecret (Sample.runtime [data (this sample_unlocked)]) sample_id
         (snd (@Vault.unlock (Sample.runtime [data (this sample_unlocked)]) "pw1"
                 sample_locked)))
  = Return (Secret.set_value "s3cr3t" sample_record).
Proof. split; vm_compute; reflexivity. Qed.

(** A record that has expired is listed by [getExpiredSecrets], and by
    [listSecrets] too; neither view has a [value]. *)
Example scenario_expired_and_listed :
  fst (@Vault.getExpiredSecrets (Sample.runtime []) sample_with_expired)
  = Return (strip_value <$>
              List.filter (fun s => String.eqb (Secret.name s) "old")
                (secrets_of sample_with_expired)) /\
  fst (Vault.listSecrets sample_with_expired)
  = Return (strip_value <$> secrets_of sample_with_expired) /\
  Secret.name <$> secrets_of sample_with_expired = ["db"; "old"].
Proof. split; [|split]; vm_compute; reflexivity. Qed.

(** [updateSecret] with a new value changes the hash, and [getSecret] then
    returns the new value. *)
Example scenario_update_value :
  Secret.valueHash <$>
    secrets_of (snd (@Vault.updateSecret (Sample.runtime []) sample_id
                       sample_updates sample_unlocked))
  = [@Crypto.hash (Sample.runtime []) "newval"] /\
  @Crypto.hash (Sample.runtime []) "newval" <> Secret.valueHash sample_record /\
  Secret.value
    <$> match fst (@Vault.getSecret (Sample.runtime []) sample_id
                     (snd (@Vault.updateSecret (Sample.runtime []) sample_id
                             sample_updates sample_unlocked))) with
        | Return r => Some r
        | Throw _ => None
        end
  = Some "newval".
Proof. split; [|split]; [vm_compute; reflexivity | discriminate | vm_compute; reflexivity]. Qed.

(* ========================================================================= *)
(** * Further properties *)

(* ------------------------------------------------------------------------- *)
(** ** Random tokens and ids *)

Lemma every_impl (p q : ascii -> bool) (s : string) :
  (forall c, p c = true -> q c = true) -> every p s = true -> every q s = true.
Proof.
  intros Hpq. induction s as [|c r IH]; cbn [every]; [reflexivity|].
  rewrite !andb_true_iff. intros [Hc Hr]. split; [apply Hpq, Hc | apply IH, Hr].
Qed.

Lemma url_unpadded_char (s : Base64.sextet) (r : string) :
  exists c, is_url_safe c = true /\
            url_unpadded (String (Base64.char s) r) = String c (url_unpadded r).
Proof.
  destruct s as [[[[[b5 b4] b3] b2] b1] b0].
  destruct b5, b4, b3, b2, b1, b0;
    (eexists; split; [|reflexivity]; reflexivity).
Qed.

Lemma url_unpadded_pad (r : string) :
  url_unpadded (String Base64.pad r) = url_unpadded r.
Proof. reflexivity. Qed.

(** The token made of some bytes: its characters and its length. *)
Lemma url_unpadded_encode (bs : list byte) :
  every is_url_safe (url_unpadded (Base64.encode bs)) = true /\
  String.length (url_unpadded (Base64.encode bs)) = (4 * length bs + 2) / 3.
Proof.
  induction bs as [|a|a b|a b c rest [IHe IHl]] using list_ind3.
  - split; reflexivity.
  - cbn [Base64.encode]. destruct (Base64.split3 a x00 x00) as [[[s1 s2] s3] s4].
    destruct (url_unpadded_char s1 (String (Base64.char s2)
                (String Base64.pad (String Base64.pad "")))) as (c1 & H1 & ->).
    destruct (url_unpadded_char s2 (String Base64.pad (String Base64.pad "")))
      as (c2 & H2 & ->).
    rewrite !url_unpadded_pad. cbn. rewrite H1, H2. split; reflexivity.
  - cbn [Base64.encode]. destruct (Base64.split3 a b x00) as [[[s1 s2] s3] s4].
    destruct (url_unpadded_char s1 (String (Base64.char s2)
                (String (Base64.char s3) (String Base64.pad ""))))
      as (c1 & H1 & ->).
    destruct (url_unpadded_char s2 (String (Base64.char s3) (String Base64.pad "")))
      as (c2 & H2 & ->).
    destruct (url_unpadded_char s3 (String Base64.pad "")) as (c3 & H3 & ->).
    rewrite !url_unpadded_pad. cbn. rewrite H1, H2, H3. split; reflexivity.
  - cbn [Base64.encode]. destruct (Base64.split3 a b c) as [[[s1 s2] s3] s4].
    destruct (url_unpadded_char s1 (String (Base64.char s2)
                (String (Base64.char s3) (String (Base64.char s4)
                   (Base64.encode rest))))) as (c1 & H1 & ->).
    destruct (url_unpadded_char s2 (String (Base64.char s3)
                (String (Base64.char s4) (Base64.encode rest))))
      as (c2 & H2 & ->).
    destruct (url_unpadded_char s3 (String (Base64.char s4) (Base64.encode rest)))
      as (c3 & H3 & ->).
    destruct (url_unpadded_char s4 (Base64.encode rest)) as (c4 & H4 & ->).
    cbn [every String.length length]. rewrite H1, H2, H3, H4, IHe, IHl.
    split; [reflexivity|].
    replace (4 * S (S (S (length rest))) + 2)
      with (4 * 3 + (4 * length rest + 2)) by lia.
    rewrite Nat.div_add_l by lia. lia.
Qed.

(** X1. [generateSecret(n)] returns a text of the URL-safe alphabet alone
    (letters, digits, [-] and [_]: no [+], [/] or [=]), and its length is
    that of [n] bytes in base64 without padding, that is 4n/3 rounded up:
    the argument counts bytes, not characters. *)
Theorem generateSecret_url_safe (n : nat) (w : World) :
  every is_url_safe (fst (Crypto.generateSecret n w)) = true /\
  String.length (fst (Crypto.generateSecret n w)) = (4 * n + 2) / 3 /\
  snd (Crypto.generateSecret n w) = snd (randomBytes n w).
Proof.
  assert (E : fst (Crypto.generateSecret n w)
              = url_unpadded (Base64.encode (fst (randomBytes n w))))
    by reflexivity.
  rewrite E. destruct (url_unpadded_encode (fst (randomBytes n w))) as [He Hl].
  rewrite He, Hl, randomBytes_length. repeat split.
Qed.


(* ------------------------------------------------------------------------- *)
(** ** More on the cipher and the key *)

Lemma hex_decode_byte (b : byte) (r : string) :
  Hex.decode (String (Hex.digit (Byte.to_N b / 16))
                (String (Hex.digit (Byte.to_N b mod 16)) r))
  = b :: Hex.decode r.
Proof. destruct b; reflexivity. Qed.

(** [Buffer.from(text, 'hex')] reads back what [toString('hex')] wrote. *)
Lemma hex_decode_encode (bs : list byte) : Hex.decode (Hex.encode bs) = bs.
Proof.
  induction bs as [|b rest IH]; [reflexivity|].
  cbn [Hex.encode]. rewrite hex_decode_byte, IH. reflexivity.
Qed.

Lemma hex_encode_length (bs : list byte) :
  String.length (Hex.encode bs) = 2 * length bs.
Proof.
  induction bs as [|b rest IH]; [reflexivity|].
  cbn [Hex.encode String.length length]. rewrite IH. lia.
Qed.

Lemma base64_encode_length (bs : list byte) :
  String.length (Base64.encode bs) = 4 * ((length bs + 2) / 3).
Proof.
  induction bs as [|a|a b|a b c rest IH] using list_ind3.
  - reflexivity.
  - cbn [Base64.encode]. destruct (Base64.split3 a x00 x00) as [[[s1 s2] s3] s4].
    reflexivity.
  - cbn [Base64.encode]. destruct (Base64.split3 a b x00) as [[[s1 s2] s3] s4].
    reflexivity.
  - cbn [Base64.encode]. destruct (Base64.split3 a b c) as [[[s1 s2] s3] s4].
    cbn [String.length length]. rewrite IH.
    replace (S (S (S (length rest))) + 2) with (1 * 3 + (length rest + 2)) by lia.
    rewrite Nat.div_add_l by lia. lia.
Qed.

Section CipherFacts.
Context {R : Runtime}.

Lemma ctr_run_length (key data : list byte) :
  forall (counter ks : list byte) (i : nat),
    length (Ctr.run key counter ks i data) = length data.
Proof.
  induction data as [|d rest IH]; intros counter ks i; cbn [Ctr.run];
    [reflexivity|].
  destruct (Nat.eqb i 16); cbn [length]; rewrite IH; reflexivity.
Qed.

Lemma decrypt_is_Some (ciphertext : string) (key : list byte) :
  is_Some (Crypto.decrypt ciphertext key)
  <-> 16 <= length (Base64.decode ciphertext).
Proof.
  unfold Crypto.decrypt, Bytes.slice_to, Crypto.ivLength.
  rewrite length_take.
  destruct (Nat.eqb_spec (16 `min` length (Base64.decode ciphertext)) 16)
    as [E|E].
  - split; [lia | eexists; reflexivity].
  - split; [intros [x Hx]; discriminate | lia].
Qed.

End CipherFacts.

(** X2. What [encrypt] returns is the base64 text of the 16 bytes of the IV
    followed by exactly as many bytes as the UTF-8 form of the plaintext has:
    the stored text shows the length of the secret, to the byte, whatever
    the key. *)
Theorem encrypt_shows_length {R : Runtime}
    (plaintext : string) (key : list byte) (w : World) :
  exists iv body : list byte,
    Base64.decode (fst (Crypto.encrypt plaintext key w)) = (iv ++ body)%list /\
    iv = fst (randomBytes 16 w) /\
    length iv = 16 /\
    length body = length (utf8_toBytes plaintext) /\
    String.length (fst (Crypto.encrypt plaintext key w))
    = 4 * ((16 + length (utf8_toBytes plaintext) + 2) / 3).
Proof.
  exists (fst (randomBytes 16 w)),
    (Ctr.encrypt key (fst (randomBytes 16 w)) (utf8_toBytes plaintext)).
  rewrite encrypt_unfold. cbn [fst]. unfold Crypto.ivLength.
  rewrite base64_decode_encode, base64_encode_length, length_app.
  unfold Ctr.encrypt. rewrite ctr_run_length, randomBytes_length.
  repeat split.
Qed.

(** X3. [decrypt] checks nothing but the sizes. For keys of a size that
    aes-js accepts, it returns a text exactly when the stored text decodes
    to at least 16 bytes, whatever the key; so what was encrypted under one
    key decrypts, without an error, under any other such key. *)
Theorem decrypt_accepts_any_key {R : Runtime}
    (ciphertext plaintext : string) (key key' : list byte) (w : World) :
  legal_key key -> legal_key key' ->
  (is_Some (Crypto.decrypt ciphertext key)
   <-> 16 <= length (Base64.decode ciphertext)) /\
  (is_Some (Crypto.decrypt ciphertext key)
   <-> is_Some (Crypto.decrypt ciphertext key')) /\
  is_Some (Crypto.decrypt (fst (Crypto.encrypt plaintext key w)) key').
Proof.
  intros _ _.
  split; [apply decrypt_is_Some|]. split; [rewrite !decrypt_is_Some; tauto|].
  apply decrypt_is_Some. rewrite encrypt_unfold. cbn [fst].
  rewrite base64_decode_encode, length_app, randomBytes_length.
  unfold Crypto.ivLength. lia.
Qed.

Lemma decrypt_accepts_any_key_witness :
  legal_key (Sample.stretch "pw1" [] Crypto.pbkdf2Iterations 32) /\
  legal_key (Sample.stretch "pw2" [] Crypto.pbkdf2Iterations 32) /\
  is_Some
    (@Crypto.decrypt (Sample.runtime [])
       (fst (@Crypto.encrypt (Sample.runtime []) "s3cr3t"
               (Sample.stretch "pw1" [] Crypto.pbkdf2Iterations 32)
               (Sample.world 0 0)))
       (Sample.stretch "pw2" [] Crypto.pbkdf2Iterations 32)).
Proof.
  assert (H1 : legal_key (Sample.stretch "pw1" [] Crypto.pbkdf2Iterations 32))
    by (right; right; reflexivity).
  assert (H2 : legal_key (Sample.stretch "pw2" [] Crypto.pbkdf2Iterations 32))
    by (right; right; reflexivity).
  split; [exact H1|]. split; [exact H2|].
  destruct (@decrypt_accepts_any_key (Sample.runtime []) "" "s3cr3t" _ _
              (Sample.world 0 0) H1 H2) as (_ & _ & Hother).
  exact Hother.
Defined.

(** X4. Called without a salt ([null], [undefined] or the empty string),
    [deriveKey] draws 16 random bytes, derives the key from those bytes, and
    returns them as 32 hexadecimal characters; called again with the salt it
    returned, for the same passphrase, it returns the same key and salt and
    draws nothing. *)
Theorem deriveKey_fresh_salt {R : Runtime}
    (passphrase : string) (salt : option string) (w : World) :
  truthy salt = false ->
  let r := Crypto.deriveKey passphrase salt w in
  snd (fst r) = Hex.encode (fst (randomBytes 16 w)) /\
  String.length (snd (fst r)) = 32 /\
  fst (fst r)
  = pbkdf2Sync passphrase (fst (randomBytes 16 w))
      Crypto.pbkdf2Iterations Crypto.keyLength /\
  snd r = snd (randomBytes 16 w) /\
  forall w', Crypto.deriveKey passphrase (Some (snd (fst r))) w' = (fst r, w').
Proof.
  intros Hsalt r.
  assert (Er : r = ((pbkdf2Sync passphrase
                       (Hex.decode (Hex.encode (fst (randomBytes 16 w))))
                       Crypto.pbkdf2Iterations Crypto.keyLength,
                     Hex.encode (fst (randomBytes 16 w))),
                    snd (randomBytes 16 w))).
  { subst r. unfold Crypto.deriveKey. rewrite Hsalt. reflexivity. }
  rewrite Er. cbn [fst snd].
  assert (Hlen : String.length (Hex.encode (fst (randomBytes 16 w))) = 32).
  { rewrite hex_encode_length, randomBytes_length. reflexivity. }
  split; [reflexivity|]. split; [exact Hlen|].
  split; [rewrite hex_decode_encode; reflexivity|]. split; [reflexivity|].
  intros w'. unfold Crypto.deriveKey.
  assert (Ht : truthy (Some (Hex.encode (fst (randomBytes 16 w)))) = true).
  { apply truthy_true. eexists. split; [reflexivity|].
    intros E. rewrite E in Hlen. discriminate. }
  rewrite Ht. reflexivity.
Qed.

Lemma deriveKey_fresh_salt_witness :
  truthy (Some "") = false /\
  snd (fst (@Crypto.deriveKey (Sample.runtime []) "pw1" (Some "")
              (Sample.world 0 0)))
  = "000102030405060708090a0b0c0d0e0f" /\
  @Crypto.deriveKey (Sample.runtime []) "pw1"
    (Some (snd (fst (@Crypto.deriveKey (Sample.runtime []) "pw1" (Some "")
                       (Sample.world 0 0)))))
    (Sample.world 99 0)
  = (fst (@Crypto.deriveKey (Sample.runtime []) "pw1" (Some "")
            (Sample.world 0 0)),
     Sample.world 99 0).
Proof.
  destruct (@deriveKey_fresh_salt (Sample.runtime []) "pw1" (Some "")
              (Sample.world 0 0) eq_refl) as (Hs & _ & _ & _ & Hagain).
  split; [reflexivity|]. split; [reflexivity|]. apply Hagain.
Defined.


(* ------------------------------------------------------------------------- *)
(** ** Each method, run *)

(** As [run_vault], for every method. *)
Ltac run_method :=
  cbv beta iota zeta delta
    [Vault.init Vault.unlock Vault.load Vault.lock Vault.addSecret
     Vault.getSecret Vault.getSecretMeta Vault.listSecrets Vault.updateSecret
     Vault.deleteSecret Vault.searchSecrets Vault.getSecretsByType
     Vault.getExpiredSecrets Vault.exportVault Vault.importVault
     Vault._ensureUnlocked Vault.now_iso Vault.save Vault.encrypt_value
     Vault.decrypt_value
     bind ret throw read when outside Date_now
     modify_secret modify_metadata modify_data
     assign_data assign_encryptionKey assign_isUnlocked
     writeFileSync readFileSync existsSync
     secrets_of metadata_of salt_of persisted salt
     after_add new_secret after_delete after_init after_unlock id_of_token
     VaultData.set_secrets VaultData.set_metadata
     Metadata.set_updatedAt Metadata.set_createdAt Metadata.set_salt
     VaultData.version VaultData.secrets VaultData.metadata
     Metadata.createdAt Metadata.updatedAt Metadata.salt
     this world vaultPath data encryptionKey isUnlocked entropy clock files
     fst snd negb].

Section MethodFacts.
Context {R : Runtime}.

Lemma addSecret_unlocked (sd : SecretData.t) (st : State) :
  isUnlocked (this st) = true ->
  is_Some (encryptionKey (this st)) ->
  Vault.addSecret sd st
  = (Return (Added.mk (Secret.id (new_secret sd st)) (SecretData.name sd)
               (or_default (SecretData.type sd) "generic")
               (SecretData.value sd) (or_null (SecretData.expiresAt sd))),
     after_add sd st).
Proof.
  intros Hu [key Hk].
  destruct st as [[path [ver secs meta] k unl] [ent clk fl]].
  cbn in Hu, Hk. subst unl k. reflexivity.
Qed.

Lemma deleteSecret_found (id : string) (st : State) (i : nat) :
  isUnlocked (this st) = true ->
  findIndex (Vault.has_id id) (secrets_of st) = Some i ->
  Vault.deleteSecret id st
  = (Return "Secret deleted successfully", after_delete i st).
Proof.
  intros Hu Hi.
  destruct st as [[path [ver secs meta] k unl] [ent clk fl]].
  cbn in Hu, Hi. subst unl. run_method. rewrite Hi. reflexivity.
Qed.

Lemma init_runs (passphrase : string) (st : State) :
  Vault.init passphrase st
  = (Return "Secrets vault initialized successfully", after_init passphrase st).
Proof.
  destruct st as [[path [ver secs [c u s]] k unl] [ent clk fl]]. reflexivity.
Qed.

Lemma unlock_runs (passphrase : string) (st : State) :
  Vault.unlock passphrase st
  = match persisted st with
    | None => (Throw VaultMissing, st)
    | Some raw =>
        match JSON_parse raw with
        | None => (Throw JsonSyntaxError, st)
        | Some stored =>
            (Return "Vault unlocked successfully",
             after_unlock passphrase stored st)
        end
    end.
Proof.
  destruct st as [[path d k unl] [ent clk fl]]. run_method.
  destruct (fl !! path) as [raw|] eqn:Hraw.
  - rewrite bool_decide_eq_true_2 by (eexists; reflexivity).
    run_method. rewrite Hraw.
    destruct (JSON_parse raw) as [stored|]; reflexivity.
  - rewrite bool_decide_eq_false_2 by (intros [? ?]; discriminate).
    reflexivity.
Qed.

(** [find] and [findIndex] agree. *)
Lemma find_findIndex {A} (f : A -> bool) (l : list A) :
  List.find f l = match findIndex f l with
                  | Some i => l !! i
                  | None => None
                  end.
Proof.
  induction l as [|a l IH]; [reflexivity|]. cbn [List.find findIndex].
  destruct (f a); [reflexivity|]. rewrite IH.
  destruct (findIndex f l); reflexivity.
Qed.

Lemma findIndex_None {A} (f : A -> bool) (l : list A) :
  findIndex f l = None <-> forall x, x ∈ l -> f x = false.
Proof.
  induction l as [|a l IH]; cbn [findIndex].
  - split; [intros _ x Hx; inversion Hx | reflexivity].
  - destruct (f a) eqn:Fa.
    + split; [discriminate|]. intros H. specialize (H a (list_elem_of_here a l)).
      congruence.
    + destruct (findIndex f l) as [k|] eqn:E; cbn.
      * split; [discriminate|]. intros H.
        assert (Some k = None) by (apply IH; intros x Hx; apply H;
                                   apply list_elem_of_further, Hx).
        discriminate.
      * split; [|reflexivity]. intros _ x Hx.
        apply elem_of_cons in Hx as [->|Hx]; [exact Fa|].
        apply (proj1 IH eq_refl x Hx).
Qed.

Lemma find_first_with_id (id : string) (l : list Secret.t) (i : nat) (s : Secret.t) :
  first_with_id id l i s -> List.find (Vault.has_id id) l = Some s.
Proof.
  intros H. rewrite find_findIndex, (findIndex_first_with_id _ _ _ _ H).
  apply H.
Qed.

Lemma getSecret_found (id : string) (st : State) (s : Secret.t) :
  isUnlocked (this st) = true ->
  List.find (Vault.has_id id) (secrets_of st) = Some s ->
  Vault.getSecret id st
  = (match encryptionKey (this st) with
     | Some key =>
         match Crypto.decrypt (Secret.value s) key with
         | Some plaintext => Return (Secret.set_value plaintext s)
         | None => Throw CipherError
         end
     | None => Throw CipherError
     end, st).
Proof.
  intros Hu Hf. destruct st as [[path [ver secs meta] k unl] w].
  cbn in Hu, Hf. subst unl. run_method. rewrite Hf. destruct k as [key|]; [|reflexivity].
  destruct (Crypto.decrypt (Secret.value s) key); reflexivity.
Qed.

End MethodFacts.


(* ------------------------------------------------------------------------- *)
(** ** [init] and [unlock] *)

(** X5. [init] does not look for a vault that is there already. Whenever
    it returns, it has derived a key from the passphrase and 16 fresh random
    bytes, stored those bytes as the salt, unlocked the vault and written the
    backing file anew: what a file at the path held before is gone (no other
    file is touched). The records the object holds are kept as they are. *)
Theorem init_overwrites {R : Runtime}
    (passphrase msg : string) (st st' : State) :
  Vault.init passphrase st = (Return msg, st') ->
  isUnlocked (this st') = true /\
  encryptionKey (this st')
  = Some (pbkdf2Sync passphrase (fst (randomBytes 16 (world st)))
            Crypto.pbkdf2Iterations Crypto.keyLength) /\
  salt_of st' = Some (Hex.encode (fst (randomBytes 16 (world st)))) /\
  secrets_of st' = secrets_of st /\
  persisted st' = Some (JSON_stringify (data (this st'))) /\
  (forall path, path <> vaultPath (this st) ->
     files (world st') !! path = files (world st) !! path).
Proof.
  rewrite init_runs. intros [= _ <-].
  unfold after_init, salt_of, metadata_of, secrets_of, persisted.
  cbn [this world data isUnlocked encryptionKey vaultPath files
       VaultData.metadata VaultData.secrets Metadata.salt].
  assert (E : Crypto.deriveKey passphrase None (world st)
              = ((pbkdf2Sync passphrase
                    (Hex.decode (Hex.encode (fst (randomBytes 16 (world st)))))
                    Crypto.pbkdf2Iterations Crypto.keyLength,
                  Hex.encode (fst (randomBytes 16 (world st)))),
                 snd (randomBytes 16 (world st)))) by reflexivity.
  rewrite E, hex_decode_encode. cbn [fst snd].
  split; [reflexivity|]. split; [reflexivity|].
  split; [reflexivity|]. split; [reflexivity|].
  split; [apply lookup_insert_eq|].
  intros path Hne. apply lookup_insert_ne. congruence.
Qed.

Lemma init_overwrites_witness :
  salt_of sample_locked = Some "000102030405060708090a0b0c0d0e0f" /\
  persisted sample_locked = Some (Sample.stringify (data (this sample_locked))) /\
  exists (msg : string) (st' : State),
    @Vault.init (Sample.runtime []) "pw2" sample_locked = (Return msg, st') /\
    salt_of st' = Some "303132333435363738393a3b3c3d3e3f" /\
    persisted st' = Some (Sample.stringify (data (this st'))).
Proof.
  split; [vm_compute; reflexivity|]. split; [vm_compute; reflexivity|].
  pose proof (@init_runs (Sample.runtime []) "pw2" sample_locked) as Hrun.
  destruct (@init_overwrites (Sample.runtime []) "pw2" _ sample_locked _ Hrun)
    as (_ & _ & Hsalt & _ & Hfile & _).
  eexists. eexists. split; [exact Hrun|]. split; [|exact Hfile].
  rewrite Hsalt. vm_compute. reflexivity.
Defined.

(** X6. [unlock] fails, and changes nothing, when there is no backing file
    (the vault-missing error) and when the file is not a text that
    [JSON.parse] reads (its syntax error). *)
Theorem unlock_fails_unchanged {R : Runtime} (passphrase : string) (st : State) :
  persisted st = None \/
  (exists raw, persisted st = Some raw /\ JSON_parse raw = None) ->
  exists e : Error,
    Vault.unlock passphrase st = (Throw e, st) /\
    (e = VaultMissing <-> persisted st = None).
Proof.
  rewrite unlock_runs. intros [H | (raw & H & Hparse)]; rewrite H.
  - exists VaultMissing. split; [reflexivity | tauto].
  - rewrite Hparse. exists JsonSyntaxError.
    split; [reflexivity|]. split; discriminate.
Qed.

Lemma unlock_fails_unchanged_witness :
  persisted (Sample.fresh 0 0) = None /\
  exists e : Error,
    @Vault.unlock (Sample.runtime []) "pw1" (Sample.fresh 0 0)
    = (Throw e, Sample.fresh 0 0) /\
    (e = VaultMissing <-> persisted (Sample.fresh 0 0) = None).
Proof.
  split; [reflexivity|].
  apply (@unlock_fails_unchanged (Sample.runtime []) "pw1" (Sample.fresh 0 0)).
  left. reflexivity.
Defined.

(** X7. [unlock] never checks the passphrase: whenever the backing file
    holds the text of a vault's data, as [save] writes it, and [JSON.parse]
    reads the data from it, [unlock] succeeds for every passphrase, takes
    the data read as the vault's data, and holds the key that this
    passphrase gives with the stored salt. With such a key [getSecret] does
    not fail either: for a record whose stored value decodes to 16 bytes or
    more it returns a text, right or wrong. *)
Theorem unlock_accepts_any_passphrase {R : Runtime}
    (passphrase : string) (written stored : VaultData.t) (st : State) :
  persisted st = Some (JSON_stringify written) ->
  JSON_parse (JSON_stringify written) = Some stored ->
  exists st' : State,
    Vault.unlock passphrase st = (Return "Vault unlocked successfully", st') /\
    isUnlocked (this st') = true /\
    data (this st') = stored /\
    encryptionKey (this st')
    = Some (fst (fst (Crypto.deriveKey passphrase (salt stored) (world st)))) /\
    files (world st') = files (world st) /\
    forall id s,
      List.find (Vault.has_id id) (VaultData.secrets stored) = Some s ->
      16 <= length (Base64.decode (Secret.value s)) ->
      exists text, Vault.getSecret id st' = (Return (Secret.set_value text s), st').
Proof.
  intros Hraw Hparse. exists (after_unlock passphrase stored st).
  rewrite unlock_runs, Hraw, Hparse. split; [reflexivity|].
  split; [reflexivity|]. split; [reflexivity|]. split; [reflexivity|].
  split.
  { unfold after_unlock, Crypto.deriveKey. cbn [world snd].
    destruct (truthy (salt stored)); reflexivity. }
  intros id s Hfind Hlen.
  rewrite (getSecret_found id (after_unlock passphrase stored st) s
             eq_refl Hfind).
  cbn [after_unlock this encryptionKey].
  destruct (proj2 (decrypt_is_Some (Secret.value s)
              (fst (fst (Crypto.deriveKey passphrase (salt stored) (world st)))))
              Hlen) as [text ->].
  exists text. reflexivity.
Qed.

Lemma unlock_accepts_any_passphrase_witness :
  persisted sample_locked
  = Some (Sample.stringify (data (this sample_unlocked))) /\
  @JSON_parse (Sample.runtime [data (this sample_unlocked)])
    (Sample.stringify (data (this sample_unlocked)))
  = Some (data (this sample_unlocked)) /\
  exists st' : State,
    @Vault.unlock (Sample.runtime [data (this sample_unlocked)])
      "not the passphrase" sample_locked
    = (Return "Vault unlocked successfully", st') /\
    isUnlocked (this st') = true /\
    data (this st') = data (this sample_unlocked).
Proof.
  assert (H1 : persisted sample_locked
               = Some (Sample.stringify (data (this sample_unlocked))))
    by (vm_compute; reflexivity).
  assert (H2 : @JSON_parse (Sample.runtime [data (this sample_unlocked)])
                 (Sample.stringify (data (this sample_unlocked)))
               = Some (data (this sample_unlocked)))
    by (vm_compute; reflexivity).
  split; [exact H1|]. split; [exact H2|].
  destruct (@unlock_accepts_any_passphrase
              (Sample.runtime [data (this sample_unlocked)])
              "not the passphrase" (data (this sample_unlocked)) _
              sample_locked H1 H2)
    as (st' & Hrun & Hu & Hd & _).
  exists st'. split; [exact Hrun|]. split; [exact Hu | exact Hd].
Defined.


(* ------------------------------------------------------------------------- *)
(** ** Lookups that miss, and methods that only read *)

Section LookupFacts.
Context {R : Runtime}.

Lemma find_None_no_id (id : string) (l : list Secret.t) :
  (forall s, s ∈ l -> Secret.id s <> id) ->
  findIndex (Vault.has_id id) l = None /\ List.find (Vault.has_id id) l = None.
Proof.
  intros H.
  assert (E : findIndex (Vault.has_id id) l = None).
  { apply findIndex_None. intros s Hs. apply has_id_false, H, Hs. }
  split; [exact E|]. rewrite find_findIndex, E. reflexivity.
Qed.

Lemma getSecret_reads (id : string) (st : State) :
  snd (Vault.getSecret id st) = st.
Proof.
  destruct st as [[path [ver secs meta] k unl] w]. run_method.
  destruct unl; [|reflexivity]. cbn [negb]. run_method.
  destruct (List.find (Vault.has_id id) secs) as [s|]; [|reflexivity].
  destruct k as [key|]; [|reflexivity].
  destruct (Crypto.decrypt (Secret.value s) key); reflexivity.
Qed.

Lemma getSecretMeta_reads (id : string) (st : State) :
  snd (Vault.getSecretMeta id st) = st.
Proof.
  destruct st as [[path [ver secs meta] k unl] w]. run_method.
  destruct unl; [|reflexivity]. cbn [negb]. run_method.
  destruct (List.find (Vault.has_id id) secs) as [s|]; reflexivity.
Qed.

Lemma listSecrets_reads (st : State) : snd (Vault.listSecrets st) = st.
Proof. destruct st as [[path d k unl] w]. destruct unl; reflexivity. Qed.

Lemma searchSecrets_reads (query : string) (st : State) :
  snd (Vault.searchSecrets query st) = st.
Proof. destruct st as [[path d k unl] w]. destruct unl; reflexivity. Qed.

Lemma getSecretsByType_reads (type : string) (st : State) :
  snd (Vault.getSecretsByType type st) = st.
Proof. destruct st as [[path d k unl] w]. destruct unl; reflexivity. Qed.

Lemma exportVault_reads (st : State) : snd (Vault.exportVault st) = st.
Proof. destruct st as [[path d k unl] w]. destruct unl; reflexivity. Qed.

Lemma getExpiredSecrets_reads (st : State) :
  snd (Vault.getExpiredSecrets st)
  = (if isUnlocked (this st)
     then mkState (this st) (snd (Date_now (world st)))
     else st).
Proof. destruct st as [[path d k unl] w]. destruct unl; reflexivity. Qed.

Lemma getSecret_missing (id : string) (st : State) :
  isUnlocked (this st) = true ->
  List.find (Vault.has_id id) (secrets_of st) = None ->
  Vault.getSecret id st = (Throw SecretNotFound, st).
Proof.
  intros Hu Hf. destruct st as [[path [ver secs meta] k unl] w].
  cbn in Hu, Hf. subst unl. run_method. rewrite Hf. reflexivity.
Qed.

Lemma getSecretMeta_missing (id : string) (st : State) :
  isUnlocked (this st) = true ->
  List.find (Vault.has_id id) (secrets_of st) = None ->
  Vault.getSecretMeta id st = (Throw SecretNotFound, st).
Proof.
  intros Hu Hf. destruct st as [[path [ver secs meta] k unl] w].
  cbn in Hu, Hf. subst unl. run_method. rewrite Hf. reflexivity.
Qed.

Lemma updateSecret_missing (id : string) (u : Updates.t) (st : State) :
  isUnlocked (this st) = true ->
  findIndex (Vault.has_id id) (secrets_of st) = None ->
  Vault.updateSecret id u st = (Throw SecretNotFound, st).
Proof.
  intros Hu Hi. destruct st as [[path [ver secs meta] k unl] w].
  cbn in Hu, Hi. subst unl. run_method. rewrite Hi. reflexivity.
Qed.

Lemma deleteSecret_missing (id : string) (st : State) :
  isUnlocked (this st) = true ->
  findIndex (Vault.has_id id) (secrets_of st) = None ->
  Vault.deleteSecret id st = (Throw SecretNotFound, st).
Proof.
  intros Hu Hi. destruct st as [[path [ver secs meta] k unl] w].
  cbn in Hu, Hi. subst unl. run_method. rewrite Hi. reflexivity.
Qed.

End LookupFacts.

(** X8. On an unlocked vault, for an id that no record has, [getSecret],
    [getSecretMeta], [updateSecret] and [deleteSecret] each throw the
    not-found error and change nothing: no field is written, no time stamp
    moves, the file is not rewritten. *)
Theorem unknown_id_not_found {R : Runtime} (id : string) (st : State) :
  isUnlocked (this st) = true ->
  (forall s, s ∈ secrets_of st -> Secret.id s <> id) ->
  Vault.getSecret id st = (Throw SecretNotFound, st) /\
  Vault.getSecretMeta id st = (Throw SecretNotFound, st) /\
  (forall updates, Vault.updateSecret id updates st = (Throw SecretNotFound, st)) /\
  Vault.deleteSecret id st = (Throw SecretNotFound, st).
Proof.
  intros Hu Hnone. destruct (find_None_no_id id _ Hnone) as [Hi Hf].
  split; [apply getSecret_missing; assumption|].
  split; [apply getSecretMeta_missing; assumption|].
  split; [intros; apply updateSecret_missing; assumption|].
  apply deleteSecret_missing; assumption.
Qed.

Lemma unknown_id_not_found_witness :
  isUnlocked (this sample_unlocked) = true /\
  @Vault.getSecret (Sample.runtime []) "nosuchid" sample_unlocked
  = (Throw SecretNotFound, sample_unlocked) /\
  @Vault.deleteSecret (Sample.runtime []) "nosuchid" sample_unlocked
  = (Throw SecretNotFound, sample_unlocked).
Proof.
  assert (H : forall s, s ∈ secrets_of sample_unlocked -> Secret.id s <> "nosuchid").
  { intros s Hs. rewrite sample_unlocked_secrets in Hs.
    apply list_elem_of_singleton in Hs as ->. discriminate. }
  destruct (@unknown_id_not_found (Sample.runtime []) "nosuchid" sample_unlocked
              eq_refl H) as (Hget & _ & _ & Hdelete).
  split; [reflexivity|]. split; [exact Hget | exact Hdelete].
Defined.

(** X9. The methods that answer a question write nothing. Whether they
    return or throw, [getSecret], [getSecretMeta], [listSecrets],
    [searchSecrets], [getSecretsByType] and [exportVault] end in the state
    they started from; [getExpiredSecrets] takes one reading of the clock
    and leaves the vault object, the entropy and the files as they were. *)
Theorem queries_write_nothing {R : Runtime} (st : State) :
  (forall id, snd (Vault.getSecret id st) = st) /\
  (forall id, snd (Vault.getSecretMeta id st) = st) /\
  snd (Vault.listSecrets st) = st /\
  (forall query, snd (Vault.searchSecrets query st) = st) /\
  (forall type, snd (Vault.getSecretsByType type st) = st) /\
  snd (Vault.exportVault st) = st /\
  this (snd (Vault.getExpiredSecrets st)) = this st /\
  entropy (world (snd (Vault.getExpiredSecrets st))) = entropy (world st) /\
  files (world (snd (Vault.getExpiredSecrets st))) = files (world st).
Proof.
  split; [intros; apply getSecret_reads|].
  split; [intros; apply getSecretMeta_reads|].
  split; [apply listSecrets_reads|].
  split; [intros; apply searchSecrets_reads|].
  split; [intros; apply getSecretsByType_reads|].
  split; [apply exportVault_reads|].
  rewrite getExpiredSecrets_reads.
  destruct (isUnlocked (this st)); repeat split.
Qed.


(* ------------------------------------------------------------------------- *)
(** ** What a successful call has done *)

Section Returns.
Context {R : Runtime}.

Lemma addSecret_returns (sd : SecretData.t) (st st' : State) (a : Added.t) :
  Vault.addSecret sd st = (Return a, st') ->
  isUnlocked (this st) = true /\ is_Some (encryptionKey (this st)) /\
  st' = after_add sd st.
Proof.
  destruct (isUnlocked (this st)) eqn:Hu.
  - destruct (encryptionKey (this st)) as [key|] eqn:Hk.
    + rewrite addSecret_unlocked by (rewrite ?Hk; eauto). intros [= _ <-].
      repeat split; eauto.
    + destruct st as [[path [ver secs meta] k unl] [ent clk fl]].
      cbn in Hu, Hk. subst unl k. discriminate.
  - unfold Vault.addSecret. rewrite (bind_throw _ _ VaultLocked st st)
      by (apply ensureUnlocked_locked, Hu). discriminate.
Qed.

Lemma updateSecret_returns (id : string) (u : Updates.t) (st st' : State)
    (msg : string) :
  Vault.updateSecret id u st = (Return msg, st') ->
  exists i : nat,
    isUnlocked (this st) = true /\
    findIndex (Vault.has_id id) (secrets_of st) = Some i /\
    st' = after_update u i st.
Proof.
  destruct (isUnlocked (this st)) eqn:Hu.
  - destruct (findIndex (Vault.has_id id) (secrets_of st)) as [i|] eqn:Hi.
    + destruct (truthy (Updates.value u)) eqn:Hv.
      * destruct (encryptionKey (this st)) as [key|] eqn:Hk.
        -- rewrite (updateSecret_found id u st i Hu) by (rewrite ?Hk; eauto).
           intros [= _ <-]. exists i. repeat split.
        -- destruct st as [[path [ver secs meta] k unl] [ent clk fl]].
           destruct u as [n t v e m tg nt].
           cbn in Hu, Hk, Hi, Hv. subst unl k. run_vault. rewrite Hi, Hv.
           destruct (truthy n), (truthy t); discriminate.
      * rewrite (updateSecret_found id u st i Hu) by (rewrite ?Hv; eauto; discriminate).
        intros [= _ <-]. exists i. repeat split.
    + destruct st as [[path [ver secs meta] k unl] [ent clk fl]].
      cbn in Hu, Hi. subst unl. run_vault. rewrite Hi. discriminate.
  - unfold Vault.updateSecret. rewrite (bind_throw _ _ VaultLocked st st)
      by (apply ensureUnlocked_locked, Hu). discriminate.
Qed.

Lemma deleteSecret_returns (id : string) (st st' : State) (msg : string) :
  Vault.deleteSecret id st = (Return msg, st') ->
  exists i : nat,
    isUnlocked (this st) = true /\
    findIndex (Vault.has_id id) (secrets_of st) = Some i /\
    st' = after_delete i st.
Proof.
  destruct (isUnlocked (this st)) eqn:Hu.
  - destruct (findIndex (Vault.has_id id) (secrets_of st)) as [i|] eqn:Hi.
    + rewrite (deleteSecret_found id st i Hu Hi). intros [= _ <-].
      exists i. repeat split.
    + destruct st as [[path [ver secs meta] k unl] [ent clk fl]].
      cbn in Hu, Hi. subst unl. run_vault. rewrite Hi. discriminate.
  - unfold Vault.deleteSecret. rewrite (bind_throw _ _ VaultLocked st st)
      by (apply ensureUnlocked_locked, Hu). discriminate.
Qed.

Lemma after_add_saved (sd : SecretData.t) (st : State) : saved (after_add sd st).
Proof. apply lookup_insert_eq. Qed.

Lemma after_update_saved (u : Updates.t) (i : nat) (st : State) :
  saved (after_update u i st).
Proof. apply lookup_insert_eq. Qed.

Lemma after_delete_saved (i : nat) (st : State) : saved (after_delete i st).
Proof. apply lookup_insert_eq. Qed.

Lemma after_init_saved (passphrase : string) (st : State) :
  saved (after_init passphrase st).
Proof. apply lookup_insert_eq. Qed.

End Returns.

(** X10. Every call that changes the vault's data and returns has written
    the backing file: after a successful [init], [addSecret], [updateSecret],
    [deleteSecret] or [importVault] the file holds the text of the data that
    the object now holds. *)
Theorem successful_change_is_saved {R : Runtime} (st st' : State) :
  (forall passphrase msg,
     Vault.init passphrase st = (Return msg, st') -> saved st') /\
  (forall secretData added,
     Vault.addSecret secretData st = (Return added, st') -> saved st') /\
  (forall id updates msg,
     Vault.updateSecret id updates st = (Return msg, st') -> saved st') /\
  (forall id msg,
     Vault.deleteSecret id st = (Return msg, st') -> saved st') /\
  (forall blob msg,
     Vault.importVault blob st = (Return msg, st') -> saved st').
Proof.
  split; [|split; [|split; [|split]]].
  - intros p msg. rewrite init_runs. intros [= _ <-]. apply after_init_saved.
  - intros sd a H. apply addSecret_returns in H as (_ & _ & ->).
    apply after_add_saved.
  - intros id u msg H. apply updateSecret_returns in H as (i & _ & _ & ->).
    apply after_update_saved.
  - intros id msg H. apply deleteSecret_returns in H as (i & _ & _ & ->).
    apply after_delete_saved.
  - intros blob msg H.
    destruct (importVault_cases blob st) as [(_ & E) | [(_ & _ & E) | (d & _ & _ & E)]];
      rewrite E in H; try discriminate.
    injection H as _ <-. apply lookup_insert_eq.
Qed.

Lemma successful_change_is_saved_witness :
  isUnlocked (this sample_unlocked) = true /\
  @saved (Sample.runtime []) sample_with_expired.
Proof.
  split; [reflexivity|].
  assert (Hk : is_Some (encryptionKey (this sample_unlocked)))
    by (vm_compute; eexists; reflexivity).
  pose proof (@addSecret_unlocked (Sample.runtime []) old_secret
                sample_unlocked eq_refl Hk) as H.
  eapply (proj1 (proj2 (@successful_change_is_saved (Sample.runtime [])
                          sample_unlocked sample_with_expired))).
  unfold sample_with_expired. rewrite H. reflexivity.
Defined.

(* ------------------------------------------------------------------------- *)
(** ** A session on an opened vault *)

Section SessionFacts.
Context {R : Runtime}.

Lemma hex_encode_nonempty (bs : list byte) :
  bs <> [] -> Hex.encode bs <> "".
Proof. destruct bs; [congruence | discriminate]. Qed.

Lemma opened_after_init (passphrase : string) (st : State) :
  opened passphrase (after_init passphrase st).
Proof.
  split; [reflexivity|]. split; [apply after_init_saved|].
  exists (Hex.encode (fst (randomBytes 16 (world st)))).
  split; [reflexivity|]. split.
  - apply hex_encode_nonempty. intros E.
    pose proof (randomBytes_length 16 (world st)) as Hlen.
    rewrite E in Hlen. discriminate.
  - reflexivity.
Qed.

(** A state that differs from an opened one in the records, in the vault's
    [updatedAt] and in the world, and is saved, is opened. *)
Lemma opened_transfer (passphrase : string) (st st' : State) :
  opened passphrase st ->
  isUnlocked (this st') = isUnlocked (this st) ->
  encryptionKey (this st') = encryptionKey (this st) ->
  salt_of st' = salt_of st ->
  saved st' ->
  opened passphrase st'.
Proof.
  intros (Hu & _ & s & Hs & Hne & Hk) Eu Ek Es Hsaved.
  split; [congruence|]. split; [exact Hsaved|].
  exists s. repeat split; congruence.
Qed.

Lemma opened_perform (passphrase : string) (c : DataCall) (st : State) :
  opened passphrase st -> opened passphrase (perform c st).
Proof.
  intros Hop. pose proof Hop as (Hu & Hsaved & s & Hs & Hne & Hk).
  destruct c as [sd|id|id| |id u|id|q|t| |]; cbn [perform].
  - rewrite addSecret_unlocked by (rewrite ?Hk; eauto). cbn [snd].
    apply (opened_transfer passphrase st); try reflexivity; [exact Hop|].
    apply after_add_saved.
  - rewrite getSecret_reads. exact Hop.
  - rewrite getSecretMeta_reads. exact Hop.
  - rewrite listSecrets_reads. exact Hop.
  - destruct (findIndex (Vault.has_id id) (secrets_of st)) as [i|] eqn:Hi.
    + rewrite (updateSecret_found id u st i Hu) by (rewrite ?Hk; eauto).
      cbn [snd].
      apply (opened_transfer passphrase st); try reflexivity; [exact Hop|].
      apply after_update_saved.
    + rewrite updateSecret_missing by assumption. exact Hop.
  - destruct (findIndex (Vault.has_id id) (secrets_of st)) as [i|] eqn:Hi.
    + rewrite (deleteSecret_found id st i Hu Hi). cbn [snd].
      apply (opened_transfer passphrase st); try reflexivity; [exact Hop|].
      apply after_delete_saved.
    + rewrite deleteSecret_missing by assumption. exact Hop.
  - rewrite searchSecrets_reads. exact Hop.
  - rewrite getSecretsByType_reads. exact Hop.
  - rewrite getExpiredSecrets_reads, Hu.
    apply (opened_transfer passphrase st); try reflexivity; exact Hop || exact Hsaved.
  - rewrite exportVault_reads. exact Hop.
Qed.

Lemma opened_session (passphrase : string) (calls : list DataCall) :
  forall st : State, opened passphrase st -> opened passphrase (session calls st).
Proof.
  induction calls as [|c calls IH]; intros st Hop; [exact Hop|].
  cbn [session fold_left]. apply IH, opened_perform, Hop.
Qed.

Lemma unlock_opened (passphrase : string) (v : SecretsVault) (w : World)
    (st : State) :
  opened passphrase st ->
  JSON_parse (JSON_stringify (data (this st))) = Some (data (this st)) ->
  vaultPath v = vaultPath (this st) ->
  files w !! vaultPath v = persisted st ->
  Vault.unlock passphrase (mkState v w)
  = (Return "Vault unlocked successfully", mkState (this st) w).
Proof.
  intros (Hu & Hsaved & s & Hs & Hne & Hk) Hparse Hpath Hfile.
  rewrite unlock_runs. unfold persisted at 1. cbn [this world].
  rewrite Hfile, Hsaved, Hparse. f_equal.
  unfold after_unlock, Crypto.deriveKey. cbn [this world].
  unfold salt_of, metadata_of in Hs. unfold salt. rewrite Hs.
  assert (Ht : truthy (Some s) = true)
    by (apply truthy_true; exists s; split; [reflexivity | exact Hne]).
  rewrite Ht. cbn [default from_option id fst snd].
  destruct st as [[path d k unl] w0]. cbn in *. subst. reflexivity.
Qed.

End SessionFacts.

(** X11. From [init] on, a session keeps the vault reopenable. When
    [init] with a passphrase has returned, then after any sequence of data
    calls other than [importVault], returning or throwing, in which each
    value given to [addSecret] or [updateSecret] is one that the codec reads
    back as written, the vault is unlocked, the backing file holds the text
    of the data in memory, the salt is stored and not empty, and the key in
    use is the one that the passphrase gives with the stored salt. *)
Theorem session_stays_opened {R : Runtime}
    (passphrase msg : string) (calls : list DataCall) (st st0 : State) :
  Vault.init passphrase st = (Return msg, st0) ->
  Forall reads_back calls ->
  opened passphrase (session calls st0).
Proof.
  rewrite init_runs. intros [= _ <-] _.
  apply opened_session, opened_after_init.
Qed.

Lemma session_stays_opened_witness :
  Forall (@reads_back (Sample.runtime []))
    [AddSecret sample_secret; UpdateSecret sample_id sample_updates] /\
  @opened (Sample.runtime []) "pw1"
    (@session (Sample.runtime [])
       [AddSecret sample_secret; UpdateSecret sample_id sample_updates]
       (@after_init (Sample.runtime []) "pw1" (Sample.fresh 0 1000))).
Proof.
  assert (Hcalls : Forall (@reads_back (Sample.runtime []))
                     [AddSecret sample_secret;
                      UpdateSecret sample_id sample_updates]).
  { repeat constructor; intros v _; apply sample_utf8_roundtrip. }
  split; [exact Hcalls|].
  exact (@session_stays_opened (Sample.runtime []) "pw1" _ _ _ _
           (@init_runs (Sample.runtime []) "pw1" (Sample.fresh 0 1000)) Hcalls).
Defined.

(** X12. Reopening restores the session. For a vault in the condition that
    a session keeps, any vault object on the same path (a new one in another
    process, or the same one after [lock]) that unlocks with the same
    passphrase afterwards holds the same data, the same key and the same path
    as the session's object, provided [JSON.parse] reads back the text of
    the data; the unlock draws no entropy, reads no clock and writes no
    file. *)
Theorem unlock_restores_session {R : Runtime}
    (passphrase : string) (st : State) (v : SecretsVault) (w : World) :
  opened passphrase st ->
  JSON_parse (JSON_stringify (data (this st))) = Some (data (this st)) ->
  vaultPath v = vaultPath (this st) ->
  files w !! vaultPath v = persisted st ->
  Vault.unlock passphrase (mkState v w)
  = (Return "Vault unlocked successfully", mkState (this st) w).
Proof. apply unlock_opened. Qed.

Lemma unlock_restores_session_witness :
  @opened (Sample.runtime [data (this sample_unlocked)]) "pw1" sample_unlocked /\
  @Vault.unlock (Sample.runtime [data (this sample_unlocked)]) "pw1"
    (mkState (this sample_locked) (world sample_locked))
  = (Return "Vault unlocked successfully",
     mkState (this sample_unlocked) (world sample_locked)).
Proof.
  assert (Hop : @opened (Sample.runtime [data (this sample_unlocked)]) "pw1"
                  sample_unlocked).
  { split; [reflexivity|]. split; [vm_compute; reflexivity|].
    exists "000102030405060708090a0b0c0d0e0f".
    split; [vm_compute; reflexivity|].
    split; [discriminate | vm_compute; reflexivity]. }
  split; [exact Hop|].
  apply (@unlock_restores_session (Sample.runtime [data (this sample_unlocked)])
           "pw1" sample_unlocked (this sample_locked) (world sample_locked) Hop);
    vm_compute; reflexivity.
Defined.

(* ------------------------------------------------------------------------- *)
(** ** The stored hash and the stored value *)

Section HashFacts.
Context {R : Runtime}.

Lemma consistent_new_secret (key : list byte) (sd : SecretData.t) (st : State) :
  reads_back (AddSecret sd) ->
  encryptionKey (this st) = Some key -> consistent key (new_secret sd st).
Proof.
  intros Hback Hk. exists (SecretData.value sd). unfold new_secret.
  cbn [Secret.value Secret.valueHash]. rewrite Hk. cbn [default from_option id].
  split; [|reflexivity]. apply decrypt_encrypt_any_key, Hback. reflexivity.
Qed.

Lemma consistent_assigned (ident : string) (key : list byte) (u : Updates.t)
    (w : World) (stamp : string) (s : Secret.t) :
  reads_back (UpdateSecret ident u) ->
  consistent key s ->
  consistent key
    (assigned u (fst (Crypto.encrypt (default "" (Updates.value u)) key w)) stamp s).
Proof.
  intros Hback (p & Hp & Hh).
  pose proof (assigned_fields u
                (fst (Crypto.encrypt (default "" (Updates.value u)) key w))
                stamp s) as (_ & _ & _ & Hv & Hvh & _).
  unfold consistent. rewrite Hv, Hvh.
  unfold reads_back, written_value in Hback.
  destruct (truthy (Updates.value u)) eqn:Ht.
  - exists (default "" (Updates.value u)). split; [|reflexivity].
    apply decrypt_encrypt_any_key, Hback.
    apply truthy_true in Ht as (v & -> & _). reflexivity.
  - exists p. split; assumption.
Qed.

Lemma sound_perform (key : list byte) (c : DataCall) (st : State) :
  reads_back c -> sound_with key st -> sound_with key (perform c st).
Proof.
  intros Hback Hs. pose proof Hs as (Hu & Hk & Hall).
  destruct c as [sd|ident|ident| |ident u|ident|q|t| |]; cbn [perform].
  - rewrite addSecret_unlocked by (rewrite ?Hk; eauto). cbn [snd].
    split; [exact Hu|]. split; [exact Hk|].
    unfold after_add, secrets_of. cbn [this data VaultData.secrets].
    apply Forall_app. split; [exact Hall|].
    apply Forall_cons. split; [|constructor].
    apply consistent_new_secret; [exact Hback | exact Hk].
  - rewrite getSecret_reads. exact Hs.
  - rewrite getSecretMeta_reads. exact Hs.
  - rewrite listSecrets_reads. exact Hs.
  - destruct (findIndex (Vault.has_id ident) (secrets_of st)) as [i|] eqn:Hi.
    + rewrite (updateSecret_found ident u st i Hu) by (rewrite ?Hk; eauto).
      cbn [snd]. split; [exact Hu|]. split; [exact Hk|].
      unfold after_update, secrets_of. cbn [this data VaultData.secrets].
      rewrite Hk. cbn [default from_option id].
      apply Forall_alter; [exact Hall|].
      intros s _ Hc. apply (consistent_assigned ident); [exact Hback | exact Hc].
    + rewrite updateSecret_missing by assumption. exact Hs.
  - destruct (findIndex (Vault.has_id ident) (secrets_of st)) as [i|] eqn:Hi.
    + rewrite (deleteSecret_found ident st i Hu Hi). cbn [snd].
      split; [exact Hu|]. split; [exact Hk|].
      unfold after_delete, secrets_of. cbn [this data VaultData.secrets].
      apply Forall_delete, Hall.
    + rewrite deleteSecret_missing by assumption. exact Hs.
  - rewrite searchSecrets_reads. exact Hs.
  - rewrite getSecretsByType_reads. exact Hs.
  - rewrite getExpiredSecrets_reads, Hu. exact Hs.
  - rewrite exportVault_reads. exact Hs.
Qed.

Lemma sound_session (key : list byte) (calls : list DataCall) :
  Forall reads_back calls ->
  forall st : State, sound_with key st -> sound_with key (session calls st).
Proof.
  induction 1 as [|c calls Hc _ IH]; intros st Hs; [exact Hs|].
  cbn [session fold_left]. apply IH, sound_perform; [exact Hc | exact Hs].
Qed.

Lemma sound_getSecret (key : list byte) (id : string) (st st' : State)
    (s : Secret.t) :
  sound_with key st ->
  Vault.getSecret id st = (Return s, st') ->
  Secret.valueHash s = Crypto.hash (Secret.value s).
Proof.
  intros (Hu & Hk & Hall) Hget.
  destruct (List.find (Vault.has_id id) (secrets_of st)) as [s0|] eqn:Hf.
  - rewrite (getSecret_found id st s0 Hu Hf), Hk in Hget.
    apply find_some in Hf as [Hin _].
    apply list_elem_of_In in Hin.
    destruct (proj1 (Forall_forall _ _) Hall s0 Hin) as (p & Hp & Hh).
    rewrite Hp in Hget. injection Hget as <- _. exact Hh.
  - rewrite getSecret_missing in Hget by assumption. discriminate.
Qed.

End HashFacts.

(** X13. The stored hash follows the stored value. In an unlocked vault
    whose every record has, as its [valueHash], the hash of the text that its
    [value] decrypts to under the vault's key, this stays so through any
    sequence of data calls other than [importVault] in which each value given
    to [addSecret] or [updateSecret] is one that the codec reads back as
    written ([addSecret] and [updateSecret] write the two fields together,
    [deleteSecret] writes neither); so the record that [getSecret] returns
    afterwards carries the hash of the plaintext it carries. *)
Theorem session_keeps_hashes {R : Runtime}
    (key : list byte) (calls : list DataCall) (st : State) :
  Forall reads_back calls ->
  isUnlocked (this st) = true ->
  encryptionKey (this st) = Some key ->
  Forall (consistent key) (secrets_of st) ->
  Forall (consistent key) (secrets_of (session calls st)) /\
  forall (id : string) (s : Secret.t) (st' : State),
    Vault.getSecret id (session calls st) = (Return s, st') ->
    Secret.valueHash s = Crypto.hash (Secret.value s).
Proof.
  intros Hcalls Hu Hk Hall.
  assert (Hs : sound_with key (session calls st))
    by (apply sound_session; [exact Hcalls | repeat split; assumption]).
  split; [apply Hs|].
  intros id s st' Hget. exact (sound_getSecret key id _ st' s Hs Hget).
Qed.

Lemma session_keeps_hashes_witness :
  Forall (@reads_back (Sample.runtime []))
    [AddSecret sample_secret; UpdateSecret sample_id sample_updates] /\
  exists key : list byte,
    encryptionKey (this (snd (@Vault.init (Sample.runtime []) "pw1"
                                (Sample.fresh 0 1000)))) = Some key /\
    Forall (@consistent (Sample.runtime []) key)
      (secrets_of
         (@session (Sample.runtime [])
            [AddSecret sample_secret; UpdateSecret sample_id sample_updates]
            (snd (@Vault.init (Sample.runtime []) "pw1" (Sample.fresh 0 1000))))).
Proof.
  assert (Hcalls : Forall (@reads_back (Sample.runtime []))
                     [AddSecret sample_secret;
                      UpdateSecret sample_id sample_updates]).
  { repeat constructor; intros v _; apply sample_utf8_roundtrip. }
  split; [exact Hcalls|].
  eexists. split; [vm_compute; reflexivity|].
  apply (@session_keeps_hashes (Sample.runtime []));
    [exact Hcalls | reflexivity | vm_compute; reflexivity | constructor].
Defined.


(* ------------------------------------------------------------------------- *)
(** ** Adding, reading back, deleting *)

Section RecordFacts.
Context {R : Runtime}.

Lemma find_app_last {A} (f : A -> bool) (l : list A) (x : A) :
  (forall y, y ∈ l -> f y = false) -> f x = true ->
  List.find f (l ++ [x]) = Some x.
Proof.
  intros Hl Hx. induction l as [|a l IH]; cbn [app List.find].
  - rewrite Hx. reflexivity.
  - rewrite (Hl a (list_elem_of_here a l)). apply IH.
    intros y Hy. apply Hl, list_elem_of_further, Hy.
Qed.


Lemma after_add_secrets (sd : SecretData.t) (st : State) :
  secrets_of (after_add sd st) = (secrets_of st ++ [new_secret sd st])%list.
Proof. reflexivity. Qed.

Lemma after_delete_secrets (i : nat) (st : State) :
  secrets_of (after_delete i st) = delete i (secrets_of st).
Proof. reflexivity. Qed.

Lemma first_with_id_insert (id : string) (l : list Secret.t) (i : nat)
    (s s' : Secret.t) :
  first_with_id id l i s -> Secret.id s' = id ->
  first_with_id id (<[i := s']> l) i s'.
Proof.
  intros (Hi & Hid & Hlt) Hid'. split; [|split; [exact Hid'|]].
  - apply list_lookup_insert_eq. apply lookup_lt_Some in Hi. exact Hi.
  - intros j y Hj Hy. rewrite list_lookup_insert_ne in Hy by lia.
    exact (Hlt j y Hj Hy).
Qed.

Lemma delete_no_id (id : string) (l : list Secret.t) (i : nat) :
  (forall j s', j <> i -> l !! j = Some s' -> Secret.id s' <> id) ->
  forall s', s' ∈ delete i l -> Secret.id s' <> id.
Proof.
  intros Hother s' Hin. apply list_elem_of_lookup in Hin as [j Hj].
  destruct (decide (j < i)) as [Hlt | Hge].
  - rewrite list_lookup_delete_lt in Hj by exact Hlt.
    apply (Hother j); [lia | exact Hj].
  - rewrite list_lookup_delete_ge in Hj by lia.
    apply (Hother (S j)); [lia | exact Hj].
Qed.

End RecordFacts.

(** X14. A secret that was added can be read back. On an unlocked vault
    [addSecret] returns the plaintext it was given and appends one record,
    after the records already there; when no earlier record has the new id,
    [getSecret] with the returned id then returns that record with the
    plaintext as its value and the plaintext's hash, and changes nothing.
    The plaintext is one that the UTF-8 codec reads back as written. *)
Theorem addSecret_then_getSecret {R : Runtime}
    (secretData : SecretData.t) (st : State) :
  isUnlocked (this st) = true ->
  is_Some (encryptionKey (this st)) ->
  utf8_fromBytes (utf8_toBytes (SecretData.value secretData))
  = SecretData.value secretData ->
  (forall s, s ∈ secrets_of st ->
     Secret.id s <> id_of_token (fst (Crypto.generateSecret 16 (world st)))) ->
  exists (added : Added.t) (stored : Secret.t) (st' : State),
    Vault.addSecret secretData st = (Return added, st') /\
    Added.id added = id_of_token (fst (Crypto.generateSecret 16 (world st))) /\
    Added.value added = SecretData.value secretData /\
    Added.name added = SecretData.name secretData /\
    secrets_of st' = (secrets_of st ++ [stored])%list /\
    Secret.id stored = Added.id added /\
    Secret.name stored = SecretData.name secretData /\
    Secret.valueHash stored = Crypto.hash (SecretData.value secretData) /\
    Vault.getSecret (Added.id added) st'
    = (Return (Secret.set_value (SecretData.value secretData) stored), st').
Proof.
  intros Hu Hk Hutf Hfresh.
  exists (Added.mk (Secret.id (new_secret secretData st))
            (SecretData.name secretData)
            (or_default (SecretData.type secretData) "generic")
            (SecretData.value secretData)
            (or_null (SecretData.expiresAt secretData))),
    (new_secret secretData st), (after_add secretData st).
  split; [apply addSecret_unlocked; assumption|].
  split; [reflexivity|].
  split; [reflexivity|]. split; [reflexivity|]. split; [reflexivity|].
  split; [reflexivity|]. split; [reflexivity|]. split; [reflexivity|].
  cbn [Added.id].
  rewrite (getSecret_found _ (after_add secretData st) (new_secret secretData st)
             Hu).
  - destruct Hk as [key Hk].
    change (encryptionKey (this (after_add secretData st)))
      with (encryptionKey (this st)).
    rewrite Hk.
    assert (Hd : Crypto.decrypt (Secret.value (new_secret secretData st)) key
                 = Some (SecretData.value secretData)).
    { unfold new_secret. cbn [Secret.value]. rewrite Hk.
      cbn [default from_option]. apply decrypt_encrypt_any_key, Hutf. }
    rewrite Hd. reflexivity.
  - rewrite after_add_secrets. apply find_app_last.
    + intros y Hy. apply has_id_false, Hfresh, Hy.
    + apply has_id_true. reflexivity.
Qed.

Lemma addSecret_then_getSecret_witness :
  isUnlocked (this sample_unlocked) = true /\
  exists (added : Added.t) (stored : Secret.t) (st' : State),
    @Vault.addSecret (Sample.runtime []) old_secret sample_unlocked
    = (Return added, st') /\
    Added.value added = "x" /\
    @Vault.getSecret (Sample.runtime []) (Added.id added) st'
    = (Return (Secret.set_value "x" stored), st').
Proof.
  split; [reflexivity|].
  destruct (@addSecret_then_getSecret (Sample.runtime []) old_secret
              sample_unlocked eq_refl)
    as (added & stored & st' & Hadd & _ & Hv & _ & _ & _ & _ & _ & Hget).
  - vm_compute. eexists. reflexivity.
  - apply sample_utf8_roundtrip.
  - intros s Hs. rewrite sample_unlocked_secrets in Hs.
    apply list_elem_of_singleton in Hs as ->. vm_compute. discriminate.
  - exists added, stored, st'. split; [exact Hadd|]. split; [exact Hv | exact Hget].
Defined.



(** X16. [deleteSecret] removes one record, the first that has the id:
    the records before it and after it stay, in their order, and the file
    is rewritten. When no other record has the id, [getSecret] and
    [deleteSecret] with it then fail with the not-found error. *)
Theorem deleteSecret_removes_first {R : Runtime}
    (id : string) (st : State) (i : nat) (s : Secret.t) :
  isUnlocked (this st) = true ->
  first_with_id id (secrets_of st) i s ->
  exists st' : State,
    Vault.deleteSecret id st = (Return "Secret deleted successfully", st') /\
    secrets_of st' = (take i (secrets_of st) ++ drop (S i) (secrets_of st))%list /\
    S (length (secrets_of st')) = length (secrets_of st) /\
    saved st' /\
    ((forall j s', j <> i -> secrets_of st !! j = Some s' -> Secret.id s' <> id) ->
     Vault.getSecret id st' = (Throw SecretNotFound, st') /\
     Vault.deleteSecret id st' = (Throw SecretNotFound, st')).
Proof.
  intros Hu Hfirst. exists (after_delete i st).
  pose proof (findIndex_first_with_id _ _ _ _ Hfirst) as Hi.
  destruct Hfirst as (Hs & _ & _). pose proof (lookup_lt_Some _ _ _ Hs) as Hlt.
  split; [apply deleteSecret_found; assumption|].
  rewrite after_delete_secrets.
  split; [apply delete_take_drop|].
  split; [rewrite length_delete by (eexists; exact Hs); lia|].
  split; [apply after_delete_saved|].
  intros Hother.
  destruct (find_None_no_id id (delete i (secrets_of st))
              (delete_no_id id _ i Hother)) as [Hindex Hfind].
  split.
  - apply getSecret_missing; [exact Hu | rewrite after_delete_secrets; exact Hfind].
  - apply deleteSecret_missing; [exact Hu | rewrite after_delete_secrets; exact Hindex].
Qed.

Lemma deleteSecret_removes_first_witness :
  first_with_id sample_id (secrets_of sample_unlocked) 0 sample_record /\
  exists st' : State,
    @Vault.deleteSecret (Sample.runtime []) sample_id sample_unlocked
    = (Return "Secret deleted successfully", st') /\
    secrets_of st' = [] /\
    @Vault.getSecret (Sample.runtime []) sample_id st'
    = (Throw SecretNotFound, st').
Proof.
  split; [exact sample_first|].
  destruct (@deleteSecret_removes_first (Sample.runtime []) sample_id
              sample_unlocked 0 sample_record eq_refl sample_first)
    as (st' & Hdel & Hsecs & _ & _ & Hgone).
  exists st'. split; [exact Hdel|]. split; [rewrite Hsecs; reflexivity|].
  apply Hgone. intros [|j] s' Hj Hs'; [congruence|].
  rewrite sample_unlocked_secrets in Hs'. discriminate.
Defined.

(** X17. A value that was written can be read back. When [updateSecret]
    is given a non-empty value for the first record with an id, on an
    unlocked vault, it succeeds, and [getSecret] with that id then returns
    the record with the new value as its value and the new value's hash,
    under the id and the creation time it had. The value is one that the
    UTF-8 codec reads back as written. *)
Theorem updateSecret_then_getSecret {R : Runtime}
    (id value : string) (updates : Updates.t) (st : State) (i : nat)
    (s : Secret.t) :
  isUnlocked (this st) = true ->
  is_Some (encryptionKey (this st)) ->
  first_with_id id (secrets_of st) i s ->
  Updates.value updates = Some value -> value <> "" ->
  utf8_fromBytes (utf8_toBytes value) = value ->
  exists (st' : State) (s' : Secret.t),
    Vault.updateSecret id updates st = (Return "Secret updated successfully", st') /\
    Vault.getSecret id st' = (Return s', st') /\
    Secret.value s' = value /\
    Secret.valueHash s' = Crypto.hash value /\
    Secret.id s' = id /\
    Secret.createdAt s' = Secret.createdAt s.
Proof.
  intros Hu [key Hk] Hfirst Hval Hne Hutf.
  pose proof (findIndex_first_with_id _ _ _ _ Hfirst) as Hi.
  assert (Ht : truthy (Updates.value updates) = true)
    by (apply truthy_true; exists value; split; assumption).
  set (ciphertext := fst (Crypto.encrypt value key (world st))).
  set (s1 := assigned updates ciphertext (toISOString (clock (world st) 0)) s).
  pose proof (assigned_fields updates ciphertext
                (toISOString (clock (world st) 0)) s)
    as (Hid & _ & _ & Hv & Hvh & Hc & _).
  fold s1 in Hid, Hv, Hvh, Hc. rewrite Ht in Hv, Hvh. rewrite Hval in Hvh.
  cbn [default from_option] in Hvh.
  assert (Hsecs : secrets_of (after_update updates i st) = <[i := s1]> (secrets_of st)).
  { rewrite (after_update_secrets updates i st s) by apply Hfirst.
    rewrite Hk, Hval. reflexivity. }
  assert (Hfirst' : first_with_id id (secrets_of (after_update updates i st)) i s1).
  { rewrite Hsecs. apply (first_with_id_insert id _ i s); [exact Hfirst|].
    rewrite Hid. apply Hfirst. }
  exists (after_update updates i st), (Secret.set_value value s1).
  split; [apply updateSecret_found; [exact Hu | rewrite Hk; eauto | exact Hi]|].
  split.
  - rewrite (getSecret_found id (after_update updates i st) s1 Hu
               (find_first_with_id _ _ _ _ Hfirst')).
    change (encryptionKey (this (after_update updates i st)))
      with (encryptionKey (this st)).
    rewrite Hk, Hv. unfold ciphertext.
    rewrite (decrypt_encrypt_any_key value key (world st) Hutf). reflexivity.
  - split; [reflexivity|]. split; [exact Hvh|].
    split; [change (Secret.id s1 = id); rewrite Hid; apply Hfirst | exact Hc].
Qed.

Lemma updateSecret_then_getSecret_witness :
  Updates.value sample_updates = Some "newval" /\
  exists (st' : State) (s' : Secret.t),
    @Vault.updateSecret (Sample.runtime []) sample_id sample_updates sample_unlocked
    = (Return "Secret updated successfully", st') /\
    @Vault.getSecret (Sample.runtime []) sample_id st' = (Return s', st') /\
    Secret.value s' = "newval".
Proof.
  split; [reflexivity|].
  assert (Hk : is_Some (encryptionKey (this sample_unlocked)))
    by (vm_compute; eexists; reflexivity).
  destruct (@updateSecret_then_getSecret (Sample.runtime []) sample_id "newval"
              sample_updates sample_unlocked 0 sample_record eq_refl Hk
              sample_first eq_refl)
    as (st' & s' & Hupd & Hget & Hv & _).
  - discriminate.
  - apply sample_utf8_roundtrip.
  - exists st', s'. split; [exact Hupd|]. split; [exact Hget | exact Hv].
Defined.


(* ------------------------------------------------------------------------- *)
(** ** The shape of an id *)

Lemma strip_dashes_cons (c : ascii) (r : string) :
  strip_dashes (String c r)
  = if Ascii.eqb c "-" || Ascii.eqb c "_" then strip_dashes r
    else String c (strip_dashes r).
Proof.
  unfold strip_dashes. cbn [Crypto.replace_char].
  destruct (Ascii.eqb c "-") eqn:E1; [reflexivity|].
  cbn [Crypto.replace_char orb]. destruct (Ascii.eqb c "_"); reflexivity.
Qed.

Lemma strip_dashes_alnum (s : string) :
  every is_url_safe s = true -> every is_alnum (strip_dashes s) = true.
Proof.
  induction s as [|c r IH]; [reflexivity|]. cbn [every].
  rewrite andb_true_iff. intros [Hc Hr]. rewrite strip_dashes_cons.
  unfold is_url_safe in Hc.
  destruct (Ascii.eqb c "-" || Ascii.eqb c "_") eqn:E; [apply IH, Hr|].
  cbn [every]. rewrite IH by exact Hr.
  rewrite <- orb_assoc, E, orb_false_r in Hc. rewrite Hc. reflexivity.
Qed.

Lemma strip_dashes_length (c : ascii) (r : string) :
  String.length (strip_dashes r) <= String.length (strip_dashes (String c r)).
Proof.
  rewrite strip_dashes_cons.
  destruct (Ascii.eqb c "-" || Ascii.eqb c "_"); cbn [String.length]; lia.
Qed.

Lemma every_substring (p : ascii -> bool) (s : string) :
  forall n, every p s = true -> every p (String.substring 0 n s) = true.
Proof.
  induction s as [|c r IH]; intros [|n]; cbn [String.substring every];
    try reflexivity.
  rewrite !andb_true_iff. intros [Hc Hr]. split; [exact Hc | apply IH, Hr].
Qed.

Lemma substring_length (s : string) :
  forall n, String.length (String.substring 0 n s) = Nat.min n (String.length s).
Proof.
  induction s as [|c r IH]; intros [|n]; cbn [String.substring String.length Nat.min];
    try reflexivity.
  rewrite IH. reflexivity.
Qed.

(** The last sextet of a lone final byte carries two of its bits and four
    zeros: its character is a letter, whatever the byte. *)
Lemma token_of_one_byte (a : byte) :
  1 <= String.length (strip_dashes (url_unpadded (Base64.encode [a]))).
Proof. destruct a; vm_compute; lia. Qed.

Lemma token_keeps_a_character (bs : list byte) :
  length bs mod 3 = 1 ->
  1 <= String.length (strip_dashes (url_unpadded (Base64.encode bs))).
Proof.
  induction bs as [|a|a b|a b c rest IH] using list_ind3; intros Hlen.
  - discriminate.
  - apply token_of_one_byte.
  - discriminate.
  - assert (Hrest : length rest mod 3 = 1).
    { replace (length (a :: b :: c :: rest)) with (length rest + 1 * 3) in Hlen
        by (cbn [length]; lia).
      rewrite Nat.Div0.mod_add in Hlen. exact Hlen. }
    specialize (IH Hrest).
    cbn [Base64.encode]. destruct (Base64.split3 a b c) as [[[s1 s2] s3] s4].
    destruct (url_unpadded_char s1 (String (Base64.char s2)
                (String (Base64.char s3) (String (Base64.char s4)
                   (Base64.encode rest))))) as (c1 & _ & ->).
    destruct (url_unpadded_char s2 (String (Base64.char s3)
                (String (Base64.char s4) (Base64.encode rest))))
      as (c2 & _ & ->).
    destruct (url_unpadded_char s3 (String (Base64.char s4) (Base64.encode rest)))
      as (c3 & _ & ->).
    destruct (url_unpadded_char s4 (Base64.encode rest)) as (c4 & _ & ->).
    pose proof (strip_dashes_length c1
                  (String c2 (String c3 (String c4
                     (url_unpadded (Base64.encode rest)))))).
    pose proof (strip_dashes_length c2
                  (String c3 (String c4 (url_unpadded (Base64.encode rest))))).
    pose proof (strip_dashes_length c3
                  (String c4 (url_unpadded (Base64.encode rest)))).
    pose proof (strip_dashes_length c4 (url_unpadded (Base64.encode rest))).
    lia.
Qed.

Lemma id_of_token_shape (w : World) :
  1 <= String.length (id_of_token (fst (Crypto.generateSecret 16 w))) <= 16 /\
  every is_alnum (id_of_token (fst (Crypto.generateSecret 16 w))) = true.
Proof.
  assert (E : id_of_token (fst (Crypto.generateSecret 16 w))
              = String.substring 0 16
                  (strip_dashes (url_unpadded (Base64.encode (fst (randomBytes 16 w))))))
    by reflexivity.
  rewrite E, substring_length.
  pose proof (token_keeps_a_character (fst (randomBytes 16 w))) as Hone.
  rewrite randomBytes_length in Hone. specialize (Hone eq_refl).
  split; [lia|].
  apply every_substring, strip_dashes_alnum, url_unpadded_encode.
Qed.

(** X18. The id that [addSecret] gives a record is made of letters and
    digits alone and has from 1 to 16 characters: the 22 characters of a
    token of 16 random bytes, without the [-] and [_] among them, cut after
    the sixteenth. It is shorter than 16 when more than six characters of the
    token were removed, and some entropy gives an id of a single character. *)
Theorem addSecret_id_shape {R : Runtime} :
  (forall (secretData : SecretData.t) (st st' : State) (added : Added.t),
     Vault.addSecret secretData st = (Return added, st') ->
     1 <= String.length (Added.id added) <= 16 /\
     every is_alnum (Added.id added) = true /\
     exists s, last (secrets_of st') = Some s /\ Secret.id s = Added.id added) /\
  exists w : World,
    String.length (id_of_token (fst (Crypto.generateSecret 16 w))) = 1.
Proof.
  split.
  - intros sd st st' added Hadd.
    pose proof (addSecret_returns sd st st' added Hadd) as (Hu & Hk & ->).
    rewrite (addSecret_unlocked sd st Hu Hk) in Hadd.
    injection Hadd as <-. cbn [Added.id].
    destruct (id_of_token_shape (world st)) as [Hlen Hevery].
    split; [exact Hlen|]. split; [exact Hevery|].
    exists (new_secret sd st). split; [|reflexivity].
    rewrite after_add_secrets. apply last_snoc.
  - exists (mkWorld (fun _ => xff) (fun _ => 0%Z) ∅). vm_compute. reflexivity.
Qed.

Lemma addSecret_id_shape_witness :
  exists (added : Added.t) (st' : State),
    @Vault.addSecret (Sample.runtime []) old_secret sample_unlocked
    = (Return added, st') /\
    1 <= String.length (Added.id added) <= 16 /\
    every is_alnum (Added.id added) = true.
Proof.
  assert (Hk : is_Some (encryptionKey (this sample_unlocked)))
    by (vm_compute; eexists; reflexivity).
  pose proof (@addSecret_unlocked (Sample.runtime []) old_secret
                sample_unlocked eq_refl Hk) as H.
  eexists. eexists. split; [exact H|].
  destruct (proj1 (@addSecret_id_shape (Sample.runtime [])) _ _ _ _ H)
    as (Hlen & Hevery & _).
  split; [exact Hlen | exact Hevery].
Defined.


(* ------------------------------------------------------------------------- *)
(** ** What the queries return, one against the other *)

Lemma filter_sublist_impl {A} (f g : A -> bool) (l : list A) :
  (forall x, f x = true -> g x = true) ->
  sublist (List.filter f l) (List.filter g l).
Proof.
  intros Hfg. induction l as [|a l IH]; cbn [List.filter]; [constructor|].
  destruct (f a) eqn:Fa.
  - rewrite (Hfg a Fa). apply sublist_skip, IH.
  - destruct (g a); [apply sublist_cons, IH | exact IH].
Qed.

Lemma filter_sublist {A} (f : A -> bool) (l : list A) :
  sublist (List.filter f l) l.
Proof.
  induction l as [|a l IH]; cbn [List.filter]; [constructor|].
  destruct (f a); [apply sublist_skip, IH | apply sublist_cons, IH].
Qed.

Lemma map_sublist {A B} (f : A -> B) (l1 l2 : list A) :
  sublist l1 l2 -> sublist (map f l1) (map f l2).
Proof.
  induction 1 as [|x l1 l2 _ IH|x l1 l2 _ IH]; cbn [map];
    [constructor | apply sublist_skip, IH | apply sublist_cons, IH].
Qed.

Lemma filter_all {A} (f : A -> bool) (l : list A) :
  (forall x, f x = true) -> List.filter f l = l.
Proof.
  intros Hf. induction l as [|a l IH]; cbn [List.filter]; [reflexivity|].
  rewrite Hf, IH. reflexivity.
Qed.

Lemma append_empty (s : string) : String.append s "" = s.
Proof.
  induction s as [|c r IH]; [reflexivity|].
  change (String c (String.append r "") = String c r). rewrite IH. reflexivity.
Qed.

Lemma includes_self (s : string) : includes s s = true.
Proof.
  apply includes_spec. exists "", "". cbn [String.append].
  rewrite append_empty. reflexivity.
Qed.

Lemma includes_empty (s : string) : includes s "" = true.
Proof. apply includes_spec. exists "", s. reflexivity. Qed.

Section QueryRelations.
Context {R : Runtime}.

Lemma listSecrets_unlocked (st : State) :
  isUnlocked (this st) = true ->
  Vault.listSecrets st = (Return (map strip_value (secrets_of st)), st).
Proof.
  intros Hu. destruct st as [[path d k unl] w]. cbn in Hu. subst unl.
  reflexivity.
Qed.

Lemma searchSecrets_unlocked (query : string) (st : State) :
  isUnlocked (this st) = true ->
  Vault.searchSecrets query st
  = (Return (map strip_value
               (List.filter (Vault.matches (toLowerCase query)) (secrets_of st))),
     st).
Proof.
  intros Hu. destruct st as [[path d k unl] w]. cbn in Hu. subst unl.
  reflexivity.
Qed.

Lemma getSecretsByType_unlocked (type : string) (st : State) :
  isUnlocked (this st) = true ->
  Vault.getSecretsByType type st
  = (Return (map strip_value
               (List.filter (fun s => String.eqb (Secret.type s) type)
                  (secrets_of st))),
     st).
Proof.
  intros Hu. destruct st as [[path d k unl] w]. cbn in Hu. subst unl.
  reflexivity.
Qed.

Lemma getExpiredSecrets_unlocked (st : State) :
  isUnlocked (this st) = true ->
  Vault.getExpiredSecrets st
  = (Return (map strip_value
               (List.filter (Vault.expired (clock (world st) 0)) (secrets_of st))),
     mkState (this st) (snd (Date_now (world st)))).
Proof.
  intros Hu. destruct st as [[path d k unl] w]. cbn in Hu. subst unl.
  reflexivity.
Qed.

Lemma has_type_matches (type : string) (s : Secret.t) :
  String.eqb (Secret.type s) type = true ->
  Vault.matches (toLowerCase type) s = true.
Proof.
  intros E. apply String.eqb_eq in E. unfold Vault.matches, strip_value.
  cbn [SecretMeta.name SecretMeta.type SecretMeta.tags].
  rewrite E, includes_self, orb_true_r. reflexivity.
Qed.

Lemma expired_later (now later : Z) (s : Secret.t) :
  (now <= later)%Z -> Vault.expired now s = true -> Vault.expired later s = true.
Proof.
  intros Hle. unfold Vault.expired.
  destruct (negb (truthy (Secret.expiresAt s))); [trivial|].
  destruct (Date_parse (default "" (Secret.expiresAt s))) as [t|]; [|trivial].
  rewrite !Z.leb_le. lia.
Qed.

End QueryRelations.

(** X19. The queries return records of the vault, in the vault's order.
    On an unlocked vault, what [searchSecrets], [getSecretsByType] and
    [getExpiredSecrets] return is a sublist of what [listSecrets] returns;
    and the records of a type are among those that a search for the type's
    text finds (the search also looks in the names and the tags, and
    ignores case). *)
Theorem queries_return_sublists {R : Runtime} (st : State) :
  isUnlocked (this st) = true ->
  exists all : list SecretMeta.t,
    Vault.listSecrets st = (Return all, st) /\
    (forall query, exists found,
       Vault.searchSecrets query st = (Return found, st) /\ sublist found all) /\
    (forall type, exists typed found,
       Vault.getSecretsByType type st = (Return typed, st) /\
       Vault.searchSecrets type st = (Return found, st) /\
       sublist typed found) /\
    (exists expired st',
       Vault.getExpiredSecrets st = (Return expired, st') /\
       sublist expired all).
Proof.
  intros Hu. eexists. split; [apply listSecrets_unlocked, Hu|].
  split; [|split].
  - intros query. eexists. split; [apply searchSecrets_unlocked, Hu|].
    apply map_sublist, filter_sublist.
  - intros type. eexists. eexists.
    split; [apply getSecretsByType_unlocked, Hu|].
    split; [apply searchSecrets_unlocked, Hu|].
    apply map_sublist, filter_sublist_impl. intros s. apply has_type_matches.
  - eexists. eexists. split; [apply getExpiredSecrets_unlocked, Hu|].
    apply map_sublist, filter_sublist.
Qed.

Lemma queries_return_sublists_witness :
  isUnlocked (this sample_with_expired) = true /\
  exists all : list SecretMeta.t,
    @Vault.listSecrets sample_with_expired = (Return all, sample_with_expired) /\
    exists typed found,
      @Vault.getSecretsByType "password" sample_with_expired
      = (Return typed, sample_with_expired) /\
      @Vault.searchSecrets (Sample.runtime []) "password" sample_with_expired
      = (Return found, sample_with_expired) /\
      sublist typed found.
Proof.
  split; [reflexivity|].
  destruct (@queries_return_sublists (Sample.runtime []) sample_with_expired
              eq_refl) as (all & Hall & _ & Htyped & _).
  exists all. split; [exact Hall|]. exact (Htyped "password").
Defined.

(** X20. A search for the empty text lists the vault: on an unlocked vault
    [searchSecrets('')] returns what [listSecrets] returns, every record,
    since the empty text occurs in every name. *)
Theorem searchSecrets_empty_query_lists_all {R : Runtime} (st : State) :
  toLowerCase "" = "" ->
  isUnlocked (this st) = true ->
  Vault.searchSecrets "" st = Vault.listSecrets st.
Proof.
  intros Hlow Hu.
  rewrite searchSecrets_unlocked, listSecrets_unlocked by exact Hu.
  rewrite Hlow, filter_all; [reflexivity|].
  intros s. unfold Vault.matches. rewrite includes_empty. reflexivity.
Qed.

Lemma searchSecrets_empty_query_lists_all_witness :
  isUnlocked (this sample_with_expired) = true /\
  @Vault.searchSecrets (Sample.runtime []) "" sample_with_expired
  = Vault.listSecrets sample_with_expired.
Proof.
  split; [reflexivity|].
  apply (@searchSecrets_empty_query_lists_all (Sample.runtime [])
           sample_with_expired); reflexivity.
Defined.

(** X21. What has expired stays expired. [getExpiredSecrets] compares each
    expiry with the clock read at the call, so when the clock has not gone
    back between two successive calls on an unlocked vault, the records
    that the first returns are among those that the second returns. *)
Theorem getExpiredSecrets_grows {R : Runtime} (st : State) :
  isUnlocked (this st) = true ->
  (clock (world st) 0 <= clock (world st) 1)%Z ->
  exists (first second : list SecretMeta.t) (st1 st2 : State),
    Vault.getExpiredSecrets st = (Return first, st1) /\
    Vault.getExpiredSecrets st1 = (Return second, st2) /\
    sublist first second.
Proof.
  intros Hu Hclock. eexists. eexists. eexists. eexists.
  split; [apply getExpiredSecrets_unlocked, Hu|].
  split; [apply getExpiredSecrets_unlocked, Hu|].
  apply map_sublist, filter_sublist_impl. intros s.
  apply expired_later, Hclock.
Qed.

Lemma getExpiredSecrets_grows_witness :
  isUnlocked (this sample_with_expired) = true /\
  (clock (world sample_with_expired) 0 <= clock (world sample_with_expired) 1)%Z /\
  exists (first second : list SecretMeta.t) (st1 st2 : State),
    @Vault.getExpiredSecrets (Sample.runtime []) sample_with_expired
    = (Return first, st1) /\
    @Vault.getExpiredSecrets (Sample.runtime []) st1 = (Return second, st2) /\
    sublist first second.
Proof.
  assert (Hclock : (clock (world sample_with_expired) 0
                    <= clock (world sample_with_expired) 1)%Z)
    by (vm_compute; discriminate).
  split; [reflexivity|]. split; [exact Hclock|].
  apply (@getExpiredSecrets_grows (Sample.runtime []) sample_with_expired eq_refl
           Hclock).
Defined.


(* ------------------------------------------------------------------------- *)
(** ** The command line *)

Section CliFacts.
Context {R : Runtime}.
Variable trim : string -> string.
Variable default_path : string.

Lemma main_on_data (c : Cli.Command) (w : World) :
  Cli.on_data c = true ->
  Cli.main trim default_path c w = (Cli.mkEnded [Cli.Err Cli.locked_message] 1, w).
Proof. destruct c; try discriminate; reflexivity. Qed.

Lemma main_lock (w : World) :
  Cli.main trim default_path Cli.Lock w = (Cli.mkEnded [Cli.Out "Vault locked"] 0, w).
Proof. reflexivity. Qed.

Lemma exists_present (v : SecretsVault) (w : World) :
  is_Some (files w !! vaultPath v) ->
  Vault.exists_ (mkState v w) = (Return true, mkState v w).
Proof.
  intros H. unfold Vault.exists_, bind, read, existsSync. cbn [this world].
  rewrite bool_decide_eq_true_2 by exact H. reflexivity.
Qed.

Lemma exists_absent (v : SecretsVault) (w : World) :
  files w !! vaultPath v = None ->
  Vault.exists_ (mkState v w) = (Return false, mkState v w).
Proof.
  intros H. unfold Vault.exists_, bind, read, existsSync. cbn [this world].
  rewrite bool_decide_eq_false_2; [reflexivity|].
  rewrite H. intros [? ?]. discriminate.
Qed.

Lemma main_init_mismatch (passphrase confirm : string) (w : World) :
  passphrase <> confirm ->
  Cli.main trim default_path (Cli.Init passphrase confirm) w
  = (Cli.mkEnded [Cli.Err "Passphrases do not match"] 1, w).
Proof.
  intros Hne. unfold Cli.main, Cli.caught, Cli.action, Cli.cmd_init.
  apply String.eqb_neq in Hne. rewrite Hne. reflexivity.
Qed.

Lemma main_init_present (passphrase : string) (w : World) :
  is_Some (files w !! default_path) ->
  Cli.main trim default_path (Cli.Init passphrase passphrase) w
  = (Cli.mkEnded [Cli.Err Cli.exists_message] 1, w).
Proof.
  intros H. unfold Cli.main, Cli.caught, Cli.action, Cli.cmd_init.
  rewrite String.eqb_refl. cbn [negb]. unfold bind at 1.
  rewrite exists_present by exact H. reflexivity.
Qed.

Lemma main_init_absent (passphrase : string) (w : World) :
  files w !! default_path = None ->
  Cli.main trim default_path (Cli.Init passphrase passphrase) w
  = (Cli.mkEnded [Cli.Out "Secrets vault initialized successfully"] 0,
     world (after_init passphrase (mkState (constructor default_path) w))).
Proof.
  intros H. unfold Cli.main, Cli.caught, Cli.action, Cli.cmd_init.
  rewrite String.eqb_refl. cbn [negb]. unfold bind at 1.
  rewrite exists_absent by exact H. unfold bind at 1.
  rewrite init_runs. reflexivity.
Qed.

Lemma main_unlock_files (passphrase : string) (w : World) :
  files (snd (Cli.main trim default_path (Cli.Unlock passphrase) w)) = files w.
Proof.
  unfold Cli.main, Cli.caught, Cli.action, Cli.cmd_unlock.
  destruct (files w !! default_path) as [raw|] eqn:Hraw.
  - assert (Hs : is_Some (files w !! default_path)) by (rewrite Hraw; eauto).
    unfold bind at 1. rewrite exists_present by exact Hs.
    cbn [negb]. unfold bind at 1. rewrite unlock_runs.
    unfold persisted. cbn [this world vaultPath constructor]. rewrite Hraw.
    destruct (JSON_parse raw) as [stored|]; [|reflexivity].
    cbn [Cli.exit ret snd world after_unlock].
    unfold Crypto.deriveKey. destruct (truthy (salt stored)); reflexivity.
  - unfold bind at 1. rewrite exists_absent by exact Hraw. reflexivity.
Qed.

(** A process leaves the files as they were, unless it is an [init] that
    found no vault file. *)
Lemma main_files (c : Cli.Command) (w : World) :
  files (snd (Cli.main trim default_path c w)) = files w \/
  files w !! default_path = None /\
  exists d : VaultData.t,
    VaultData.secrets d = [] /\
    files (snd (Cli.main trim default_path c w)) = <[default_path := JSON_stringify d]> (files w).
Proof.
  destruct (Cli.on_data c) eqn:Hdata.
  { left. rewrite main_on_data by exact Hdata. reflexivity. }
  destruct c as [passphrase confirm|passphrase| | | | | | | |];
    try discriminate.
  - destruct (String.eqb_spec passphrase confirm) as [<-|Hne].
    + destruct (files w !! default_path) as [raw|] eqn:Hraw.
      * left. rewrite main_init_present by (rewrite Hraw; eauto). reflexivity.
      * right. split; [reflexivity|].
        rewrite main_init_absent by exact Hraw.
        eexists. split; [|reflexivity]. reflexivity.
    + left. rewrite main_init_mismatch by exact Hne. reflexivity.
  - left. apply main_unlock_files.
  - left. reflexivity.
Qed.

Lemma main_files_present (c : Cli.Command) (w : World) :
  is_Some (files w !! default_path) -> files (snd (Cli.main trim default_path c w)) = files w.
Proof.
  intros [raw Hraw]. destruct (main_files c w) as [H | [H _]];
    [exact H | congruence].
Qed.

Lemma mains_files_present (cs : list Cli.Command) :
  forall w : World,
    is_Some (files w !! default_path) -> files (Cli.mains trim default_path cs w) = files w.
Proof.
  induction cs as [|c cs IH]; intros w Hw; [reflexivity|].
  cbn [Cli.mains fold_left].
  pose proof (main_files_present c w Hw) as Hc.
  fold (Cli.mains trim default_path cs (snd (Cli.main trim default_path c w))).
  rewrite IH by (rewrite Hc; exact Hw). exact Hc.
Qed.

Lemma mains_files (cs : list Cli.Command) :
  forall w : World,
    files (Cli.mains trim default_path cs w) = files w \/
    files w !! default_path = None /\
    exists d : VaultData.t,
      VaultData.secrets d = [] /\
      files (Cli.mains trim default_path cs w) = <[default_path := JSON_stringify d]> (files w).
Proof.
  induction cs as [|c cs IH]; intros w; [left; reflexivity|].
  cbn [Cli.mains fold_left].
  fold (Cli.mains trim default_path cs (snd (Cli.main trim default_path c w))).
  destruct (main_files c w) as [Hc | (Hnone & d & Hd & Hc)].
  - destruct (IH (snd (Cli.main trim default_path c w))) as [H | (Hnone & d & Hd & H)].
    + left. congruence.
    + right. split; [congruence|]. exists d. split; [exact Hd|].
      rewrite H, Hc. reflexivity.
  - right. split; [exact Hnone|]. exists d. split; [exact Hd|].
    rewrite mains_files_present; [exact Hc|].
    rewrite Hc, lookup_insert_eq. eauto.
Qed.

End CliFacts.

(** X22. From the command line, no command on the data gets past the
    lock. Every process makes a new vault object, which is locked, so the
    action of [add], [get], [list], [search], [update], [delete] and
    [expired] prints the vault-locked message and exits with status 1,
    whatever its options and whatever the files hold (also right after an
    [unlock] process, whose unlocked object ended with it); nothing is
    read, drawn or written. *)
Theorem cli_refuses_data_commands {R : Runtime}
    (trim : string -> string) (default_path : string)
    (c : Cli.Command) (w : World) :
  Cli.on_data c = true ->
  Cli.main trim default_path c w
  = (Cli.mkEnded [Cli.Err Cli.locked_message] 1, w) /\
  forall passphrase : string,
    Cli.main trim default_path c
      (snd (Cli.main trim default_path (Cli.Unlock passphrase) w))
    = (Cli.mkEnded [Cli.Err Cli.locked_message] 1,
       snd (Cli.main trim default_path (Cli.Unlock passphrase) w)).
Proof.
  intros Hdata. split; [apply main_on_data, Hdata|].
  intros passphrase. apply main_on_data, Hdata.
Qed.

Lemma cli_refuses_data_commands_witness :
  Cli.on_data (Cli.Get sample_id) = true /\
  @Cli.main (Sample.runtime []) (fun s => s) Sample.path (Cli.Get sample_id)
    (Sample.world 0 1000)
  = (Cli.mkEnded [Cli.Err Cli.locked_message] 1, Sample.world 0 1000).
Proof.
  split; [reflexivity|].
  destruct (@cli_refuses_data_commands (Sample.runtime []) (fun s => s)
              Sample.path (Cli.Get sample_id) (Sample.world 0 1000) eq_refl)
    as [Hrefused _].
  exact Hrefused.
Defined.

(** X23. The command line stores no secret. Whatever commands are run
    ([init], [unlock], [lock] and the commands on the data), one process
    after the other, and whatever is typed at their prompts, the files end
    as they began, with one exception: when there was no vault file, an
    [init] among the commands has made one, which holds the text of a vault
    without records and is not written again. A vault file that is there at
    the start is never changed. *)
Theorem cli_stores_no_secret {R : Runtime}
    (trim : string -> string) (default_path : string)
    (cs : list Cli.Command) (w : World) :
  files (Cli.mains trim default_path cs w) = files w \/
  files w !! default_path = None /\
  exists d : VaultData.t,
    VaultData.secrets d = [] /\
    files (Cli.mains trim default_path cs w)
    = <[default_path := JSON_stringify d]> (files w).
Proof. apply mains_files. Qed.

(** X24. The [init] command does not overwrite. It exits with status 1 and
    changes nothing when the two passphrases typed differ, and when a vault
    file is there already (the method [init] itself would write over it);
    otherwise it runs [init] on the new vault object and leaves a vault
    file. *)
Theorem cli_init_guards {R : Runtime}
    (trim : string -> string) (default_path : string)
    (passphrase confirm : string) (w : World) :
  (passphrase <> confirm ->
   Cli.main trim default_path (Cli.Init passphrase confirm) w
   = (Cli.mkEnded [Cli.Err "Passphrases do not match"] 1, w)) /\
  (passphrase = confirm -> is_Some (files w !! default_path) ->
   Cli.main trim default_path (Cli.Init passphrase confirm) w
   = (Cli.mkEnded [Cli.Err Cli.exists_message] 1, w)) /\
  (passphrase = confirm -> files w !! default_path = None ->
   exists w' : World,
     Cli.main trim default_path (Cli.Init passphrase confirm) w
     = (Cli.mkEnded [Cli.Out "Secrets vault initialized successfully"] 0, w') /\
     is_Some (files w' !! default_path) /\
     forall path, path <> default_path -> files w' !! path = files w !! path).
Proof.
  split; [apply main_init_mismatch|]. split.
  - intros <-. apply main_init_present.
  - intros <- Hnone. eexists. split; [apply main_init_absent, Hnone|].
    unfold after_init. cbn [world files this vaultPath constructor]. split.
    + rewrite lookup_insert_eq. eauto.
    + intros path Hne. apply lookup_insert_ne. congruence.
Qed.

Lemma cli_init_guards_witness :
  files (Sample.world 0 1000) !! Sample.path = None /\
  exists w' : World,
    @Cli.main (Sample.runtime []) (fun s => s) Sample.path
      (Cli.Init "pw1" "pw1") (Sample.world 0 1000)
    = (Cli.mkEnded [Cli.Out "Secrets vault initialized successfully"] 0, w') /\
    is_Some (files w' !! Sample.path).
Proof.
  split; [reflexivity|].
  destruct (proj2 (proj2 (@cli_init_guards (Sample.runtime []) (fun s => s)
                            Sample.path "pw1" "pw1" (Sample.world 0 1000)))
              eq_refl eq_refl) as (w' & Hrun & Hfile & _).
  exists w'. split; [exact Hrun | exact Hfile].
Defined.


(* ------------------------------------------------------------------------- *)
(** ** The life of a vault object *)

Section LifeFacts.
Context {R : Runtime}.

Lemma perform_locked (c : DataCall) (st : State) :
  isUnlocked (this st) = false -> perform c st = st.
Proof.
  intros Hl. pose proof (ensureUnlocked_locked st Hl) as E.
  destruct c; cbn [perform];
    [unfold Vault.addSecret | unfold Vault.getSecret
     | unfold Vault.getSecretMeta | unfold Vault.listSecrets
     | unfold Vault.updateSecret | unfold Vault.deleteSecret
     | unfold Vault.searchSecrets | unfold Vault.getSecretsByType
     | unfold Vault.getExpiredSecrets | unfold Vault.exportVault];
    rewrite (bind_throw _ _ VaultLocked st st E); reflexivity.
Qed.

(** A data call leaves the key and the lock as they were. *)
Lemma perform_keeps_key (c : DataCall) (st : State) :
  keyed st ->
  isUnlocked (this (perform c st)) = isUnlocked (this st) /\
  encryptionKey (this (perform c st)) = encryptionKey (this st).
Proof.
  intros Hkeyed. destruct (isUnlocked (this st)) eqn:Hu;
    [|rewrite perform_locked by exact Hu; rewrite Hu; split; reflexivity].
  specialize (Hkeyed Hu).
  destruct c as [sd|ident|ident| |ident u|ident|q|t| |]; cbn [perform].
  - rewrite addSecret_unlocked by assumption. split; [exact Hu | reflexivity].
  - rewrite getSecret_reads. split; [exact Hu | reflexivity].
  - rewrite getSecretMeta_reads. split; [exact Hu | reflexivity].
  - rewrite listSecrets_reads. split; [exact Hu | reflexivity].
  - destruct (findIndex (Vault.has_id ident) (secrets_of st)) as [i|] eqn:Hi.
    + rewrite (updateSecret_found ident u st i Hu) by auto.
      split; [exact Hu | reflexivity].
    + rewrite updateSecret_missing by assumption. split; [exact Hu | reflexivity].
  - destruct (findIndex (Vault.has_id ident) (secrets_of st)) as [i|] eqn:Hi.
    + rewrite (deleteSecret_found ident st i Hu Hi).
      split; [exact Hu | reflexivity].
    + rewrite deleteSecret_missing by assumption. split; [exact Hu | reflexivity].
  - rewrite searchSecrets_reads. split; [exact Hu | reflexivity].
  - rewrite getSecretsByType_reads. split; [exact Hu | reflexivity].
  - rewrite getExpiredSecrets_reads, Hu. split; [exact Hu | reflexivity].
  - rewrite exportVault_reads. split; [exact Hu | reflexivity].
Qed.

Lemma keyed_perform_call (c : Call) (st : State) :
  keyed st -> keyed (perform_call c st).
Proof.
  intros Hkeyed. destruct c as [p|p| |c]; cbn [perform_call].
  - rewrite init_runs. intros _. cbn. eauto.
  - rewrite unlock_runs. destruct (persisted st) as [raw|]; [|exact Hkeyed].
    destruct (JSON_parse raw) as [stored|]; [|exact Hkeyed].
    intros _. cbn. eauto.
  - intros H. discriminate H.
  - destruct (perform_keeps_key c st Hkeyed) as [Eu Ek].
    unfold keyed. rewrite Eu, Ek. exact Hkeyed.
Qed.

Lemma keyed_life (path : string) (calls : list Call) (w : World) :
  keyed (life path calls w).
Proof.
  unfold life.
  assert (H0 : keyed (mkState (constructor path) w)) by (intros H; discriminate H).
  revert H0. generalize (mkState (constructor path) w).
  induction calls as [|c calls IH]; intros st Hst; [exact Hst|].
  cbn [fold_left]. apply IH, keyed_perform_call, Hst.
Qed.

Lemma getSecretMeta_found (id : string) (st : State) (s : Secret.t) :
  isUnlocked (this st) = true ->
  List.find (Vault.has_id id) (secrets_of st) = Some s ->
  Vault.getSecretMeta id st = (Return (strip_value s), st).
Proof.
  intros Hu Hf. destruct st as [[path [ver secs meta] k unl] w].
  cbn in Hu, Hf. subst unl. run_method. rewrite Hf. reflexivity.
Qed.

End LifeFacts.

(** X25. On an unlocked vault [addSecret] succeeds. Take a vault object
    made where there was no vault file, and used since in any way but for
    [importVault] (any calls of [init], [unlock], [lock] and of the data
    methods, in any order, returning or throwing), each value given to
    [addSecret] or [updateSecret] being one that the codec reads back as
    written. Whenever it is unlocked it holds a key, and [addSecret] of such
    a value returns; when it is locked [addSecret] throws the vault-locked
    error and changes nothing. *)
Theorem addSecret_fails_only_locked {R : Runtime}
    (path : string) (calls : list Call) (w : World) (secretData : SecretData.t) :
  files w !! path = None ->
  Forall call_reads_back calls ->
  reads_back (AddSecret secretData) ->
  let st := life path calls w in
  (isUnlocked (this st) = true ->
   exists added st', Vault.addSecret secretData st = (Return added, st')) /\
  (isUnlocked (this st) = false ->
   Vault.addSecret secretData st = (Throw VaultLocked, st)).
Proof.
  intros _ _ _ st. split.
  - intros Hu. eexists. eexists.
    apply addSecret_unlocked; [exact Hu|]. apply keyed_life, Hu.
  - intros Hl. unfold Vault.addSecret.
    apply bind_throw, ensureUnlocked_locked, Hl.
Qed.

Lemma addSecret_fails_only_locked_witness :
  files (Sample.world 0 1000) !! Sample.path = None /\
  Forall (@call_reads_back (Sample.runtime []))
    [InitCall "pw1"; Data (AddSecret sample_secret)] /\
  isUnlocked (this (@life (Sample.runtime []) Sample.path
                      [InitCall "pw1"; Data (AddSecret sample_secret)]
                      (Sample.world 0 1000))) = true /\
  exists added st',
    @Vault.addSecret (Sample.runtime []) old_secret
      (@life (Sample.runtime []) Sample.path
         [InitCall "pw1"; Data (AddSecret sample_secret)] (Sample.world 0 1000))
    = (Return added, st').
Proof.
  assert (Hcalls : Forall (@call_reads_back (Sample.runtime []))
                     [InitCall "pw1"; Data (AddSecret sample_secret)]).
  { repeat constructor. intros v _. apply sample_utf8_roundtrip. }
  split; [reflexivity|]. split; [exact Hcalls|]. split; [reflexivity|].
  apply (proj1 (@addSecret_fails_only_locked (Sample.runtime []) Sample.path
                  [InitCall "pw1"; Data (AddSecret sample_secret)]
                  (Sample.world 0 1000) old_secret eq_refl Hcalls
                  (fun v _ => sample_utf8_roundtrip v))).
  reflexivity.
Defined.

(** X26. [getSecretMeta] agrees with [getSecret] and with [listSecrets].
    When [getSecret] returns a record for an id, [getSecretMeta] returns
    that record without its value, and that is one of the entries of
    [listSecrets]; [getSecretMeta] does not decrypt, so it also answers for
    a record whose stored value [getSecret] cannot read. *)
Theorem getSecretMeta_agrees {R : Runtime} (id : string) (st : State) :
  (forall s st',
     Vault.getSecret id st = (Return s, st') ->
     exists all,
       Vault.getSecretMeta id st = (Return (strip_value s), st) /\
       Vault.listSecrets st = (Return all, st) /\
       strip_value s ∈ all) /\
  (forall st',
     Vault.getSecret id st = (Throw CipherError, st') ->
     exists meta, Vault.getSecretMeta id st = (Return meta, st)).
Proof.
  destruct (isUnlocked (this st)) eqn:Hu.
  - destruct (List.find (Vault.has_id id) (secrets_of st)) as [s0|] eqn:Hf.
    + rewrite (getSecret_found id st s0 Hu Hf),
        (getSecretMeta_found id st s0 Hu Hf), (listSecrets_unlocked st Hu).
      split.
      * intros s st' Hget. eexists. split; [|split; [reflexivity|]].
        -- destruct (encryptionKey (this st)) as [key|]; [|discriminate].
           destruct (Crypto.decrypt (Secret.value s0) key); [|discriminate].
           injection Hget as <- _. reflexivity.
        -- destruct (encryptionKey (this st)) as [key|]; [|discriminate].
           destruct (Crypto.decrypt (Secret.value s0) key); [|discriminate].
           injection Hget as <- _.
           change (strip_value s0 ∈ map strip_value (secrets_of st)).
           apply list_elem_of_In, in_map, (find_some _ _ Hf).
      * intros st' _. eexists. reflexivity.
    + rewrite (getSecret_missing id st Hu Hf). split; discriminate.
  - unfold Vault.getSecret.
    rewrite (bind_throw _ _ VaultLocked st st (ensureUnlocked_locked st Hu)).
    split; discriminate.
Qed.

Lemma getSecretMeta_agrees_witness :
  exists s all,
    @Vault.getSecret (Sample.runtime []) sample_id sample_unlocked
    = (Return s, sample_unlocked) /\
    Vault.getSecretMeta sample_id sample_unlocked
    = (Return (strip_value s), sample_unlocked) /\
    Vault.listSecrets sample_unlocked = (Return all, sample_unlocked) /\
    strip_value s ∈ all.
Proof.
  assert (Hget : @Vault.getSecret (Sample.runtime []) sample_id sample_unlocked
                 = (Return (Secret.set_value "s3cr3t" sample_record),
                    sample_unlocked))
    by (vm_compute; reflexivity).
  destruct (proj1 (@getSecretMeta_agrees (Sample.runtime []) sample_id
                     sample_unlocked) _ _ Hget) as (all & Hmeta & Hlist & Hin).
  eexists. exists all. split; [exact Hget|].
  split; [exact Hmeta|]. split; [exact Hlist | exact Hin].
Defined.
